(** * SpookyOTP: the HOTP / TOTP engines of [spookyotp/otp.py]

    A shallow embedding of [otp.py] and the proofs of its specification.

    Conventions of the embedding.
    - A Python [int] is a [Z] (unbounded).
    - A Python [str] is a [list ascii] (code points below 256); a
      [bytearray] is a [list Z] of byte values.
    - An exception is a value of [exn]; a call that can raise returns a
      [result].  Methods of the stateful HOTP engine run in a state monad
      whose state survives an exception, as a mutated Python object does.
    - The wall clock of the TOTP engine is a sequence of readings; the
      number of readings taken so far is threaded through the calls.
    - A timestamp is an [int] or a [float] ([time.time], the default time
      source, returns a float).  A [float] is an IEEE 754 binary64, as
      [SpecFloat] of the Standard Library specifies it.
    - Memory limits (a field width beyond the platform's maximum) are not
      modelled.
    - The constructors take the registry of [hashlib] as a parameter; the
      library functions [str.lower], [urllib.parse.quote] and base32 of
      [base64] are modelled as Python 3.7 documents them. *)

From Stdlib Require Import ZArith Ascii String List Bool Lia Arith.
From Stdlib Require Import DecimalString.
From Stdlib Require DecimalPos DecimalZ.
From Stdlib Require SpecFloat.
Import ListNotations.

Local Open Scope Z_scope.

(** ** Python values *)

Definition str := list ascii.
Definition bytes := list Z.

(** A string literal of the source. *)
Definition lit (s : string) : str := list_ascii_of_string s.

(** The exceptions the module can raise.  The first group are all Python
    [ValueError]s; the constructor records the raise site. *)
Inductive value_error : Type :=
| InvalidCounter      (* "Counter must fit in a unsigned, 64-bit integer" *)
| InvalidArgument     (* "Look-ahead / Max step difference must be non-negative" *)
| InvalidCodeFormat   (* "'...' is not a valid OTP code" *)
| InvalidFormatSpec   (* str.format: "Invalid format specifier" *)
| NotInList           (* list.index: "True is not in list" *)
| NaNToInteger.       (* int(nan): "cannot convert float NaN to integer" *)

Inductive exn : Type :=
| ValueError (why : value_error)
| ZeroDivisionError
| OverflowError
| IndexError
| StructError.

Inductive result (A : Type) : Type :=
| Ok (a : A)
| Raise (e : exn).
Arguments Ok {A} a.
Arguments Raise {A} e.

Definition is_ValueError (e : exn) : bool :=
  match e with ValueError _ => true | _ => false end.

(** Binding of pure fallible computations. *)
Definition rbind {A B} (r : result A) (k : A -> result B) : result B :=
  match r with
  | Ok a => k a
  | Raise e => Raise e
  end.

(** A list comprehension [[f x for x in xs]] over a fallible [f]: elements
    are evaluated left to right and the first exception aborts. *)
Fixpoint rmap {A B} (f : A -> result B) (xs : list A) : result (list B) :=
  match xs with
  | [] => Ok []
  | x :: r =>
      rbind (f x) (fun y => rbind (rmap f r) (fun ys => Ok (y :: ys)))
  end.

(** [range(lo, hi)] *)
Definition range (lo hi : Z) : list Z :=
  map (fun i => lo + Z.of_nat i) (seq 0 (Z.to_nat (hi - lo))).

(** [int.bit_length()]: the bit length of the absolute value. *)
Definition bit_length (n : Z) : Z :=
  if n =? 0 then 0 else Z.log2 (Z.abs n) + 1.

(** [str(n)] for an int. *)
Definition py_str (n : Z) : str :=
  list_ascii_of_string (NilZero.string_of_int (Z.to_int n)).

(** [s[start:]] *)
Definition slice_from (s : str) (start : Z) : str :=
  let n := Z.of_nat (length s) in
  if start <? 0 then skipn (Z.to_nat (Z.max 0 (n + start))) s
  else skipn (Z.to_nat (Z.min start n)) s.

Definition zero_char : ascii := "0"%char.

(** ['{:0W}'.format(v)] where [W] is [str(width)].  A negative width gives
    the specification ["0-3"], which [format] refuses.  Padding is
    sign-aware: zeros go between the sign and the digits. *)
Definition format_zero_padded (width v : Z) : result str :=
  if width <? 0 then Raise (ValueError InvalidFormatSpec)
  else
    let digits := py_str (Z.abs v) in
    let sign := if v <? 0 then ["-"%char] else [] in
    let fill := (Z.to_nat width - length sign - length digits)%nat in
    Ok (sign ++ repeat zero_char fill ++ digits).

(** *** [int(s, 10)]

    Python 3 (from 3.6, which added the underscores) accepts: optional
    white space, an optional sign, decimal digits in groups separated by
    single underscores, optional white space.  Leading zeros are accepted
    with an explicit base 10. *)
Definition is_digit (c : ascii) : bool :=
  let n := nat_of_ascii c in ((48 <=? n) && (n <=? 57))%nat.

Definition digit_val (c : ascii) : Z := Z.of_nat (nat_of_ascii c) - 48.

(** White space for [int]: the ASCII characters tab, line feed, vertical
    tab, form feed, carriage return and space, and the two spaces of the
    Latin-1 range (NEL and the no-break space). *)
Definition is_space (c : ascii) : bool :=
  let n := nat_of_ascii c in
  (((9 <=? n) && (n <=? 13)) || (n =? 32) || (n =? 133) || (n =? 160))%nat.

Fixpoint lstrip (s : str) : str :=
  match s with
  | [] => []
  | c :: r => if is_space c then lstrip r else s
  end.

Definition strip (s : str) : str := rev (lstrip (rev (lstrip s))).

Fixpoint parse_digits (acc : Z) (after_digit : bool) (s : str) : option Z :=
  match s with
  | [] => if after_digit then Some acc else None
  | c :: r =>
      if is_digit c then parse_digits (10 * acc + digit_val c) true r
      else if Ascii.eqb c "_" && after_digit then parse_digits acc false r
      else None
  end.

Definition py_int10 (s : str) : option Z :=
  match strip s with
  | c :: r =>
      if Ascii.eqb c "+" then parse_digits 0 false r
      else if Ascii.eqb c "-" then option_map Z.opp (parse_digits 0 false r)
      else parse_digits 0 false (c :: r)
  | [] => None
  end.

(** *** [float], and the numbers a timestamp can be

    A [float] is a binary64: a signed zero, a signed infinity, a NaN, or
    [(-1)^s * m * 2^e].  Its arithmetic rounds to nearest, ties to even.
    The type has the binary64 values and more (any [m] and [e]); what is
    proved for all of its values holds for the floats of Python. *)
Definition float : Type := SpecFloat.spec_float.

Definition float_add (x y : float) : float := SpecFloat.SFadd 53 1024 x y.

(** The conversion of an [int] operand of a float operation: the nearest
    float, or [OverflowError] ("int too large to convert to float"). *)
Definition float_of_int (n : Z) : result float :=
  match SpecFloat.binary_normalize 53 1024 n 0 false with
  | SpecFloat.S754_infinity _ => Raise OverflowError
  | x => Ok x
  end.

(** [int(x)] for a float: the integral part, that is [x] rounded toward
    zero.  A shift by a negative [e] is a shift to the right. *)
Definition int_of_float (x : float) : result Z :=
  match x with
  | SpecFloat.S754_zero _ => Ok 0
  | SpecFloat.S754_infinity _ => Raise OverflowError
  | SpecFloat.S754_nan => Raise (ValueError NaNToInteger)
  | SpecFloat.S754_finite s m e =>
      let magnitude := Z.shiftl (Z.pos m) e in
      Ok (if s then - magnitude else magnitude)
  end.

Inductive number : Type :=
| Int (z : Z)
| Float (x : float).

(** [int(x)] *)
Definition py_int (x : number) : result Z :=
  match x with
  | Int z => Ok z
  | Float f => int_of_float f
  end.

(** [x + n] for an int [n]: the sum of two ints is exact; a float converts
    the int and adds as floats do. *)
Definition add_int (x : number) (n : Z) : result number :=
  match x with
  | Int z => Ok (Int (z + n))
  | Float f => rbind (float_of_int n) (fun y => Ok (Float (float_add f y)))
  end.

(** ** [constant_time_compare] *)

(** The loop of [constant_time_compare], with the number of iterations
    performed: [are_equal &= (a == b)] for every pair of [zip]. *)
Fixpoint ctc_loop (are_equal : bool) (n : nat) (ps : list (ascii * ascii))
  : bool * nat :=
  match ps with
  | [] => (are_equal, n)
  | (a, b) :: r => ctc_loop (are_equal && Ascii.eqb a b) (S n) r
  end.

Definition constant_time_compare_steps (str_a str_b : str) : bool * nat :=
  ctc_loop (length str_a =? length str_b)%nat 0%nat (combine str_a str_b).

Definition constant_time_compare (str_a str_b : str) : bool :=
  fst (constant_time_compare_steps str_a str_b).

Declare Scope result_scope.
Delimit Scope result_scope with result.
Notation "x <- e ;; k" := (rbind e (fun x => k))
  (at level 61, e at next level, right associativity) : result_scope.
Local Open Scope result_scope.

(** ** The collaborators: [hashlib] and [hmac]

    [getattr(hashlib, name)] resolves a name to a hash constructor.  A
    constructor is modelled by its block size and its digest function. *)
Record digestmod : Type := {
  block_size : nat;
  digest : bytes -> bytes
}.

(** [hmac.new(key, msg, digestmod).digest()] (RFC 2104). *)
Definition hmac_digest (key msg : bytes) (algorithm : digestmod) : bytes :=
  let key := if (block_size algorithm <? length key)%nat
             then digest algorithm key else key in
  let key := key ++ repeat 0 (block_size algorithm - length key) in
  let inner := digest algorithm (map (Z.lxor 0x36) key ++ msg) in
  digest algorithm (map (Z.lxor 0x5c) key ++ inner).

(** Big-endian bytes of the low [8 * k] bits of [n], and back. *)
Definition be_bytes (k : nat) (n : Z) : bytes :=
  map (fun i => Z.land (Z.shiftr n (8 * Z.of_nat i)) 0xff) (rev (seq 0 k)).

Definition be_int (bs : bytes) : Z :=
  fold_left (fun acc b => Z.lor (Z.shiftl acc 8) b) bs 0.

(** *** [hashlib.sha1] (FIPS 180-4), the default algorithm *)
Module SHA1.

Definition mask32 : Z := 0xffffffff.
Definition add32 (a b : Z) : Z := Z.land (a + b) mask32.
Definition rotl32 (n x : Z) : Z :=
  Z.land (Z.lor (Z.shiftl x n) (Z.shiftr x (32 - n))) mask32.

Definition state : Type := Z * Z * Z * Z * Z.

Definition init : state :=
  (0x67452301, 0xefcdab89, 0x98badcfe, 0x10325476, 0xc3d2e1f0).

Definition f (t : nat) (b c d : Z) : Z :=
  if (t <? 20)%nat then Z.lor (Z.land b c) (Z.land (Z.lxor b mask32) d)
  else if (t <? 40)%nat then Z.lxor (Z.lxor b c) d
  else if (t <? 60)%nat
       then Z.lor (Z.lor (Z.land b c) (Z.land b d)) (Z.land c d)
  else Z.lxor (Z.lxor b c) d.

Definition k (t : nat) : Z :=
  if (t <? 20)%nat then 0x5a827999
  else if (t <? 40)%nat then 0x6ed9eba1
  else if (t <? 60)%nat then 0x8f1bbcdc
  else 0xca62c1d6.

Definition round (t : nat) (w : Z) (s : state) : state :=
  let '(a, b, c, d, e) := s in
  let temp := add32 (add32 (add32 (add32 (rotl32 5 a) (f t b c d)) e) (k t)) w in
  (temp, a, rotl32 30 b, c, d).

(** [n] rounds from round [t]; [win] holds the schedule words
    [W t .. W (t + 15)]. *)
Fixpoint rounds (n t : nat) (win : list Z) (s : state) : state :=
  match n with
  | O => s
  | S n' =>
      let w := nth 0 win 0 in
      let next := rotl32 1 (Z.lxor (Z.lxor (Z.lxor (nth 13 win 0) (nth 8 win 0))
                                           (nth 2 win 0)) w) in
      rounds n' (S t) (tl win ++ [next]) (round t w s)
  end.

(** Split into groups of [size] elements. *)
Fixpoint chunks (fuel size : nat) (l : list Z) : list (list Z) :=
  match fuel, l with
  | O, _ | _, [] => []
  | S fuel', _ => firstn size l :: chunks fuel' size (skipn size l)
  end.

Definition compress (s : state) (block : bytes) : state :=
  let win := map be_int (chunks 16 4 block) in
  let '(a, b, c, d, e) := rounds 80 0 win s in
  let '(h0, h1, h2, h3, h4) := s in
  (add32 h0 a, add32 h1 b, add32 h2 c, add32 h3 d, add32 h4 e).

Definition pad (msg : bytes) : bytes :=
  let len := Z.of_nat (length msg) in
  msg ++ [0x80] ++ repeat 0 (Z.to_nat ((55 - len) mod 64))
      ++ be_bytes 8 (8 * len).

Definition sha1_digest (msg : bytes) : bytes :=
  let padded := pad msg in
  let '(h0, h1, h2, h3, h4) :=
    fold_left compress (chunks (length padded) 64 padded) init in
  be_bytes 4 h0 ++ be_bytes 4 h1 ++ be_bytes 4 h2 ++ be_bytes 4 h3
    ++ be_bytes 4 h4.

Definition sha1 : digestmod := {| block_size := 64; digest := sha1_digest |}.

End SHA1.

(** ** [spookyotp.byte_util] *)

(** Modelled from the spec: [byte_util.int_to_bytearray] is imported by
    [otp.py] but its file is not part of the sources.  The spec (4.1,
    counter_to_bytes): "converts a 64-bit counter to an 8-byte big-endian
    buffer ... Fails if the logical value's bit length exceeds 64".  The spec
    fixes the bytes for counters in the unsigned 64-bit range only. *)
Definition int_to_bytearray (int_val : Z) : result bytes :=
  if 64 <? bit_length int_val then Raise (ValueError InvalidCounter)
  else Ok (be_bytes 8 int_val).

(** Modelled from the spec: [byte_util.bytes_to_31_bit_int] is imported by
    [otp.py] but its file is not part of the sources.  The spec (4.1,
    truncated_bytes_to_int): "(buf: 4 bytes) -> u31: interpret as big-endian
    32-bit unsigned, then clear the most significant bit (mask 0x7FFFFFFF)".
    The spec says nothing of buffers of another length; they are refused
    here. *)
Definition bytes_to_31_bit_int (as_bytes : bytes) : result Z :=
  if (length as_bytes =? 4)%nat
  then Ok (Z.land (be_int as_bytes) 0x7fffffff)
  else Raise StructError.

(** ** [OTPBase] *)

(** [hashed[-1]] *)
Definition last_byte (hashed : bytes) : result Z :=
  match rev hashed with
  | [] => Raise IndexError
  | b :: _ => Ok b
  end.

(** [OTPBase._get_otp] *)
Definition _get_otp (secret : bytes) (counter_int n_digits : Z)
    (algorithm : digestmod) : result str :=
  if 64 <? bit_length counter_int then Raise (ValueError InvalidCounter)
  else
    counter <- int_to_bytearray counter_int ;;
    let hashed := hmac_digest secret counter algorithm in
    last <- last_byte hashed ;;
    let idx := Z.land last 0x0f in
    let truncated := firstn 4 (skipn (Z.to_nat idx) hashed) in
    as_int <- bytes_to_31_bit_int truncated ;;
    padded <- format_zero_padded n_digits as_int ;;
    Ok (slice_from padded (- n_digits)).

(** The body of the validation loop of [_compare]: [int(code, 10)] under
    [try], a [ValueError] re-raised with the module's message. *)
Definition check_code (code : str) : result unit :=
  match py_int10 code with
  | Some _ => Ok tt
  | None => Raise (ValueError InvalidCodeFormat)
  end.

(** [OTPBase._compare] *)
Definition _compare (code_a code_b : str) : result bool :=
  _ <- rmap check_code [code_a; code_b] ;;
  Ok (constant_time_compare code_a code_b).

(** [list.index(True)] *)
Fixpoint index_true (l : list bool) : result nat :=
  match l with
  | [] => Raise (ValueError NotInList)
  | true :: _ => Ok O
  | false :: r => i <- index_true r ;; Ok (S i)
  end.

(** [l[i]] for an index that is not negative. *)
Definition item {A} (l : list A) (i : nat) : result A :=
  match nth_error l i with
  | Some a => Ok a
  | None => Raise IndexError
  end.

(** ** Stateful methods

    A method over a mutable state [S]: it returns a value or raises, and in
    both cases leaves a state behind. *)
Definition M (S A : Type) : Type := S -> result A * S.

Definition ret {S A} (a : A) : M S A := fun s => (Ok a, s).
Definition raise {S A} (e : exn) : M S A := fun s => (Raise e, s).
Definition lift {S A} (r : result A) : M S A := fun s => (r, s).
Definition bind {S A B} (m : M S A) (k : A -> M S B) : M S B :=
  fun s =>
    match m s with
    | (Ok a, s') => k a s'
    | (Raise e, s') => (Raise e, s')
    end.
Definition get {S} : M S S := fun s => (Ok s, s).

(** [try: body / except ValueError: handler / else: orelse] *)
Definition try_except_ValueError {S A B}
    (body : M S A) (handler : M S B) (orelse : A -> M S B) : M S B :=
  fun s =>
    match body s with
    | (Ok a, s') => orelse a s'
    | (Raise e, s') => if is_ValueError e then handler s' else (Raise e, s')
    end.

Declare Scope method_scope.
Delimit Scope method_scope with method.
Notation "x <- e ;; k" := (bind e (fun x => k))
  (at level 61, e at next level, right associativity) : method_scope.
Notation "e ;; k" := (bind e (fun _ => k))
  (at level 61, right associativity) : method_scope.

(** A list comprehension whose element expression is a method call. *)
Fixpoint mapM {S A B} (f : A -> M S B) (xs : list A) : M S (list B) :=
  match xs with
  | [] => ret []
  | x :: r => (y <- f x ;; ys <- mapM f r ;; ret (y :: ys))%method
  end.

(** The attributes set by [OTPBase._setup]. *)
Record OTPBase : Type := {
  _secret : bytes;
  _issuer : str;
  _account : option str;
  _n_digits : Z;
  _algorithm_name : str;
  _algorithm : digestmod
}.

(** ** Collaborators of the constructors and of the provisioning URI *)

(** What a constructor or the URI encoder ends with: a value, or the error
    it raised. *)
Inductive outcome (E A : Type) : Type :=
| Returned (a : A)
| Raised (e : E).
Arguments Returned {E A} a.
Arguments Raised {E A} e.

(** The errors of [_setup]; both are [ValueError]s in Python. *)
Inductive setup_error : Type :=
| InvalidSecretEncoding                (* binascii.Error of b32decode *)
| UnsupportedAlgorithm (name : str).   (* "Not a valid algorithm: '...'" *)

(** The error of [_get_uri], a [ValueError]. *)
Inductive uri_error : Type :=
| UnsupportedParameter (key : str).    (* "Got unexpected URL keyword '...'" *)

Definition ord (c : ascii) : Z := Z.of_nat (nat_of_ascii c).
Definition chr (n : Z) : ascii := ascii_of_nat (Z.to_nat n).

(** [str.lower()] on code points below 256: the ASCII capitals and the
    Latin-1 capitals (all of 0xC0-0xDE but the multiplication sign). *)
Definition lower_char (c : ascii) : ascii :=
  let n := ord c in
  if ((65 <=? n) && (n <=? 90))
     || ((192 <=? n) && (n <=? 222) && negb (n =? 215))
  then chr (n + 32) else c.

Definition lower (s : str) : str := map lower_char s.

(** *** [urllib.parse.quote] with its default [safe='/'] (Python 3.7 on)

    The string is encoded in UTF-8; a byte is kept when it is a letter, a
    digit, one of [_.-~] or [/], and written [%XX] otherwise. *)
Definition utf8_encode (s : str) : bytes :=
  flat_map (fun c => let n := ord c in
                     if n <? 128 then [n]
                     else [Z.lor 0xc0 (Z.shiftr n 6);
                           Z.lor 0x80 (Z.land n 0x3f)]) s.

Definition is_always_safe (b : Z) : bool :=
  ((65 <=? b) && (b <=? 90)) || ((97 <=? b) && (b <=? 122))
  || ((48 <=? b) && (b <=? 57))
  || (b =? 95) || (b =? 46) || (b =? 45) || (b =? 126).

Definition hex_upper (n : Z) : ascii :=
  nth (Z.to_nat n) (lit "0123456789ABCDEF") "0"%char.

Definition quote_byte (b : Z) : str :=
  if is_always_safe b || (b =? 47) then [chr b]
  else ["%"%char; hex_upper (b / 16); hex_upper (b mod 16)].

Definition quote (s : str) : str := flat_map quote_byte (utf8_encode s).

(** *** [base64.b32encode] and [base64.b32decode] (RFC 4648) *)

Definition b32alphabet : str := lit "ABCDEFGHIJKLMNOPQRSTUVWXYZ234567".

Definition b32tab (d : Z) : ascii := nth (Z.to_nat d) b32alphabet "A"%char.

Fixpoint find_index (c : ascii) (l : str) (i : Z) : option Z :=
  match l with
  | [] => None
  | x :: r => if Ascii.eqb x c then Some i else find_index c r (i + 1)
  end.

Definition b32rev (c : ascii) : option Z := find_index c b32alphabet 0.

(** The eight characters of a group of five bytes.  (The library reads
    them two at a time from a table of pairs.) *)
Definition b32encode_quantum (five : bytes) : str :=
  let c := be_int five in
  map (fun i => b32tab (Z.land (Z.shiftr c (5 * Z.of_nat i)) 31))
      (rev (seq 0 8)).

(** Split into groups of [size] elements, the last one possibly shorter:
    [[s[i: i + size] for i in range(0, len(s), size)]]. *)
Fixpoint groups_of {A} (fuel size : nat) (s : list A) : list (list A) :=
  match fuel, s with
  | O, _ | _, [] => []
  | S fuel', _ => firstn size s :: groups_of fuel' size (skipn size s)
  end.

Definition pad_char : ascii := "="%char.

Definition b32encode (s : bytes) : str :=
  let leftover := (length s mod 5)%nat in
  let padded := if (leftover =? 0)%nat then s
                else s ++ repeat 0 (5 - leftover) in
  let encoded := flat_map b32encode_quantum
                          (groups_of (length padded) 5 padded) in
  let pad n := firstn (length encoded - n) encoded ++ repeat pad_char n in
  match leftover with
  | 1 => pad 6
  | 2 => pad 4
  | 3 => pad 3
  | 4 => pad 1
  | _ => encoded
  end%nat.

(** [s.rstrip('=')] *)
Fixpoint lstrip_pad (s : str) : str :=
  match s with
  | [] => []
  | c :: r => if Ascii.eqb c pad_char then lstrip_pad r else s
  end.

Definition rstrip_pad (s : str) : str := rev (lstrip_pad (rev s)).

(** The inner loop over the characters of one group:
    [acc = (acc << 5) + b32rev[c]], a [KeyError] giving [None]. *)
Fixpoint b32decode_quantum (acc : Z) (quanta : str) : option Z :=
  match quanta with
  | [] => Some acc
  | c :: r =>
      match b32rev c with
      | Some d => b32decode_quantum (Z.shiftl acc 5 + d) r
      | None => None
      end
  end.

(** The loop over the groups: the bytes decoded so far and the [acc] of
    the last group. *)
Fixpoint b32decode_loop (decoded : bytes) (acc : Z) (groups : list str)
  : option (bytes * Z) :=
  match groups with
  | [] => Some (decoded, acc)
  | q :: r =>
      match b32decode_quantum 0 q with
      | Some acc' => b32decode_loop (decoded ++ be_bytes 5 acc') acc' r
      | None => None
      end
  end.

Definition b32decode (s : str) : outcome setup_error bytes :=
  let l := length s in
  if negb (l mod 8 =? 0)%nat then Raised InvalidSecretEncoding
  else
    let s' := rstrip_pad s in
    let padchars := (l - length s')%nat in
    match b32decode_loop [] 0 (groups_of (length s') 8 s') with
    | None => Raised InvalidSecretEncoding
    | Some (decoded, acc) =>
        if negb (existsb (Nat.eqb padchars) [0; 1; 3; 4; 6]%nat)
        then Raised InvalidSecretEncoding
        else if negb (padchars =? 0)%nat && negb (length decoded =? 0)%nat
        then
          let acc := Z.shiftl acc (5 * Z.of_nat padchars) in
          let last := be_bytes 5 acc in
          let leftover := ((43 - 5 * padchars) / 8)%nat in
          Returned (firstn (length decoded - 5) decoded
                      ++ firstn leftover last)
        else Returned decoded
    end.

(** [getattr(hashlib, name)]: the registry of hash constructors is a
    parameter of the constructors.  Attributes of [hashlib] that are not
    hash constructors are not modelled. *)
Definition hashlib_module : Type := str -> option digestmod.

(** [OTPBase._get_algorithm] *)
Definition _get_algorithm (hashlib : hashlib_module) (algorithm_name : str)
  : outcome setup_error digestmod :=
  match hashlib algorithm_name with
  | Some algorithm => Returned algorithm
  | None => Raised (UnsupportedAlgorithm algorithm_name)
  end.

(** [OTPBase._setup]; a secret is a [bytearray] or a base32 text. *)
Definition _setup (hashlib : hashlib_module) (secret : bytes + str)
    (issuer : str) (account : option str) (n_digits : Z) (algorithm : str)
  : outcome setup_error OTPBase :=
  match (match secret with
         | inl raw => Returned raw
         | inr text => b32decode text
         end) with
  | Raised e => Raised e
  | Returned secret_bytes =>
      let algorithm_name := lower algorithm in
      match _get_algorithm hashlib algorithm_name with
      | Raised e => Raised e
      | Returned resolved =>
          Returned {| _secret := secret_bytes; _issuer := issuer;
                      _account := account; _n_digits := n_digits;
                      _algorithm_name := algorithm_name;
                      _algorithm := resolved |}
      end
  end.

(** The class attributes [_get_uri] reads through [cls]. *)
Record otp_class : Type := {
  _otp_type : str;
  _extra_uri_parameters : list str
}.

Definition OTPBase_class : otp_class :=
  {| _otp_type := lit "otp"; _extra_uri_parameters := [] |}.

Definition str_eqb (a b : str) : bool :=
  if list_eq_dec ascii_dec a b then true else false.

(** The loop of [_get_uri] over [other_params.items()]. *)
Fixpoint add_params (allowed : list str) (uri : str)
    (other_params : list (str * Z)) : outcome uri_error str :=
  match other_params with
  | [] => Returned uri
  | (key, value) :: r =>
      if negb (existsb (str_eqb key) allowed)
      then Raised (UnsupportedParameter key)
      else add_params allowed
             (uri ++ lit "&" ++ key ++ lit "=" ++ quote (py_str value)) r
  end.

(** [OTPBase._get_uri], a class method *)
Definition _get_uri (cls : otp_class) (secret : bytes) (issuer : str)
    (account : option str) (n_digits : Z) (algorithm : str)
    (other_params : list (str * Z)) : outcome uri_error str :=
  let encoded_otp_type := quote (_otp_type cls) in
  let encoded_secret := b32encode secret in
  let encoded_issuer := quote issuer in
  let encoded_path := match account with
                      | Some a => encoded_issuer ++ lit ":" ++ quote a
                      | None => encoded_issuer
                      end in
  let encoded_algorithm := quote algorithm in
  let uri := lit "otpauth://" ++ encoded_otp_type ++ lit "/" ++ encoded_path
             ++ lit "?secret=" ++ encoded_secret
             ++ lit "&issuer=" ++ encoded_issuer
             ++ lit "&digits=" ++ py_str n_digits
             ++ lit "&algorithm=" ++ encoded_algorithm in
  add_params (_extra_uri_parameters cls) uri other_params.

(** ** [class HOTP] *)
Module HOTP.

Record engine : Type := {
  base : OTPBase;
  counter : Z
}.

Definition set_counter (c : Z) : M engine unit :=
  fun self => (Ok tt, {| base := base self; counter := c |}).

Local Open Scope method_scope.

(** [HOTP.get_otp(self, counter=None, auto_increment=True)] *)
Definition get_otp (counter_arg : option Z) (auto_increment : bool)
  : M engine str :=
  c <- match counter_arg with
       | None =>
           self <- get ;;
           (if auto_increment then set_counter (counter self + 1)
            else ret tt) ;;
           ret (counter self)
       | Some c => ret c
       end ;;
  self <- get ;;
  lift (_get_otp (_secret (base self)) c (_n_digits (base self))
                 (_algorithm (base self))).

(** [HOTP.compare(self, code, look_ahead=2)] *)
Definition compare (code : str) (look_ahead : Z) : M engine bool :=
  if look_ahead <? 0 then raise (ValueError InvalidArgument)
  else
    self <- get ;;
    let counters := map (fun i => counter self + i)
                        (range 0 (look_ahead + 1)) in
    valid_codes <- mapM (fun c => get_otp (Some c) true) counters ;;
    try_except_ValueError
      (is_valid <- mapM (fun valid => lift (_compare code valid))
                        valid_codes ;;
       lift (index_true is_valid))
      (ret false)
      (fun correct_idx =>
         c <- lift (item counters correct_idx) ;;
         set_counter (c + 1) ;;
         ret true).

Definition cls : otp_class :=
  {| _otp_type := lit "hotp"; _extra_uri_parameters := [lit "counter"] |}.

(** [HOTP.__init__] *)
Definition __init__ (hashlib : hashlib_module) (secret : bytes + str)
    (issuer : str) (account : option str) (n_digits : Z) (algorithm : str)
    (counter : Z) : outcome setup_error engine :=
  match _setup hashlib secret issuer account n_digits algorithm with
  | Raised e => Raised e
  | Returned b => Returned {| base := b; counter := counter |}
  end.

(** [HOTP.get_uri] *)
Definition get_uri (self : engine) : outcome uri_error str :=
  _get_uri cls (_secret (base self)) (_issuer (base self))
           (_account (base self)) (_n_digits (base self))
           (_algorithm_name (base self)) [(lit "counter", counter self)].

End HOTP.

(** ** [class TOTP] *)
Module TOTP.

(** [_current_timestamp] is the time source: [_current_timestamp n] is what
    its [n]-th call (from 0) returns.  The state of a method is the number of
    calls made so far. *)
Record engine : Type := {
  base : OTPBase;
  _period : Z;
  _current_timestamp : nat -> number
}.

Definition read_clock (self : engine) : M nat number :=
  fun reads => (Ok (_current_timestamp self reads), S reads).

(** [a // b] for ints *)
Definition floordiv (a b : Z) : result Z :=
  if b =? 0 then Raise ZeroDivisionError else Ok (a / b).

Local Open Scope method_scope.

(** [TOTP.get_otp(self, timestamp=None)]; the counter is
    [int(timestamp)//self._period], [int] first. *)
Definition get_otp (self : engine) (timestamp : option number) : M nat str :=
  t <- match timestamp with
       | None => read_clock self
       | Some t => ret t
       end ;;
  seconds <- lift (py_int t) ;;
  step <- lift (floordiv seconds (_period self)) ;;
  lift (_get_otp (_secret (base self)) step (_n_digits (base self))
                 (_algorithm (base self))).

(** [TOTP.compare(self, code, max_step_difference=1)] *)
Definition compare (self : engine) (code : str) (max_step_difference : Z)
  : M nat bool :=
  if max_step_difference <? 0 then raise (ValueError InvalidArgument)
  else
    timestamp <- read_clock self ;;
    valid_codes <- mapM (fun i =>
                           t <- lift (add_int timestamp (i * _period self)) ;;
                           get_otp self (Some t))
                        (range (- max_step_difference)
                               (max_step_difference + 1)) ;;
    results <- mapM (fun valid => lift (_compare code valid)) valid_codes ;;
    ret (existsb (fun b => b) results).

Definition cls : otp_class :=
  {| _otp_type := lit "totp"; _extra_uri_parameters := [lit "period"] |}.

(** [TOTP.__init__]; [time_source] is the sequence of readings of the
    clock the engine will use. *)
Definition __init__ (hashlib : hashlib_module) (secret : bytes + str)
    (issuer : str) (account : option str) (n_digits : Z) (algorithm : str)
    (period : Z) (time_source : nat -> number)
  : outcome setup_error engine :=
  match _setup hashlib secret issuer account n_digits algorithm with
  | Raised e => Raised e
  | Returned b =>
      Returned {| base := b; _period := period;
                  _current_timestamp := time_source |}
  end.

(** [TOTP.get_uri] *)
Definition get_uri (self : engine) : outcome uri_error str :=
  _get_uri cls (_secret (base self)) (_issuer (base self))
           (_account (base self)) (_n_digits (base self))
           (_algorithm_name (base self)) [(lit "period", _period self)].

End TOTP.

(** ** Vocabulary of the statements *)

(** Equality of one zipped pair of characters. *)
Definition pair_eqb (p : ascii * ascii) : bool := Ascii.eqb (fst p) (snd p).

(** The code an engine with attributes [b] generates for counter (or time
    step) [j]. *)
Definition code_at (b : OTPBase) (j : Z) : result str :=
  _get_otp (_secret b) j (_n_digits b) (_algorithm b).

(** The 31-bit value [_get_otp] renders: its statements up to
    [as_int = bytes_to_31_bit_int(truncated)]. *)
Definition truncated_value (secret : bytes) (counter_int : Z)
    (algorithm : digestmod) : result Z :=
  if 64 <? bit_length counter_int then Raise (ValueError InvalidCounter)
  else
    counter <- int_to_bytearray counter_int ;;
    let hashed := hmac_digest secret counter algorithm in
    last <- last_byte hashed ;;
    let idx := Z.land last 0x0f in
    let truncated := firstn 4 (skipn (Z.to_nat idx) hashed) in
    bytes_to_31_bit_int truncated.

(** A hash whose digests are long enough for the dynamic truncation: the
    offset is at most 15 and four bytes are read from it. *)
Definition supported (algorithm : digestmod) : Prop :=
  forall msg, (20 <= length (digest algorithm msg))%nat.

(** [int(code, 10)] raises [ValueError]. *)
Definition unparsable (code : str) : Prop := py_int10 code = None.

(** A character that can occur in no string [int(., 10)] accepts. *)
Definition foreign_char (c : ascii) : bool :=
  negb (is_digit c || is_space c || Ascii.eqb c "+" || Ascii.eqb c "-"
        || Ascii.eqb c "_").

(** The engine [self] with its counter set to [c]. *)
Definition with_counter (self : HOTP.engine) (c : Z) : HOTP.engine :=
  {| HOTP.base := HOTP.base self; HOTP.counter := c |}.

(** *** The engines of the RFC 4226 and RFC 6238 test vectors *)

Definition ascii_bytes (s : string) : bytes :=
  map (fun c => Z.of_nat (nat_of_ascii c)) (list_ascii_of_string s).

Definition rfc_secret : bytes := ascii_bytes "12345678901234567890".

Definition rfc_base (n_digits : Z) : OTPBase :=
  {| _secret := rfc_secret; _issuer := lit "Example"; _account := None;
     _n_digits := n_digits; _algorithm_name := lit "sha1";
     _algorithm := SHA1.sha1 |}.

(** [HOTP(secret, 'Example', counter=c)] *)
Definition rfc_hotp (c : Z) : HOTP.engine :=
  {| HOTP.base := rfc_base 6; HOTP.counter := c |}.

(** [TOTP(secret, 'Example', time_source=lambda: now)] for an int [now] *)
Definition rfc_totp (now : Z) : TOTP.engine :=
  {| TOTP.base := rfc_base 6; TOTP._period := 30;
     TOTP._current_timestamp := fun _ => Int now |}.

(** The counters [HOTP.compare] tries: [current .. current + look_ahead]. *)
Definition hotp_window (current look_ahead : Z) : list Z :=
  map (fun i => current + i) (range 0 (look_ahead + 1)).

(** The candidate of [TOTP.compare] for the offset [i] and the reading
    [timestamp]: [self.get_otp(timestamp + i * self._period)].  The call
    reads no clock, so the count of readings it starts from is of no
    account. *)
Definition candidate (self : TOTP.engine) (timestamp : number) (i : Z)
  : result str :=
  fst (bind (lift (add_int timestamp (i * TOTP._period self)))
            (fun t => TOTP.get_otp self (Some t)) 0%nat).

(** The float an int literal writes, for an int within the range. *)
Definition float_lit (n : Z) : float :=
  SpecFloat.binary_normalize 53 1024 n 0 false.

(** [-0.5] *)
Definition minus_half : float :=
  SpecFloat.S754_finite true (2 ^ 52) (- 53).

(** [TOTP(secret, 'Example', period=period, time_source=clock)] *)
Definition rfc_totp_with (period : Z) (clock : nat -> number) : TOTP.engine :=
  {| TOTP.base := rfc_base 6; TOTP._period := period;
     TOTP._current_timestamp := clock |}.

(** A clock that returns the float [2.0**60]. *)
Definition clock_2_60 : nat -> number := fun _ => Float (float_lit (2 ^ 60)).

(** A clock whose readings are the floats [2.0**53 + 4], [2.0**53 + 6],
    ... *)
Definition clock_2_53 : nat -> number :=
  fun n => Float (float_lit (2 ^ 53 + 4 + 2 * Z.of_nat n)).

(** A finite float whose absolute value is less than 1: [m * 2^e < 1]. *)
Definition below_one (x : float) : Prop :=
  match x with
  | SpecFloat.S754_zero _ => True
  | SpecFloat.S754_finite _ m e => Z.pos m < 2 ^ (- e) /\ e < 0
  | _ => False
  end.

(** [self.compare(self.get_otp(auto_increment=...))]: the argument is
    evaluated first, then [compare] runs with the default look-ahead on the
    state [get_otp] left. *)
Definition roundtrip (auto_increment : bool) : M HOTP.engine bool :=
  bind (HOTP.get_otp None auto_increment) (fun code => HOTP.compare code 2).

(** *** Vocabulary of the further properties *)

(** The number a string of decimal digits writes. *)
Definition decimal_value (s : str) : Z :=
  fold_left (fun acc c => 10 * acc + digit_val c) s 0.

(** [[self.get_otp() for _ in range(n)]] *)
Definition get_otps (n : nat) : M HOTP.engine (list str) :=
  mapM (fun _ => HOTP.get_otp None true) (repeat tt n).

(** A registry of hash constructors that knows [sha1] only. *)
Definition sha1_only : hashlib_module :=
  fun name => if str_eqb name (lit "sha1") then Some SHA1.sha1 else None.

(** Byte values. *)
Definition is_byte (b : Z) : Prop := 0 <= b < 256.

(** [TOTP(secret, 'Example', time_source=clock)] for a clock that
    advances by one second at every reading, from [start]. *)
Definition rfc_totp_ticking (start : Z) : TOTP.engine :=
  {| TOTP.base := rfc_base 6; TOTP._period := 30;
     TOTP._current_timestamp := fun n => Int (start + Z.of_nat n) |}.

(** The number of occurrences of a character. *)
Definition count_char (c : ascii) (s : str) : nat := count_occ ascii_dec s c.

(** The separators of the query of a URI, and the fragment mark. *)
Definition is_separator (c : ascii) : bool :=
  Ascii.eqb c "&" || Ascii.eqb c "?" || Ascii.eqb c "#".

(** The URI of an engine without its last parameter. *)
Definition uri_stem (cls : otp_class) (b : OTPBase) : outcome uri_error str :=
  _get_uri cls (_secret b) (_issuer b) (_account b) (_n_digits b)
           (_algorithm_name b) [].

(** An engine whose labels are full of separators. *)
Definition tricky_hotp : HOTP.engine :=
  {| HOTP.base := {| _secret := rfc_secret; _issuer := lit "A&B?C#D";
                     _account := Some (lit "x&y=z"); _n_digits := 6;
                     _algorithm_name := lit "sha1";
                     _algorithm := SHA1.sha1 |};
     HOTP.counter := 0 |}.


(** * Proofs *)

(** ** The comparator *)

Lemma ctc_loop_spec (ps : list (ascii * ascii)) :
  forall acc n,
    ctc_loop acc n ps = (acc && forallb pair_eqb ps, (n + length ps)%nat).
Proof.
  induction ps as [|[a b] r IH]; intros acc n; simpl.
  - now rewrite andb_true_r, Nat.add_0_r.
  - rewrite IH. unfold pair_eqb at 2. simpl.
    now rewrite andb_assoc, Nat.add_succ_r.
Qed.

Lemma zip_all_equal (a : str) :
  forall b, ((length a =? length b)%nat && forallb pair_eqb (combine a b)) = true
            <-> a = b.
Proof.
  induction a as [|x a IH]; intros [|y b]; simpl; split; try easy.
  - intros H. apply andb_true_iff in H as [Hl H].
    apply andb_true_iff in H as [Hxy H].
    unfold pair_eqb in Hxy. simpl in Hxy. apply Ascii.eqb_eq in Hxy. subst y.
    f_equal. apply IH. now rewrite Hl, H.
  - intros H. injection H as -> ->.
    unfold pair_eqb at 1. simpl. rewrite Ascii.eqb_refl. simpl.
    now apply IH.
Qed.

Lemma constant_time_compare_eq (a b : str) :
  constant_time_compare a b = true <-> a = b.
Proof.
  unfold constant_time_compare, constant_time_compare_steps.
  rewrite ctc_loop_spec. simpl. apply zip_all_equal.
Qed.

Lemma constant_time_compare_refl (a : str) : constant_time_compare a a = true.
Proof. now apply constant_time_compare_eq. Qed.

Lemma constant_time_compare_neq (a b : str) :
  a <> b -> constant_time_compare a b = false.
Proof.
  intros H. destruct (constant_time_compare a b) eqn:E; [|reflexivity].
  now apply constant_time_compare_eq in E.
Qed.

(** C8.  [constant_time_compare a b] is true exactly when [a = b]; it is
    false when the lengths differ; its value is the length test ANDed with
    the equality of every zipped pair, and the loop runs once per zipped
    pair (the common length) whatever the characters are. *)
Theorem constant_time_compare_correct (a b : str) :
  (constant_time_compare a b = true <-> a = b)
  /\ (length a <> length b -> constant_time_compare a b = false)
  /\ constant_time_compare_steps a b
     = ((length a =? length b)%nat && forallb pair_eqb (combine a b),
        Nat.min (length a) (length b)).
Proof.
  split; [apply constant_time_compare_eq|]. split.
  - intros H. apply constant_time_compare_neq. congruence.
  - unfold constant_time_compare_steps.
    now rewrite ctc_loop_spec, length_combine.
Qed.

Lemma constant_time_compare_correct_witness :
  (constant_time_compare (lit "123456") (lit "123456") = true
   <-> lit "123456" = lit "123456")
  /\ constant_time_compare (lit "12345") (lit "123456") = false
  /\ constant_time_compare_steps (lit "12345") (lit "923456")
     = (false, 5%nat).
Proof.
  destruct (constant_time_compare_correct (lit "123456") (lit "123456"))
    as [H _].
  destruct (constant_time_compare_correct (lit "12345") (lit "123456"))
    as (_ & H1 & _).
  destruct (constant_time_compare_correct (lit "12345") (lit "923456"))
    as (_ & _ & H2).
  split; [exact H|]. split; [apply H1; simpl; lia | exact H2].
Defined.

(** ** Python primitives *)

Lemma bit_length_guard (n : Z) :
  (64 <? bit_length n) = true <-> 2 ^ 64 <= Z.abs n.
Proof.
  unfold bit_length. destruct (Z.eqb_spec n 0) as [->|Hn].
  - simpl. split; [discriminate | lia].
  - rewrite Z.ltb_lt.
    assert (Hpos : 0 < Z.abs n) by lia.
    pose proof (Z.log2_lt_pow2 (Z.abs n) 64 Hpos) as H. lia.
Qed.

Lemma bit_length_fits (n : Z) :
  (64 <? bit_length n) = false <-> Z.abs n < 2 ^ 64.
Proof.
  pose proof (bit_length_guard n) as H.
  destruct (64 <? bit_length n); split; intros; try easy.
  - destruct H as [H _]. specialize (H eq_refl). lia.
  - destruct (Z_lt_le_dec (Z.abs n) (2 ^ 64)); [assumption|].
    destruct H as [_ H]. now specialize (H l).
Qed.

Lemma is_digit_zero_char : is_digit zero_char = true.
Proof. reflexivity. Qed.

Lemma uint_digits (d : Decimal.uint) :
  Forall (fun c => is_digit c = true)
         (list_ascii_of_string (NilEmpty.string_of_uint d)).
Proof. induction d; simpl; constructor; auto. Qed.

Lemma nilzero_digits (d : Decimal.uint) :
  let s := list_ascii_of_string (NilZero.string_of_uint d) in
  Forall (fun c => is_digit c = true) s /\ s <> [].
Proof.
  destruct d; simpl;
    (split; [constructor; [reflexivity | try apply uint_digits; constructor]
            | discriminate]).
Qed.

Lemma py_str_digits (n : Z) :
  0 <= n -> Forall (fun c => is_digit c = true) (py_str n) /\ py_str n <> [].
Proof.
  intros Hn. unfold py_str. destruct n as [|p|p]; [| |lia].
  - apply (nilzero_digits Decimal.zero).
  - apply (nilzero_digits (Pos.to_uint p)).
Qed.

(** The zero-padded rendering of a value that is not negative. *)
Lemma format_zero_padded_nonneg (width v : Z) :
  0 <= width -> 0 <= v ->
  format_zero_padded width v
  = Ok (repeat zero_char (Z.to_nat width - length (py_str v)) ++ py_str v).
Proof.
  intros Hw Hv. unfold format_zero_padded.
  destruct (Z.ltb_spec width 0); [lia|].
  destruct (Z.ltb_spec v 0); [lia|].
  rewrite Z.abs_eq by assumption. simpl. now rewrite Nat.sub_0_r.
Qed.

Lemma format_zero_padded_negative_width (width v : Z) :
  width < 0 -> format_zero_padded width v = Raise (ValueError InvalidFormatSpec).
Proof.
  intros Hw. unfold format_zero_padded.
  destruct (Z.ltb_spec width 0); [reflexivity | lia].
Qed.

(** [s[-n:]] keeps the last [n] characters, or all of [s] when [n] is 0 or
    [s] is shorter. *)
Lemma slice_from_last (s : str) (n : Z) :
  0 <= n ->
  slice_from s (- n)
  = if n =? 0 then s else skipn (length s - Z.to_nat n) s.
Proof.
  intros Hn. unfold slice_from.
  destruct (Z.eqb_spec n 0) as [->|Hn0].
  - simpl. now replace (Z.to_nat (Z.min 0 (Z.of_nat (length s)))) with 0%nat by lia.
  - destruct (Z.ltb_spec (- n) 0); [|lia]. f_equal. lia.
Qed.

Lemma Forall_skipn {A} (P : A -> Prop) (n : nat) (l : list A) :
  Forall P l -> Forall P (skipn n l).
Proof.
  intros H. rewrite <- (firstn_skipn n l) in H.
  now apply Forall_app in H.
Qed.

Lemma Forall_repeat {A} (P : A -> Prop) (x : A) (n : nat) :
  P x -> Forall P (repeat x n).
Proof. intros H. induction n; simpl; constructor; auto. Qed.

(** ** The core algorithm *)

Lemma land_mask_range (x : Z) (n : Z) :
  0 <= n -> 0 <= Z.land x (Z.ones n) < 2 ^ n.
Proof.
  intros Hn. rewrite Z.land_ones by assumption.
  apply Z.mod_pos_bound. now apply Z.pow_pos_nonneg.
Qed.

Lemma bytes_to_31_bit_int_range (b : bytes) (v : Z) :
  bytes_to_31_bit_int b = Ok v -> 0 <= v < 2 ^ 31.
Proof.
  unfold bytes_to_31_bit_int. destruct (length b =? 4)%nat; [|discriminate].
  intros H. injection H as <-. apply (land_mask_range _ 31). lia.
Qed.

Lemma bytes_to_31_bit_int_four (b : bytes) :
  length b = 4%nat -> exists v, bytes_to_31_bit_int b = Ok v.
Proof.
  intros H. unfold bytes_to_31_bit_int. rewrite H. simpl. eauto.
Qed.

Lemma last_byte_nonempty (h : bytes) :
  (0 < length h)%nat -> exists b, last_byte h = Ok b.
Proof.
  intros H. unfold last_byte. destruct (rev h) eqn:E; [|eauto].
  apply (f_equal (@length Z)) in E. rewrite length_rev in E. simpl in E. lia.
Qed.

Lemma hmac_digest_length (key msg : bytes) (algorithm : digestmod) :
  supported algorithm -> (20 <= length (hmac_digest key msg algorithm))%nat.
Proof. intros H. unfold hmac_digest. apply H. Qed.

(** [_get_otp] renders [truncated_value]. *)
Lemma get_otp_truncated (secret : bytes) (c n_digits : Z)
    (algorithm : digestmod) :
  _get_otp secret c n_digits algorithm
  = (as_int <- truncated_value secret c algorithm ;;
     padded <- format_zero_padded n_digits as_int ;;
     Ok (slice_from padded (- n_digits))).
Proof.
  unfold _get_otp, truncated_value.
  destruct (64 <? bit_length c); [reflexivity|].
  destruct (int_to_bytearray c) as [cb|]; [|reflexivity]. cbn [rbind].
  destruct (last_byte _) as [l|]; reflexivity.
Qed.

(** What [_get_otp] returns when it returns: the rendering of a 31-bit
    value. *)
Lemma get_otp_inversion (secret : bytes) (c n_digits : Z)
    (algorithm : digestmod) (code : str) :
  _get_otp secret c n_digits algorithm = Ok code ->
  exists v, truncated_value secret c algorithm = Ok v
    /\ 0 <= v < 2 ^ 31 /\ 0 <= n_digits /\ Z.abs c < 2 ^ 64
    /\ code = slice_from
                (repeat zero_char (Z.to_nat n_digits - length (py_str v))
                   ++ py_str v) (- n_digits).
Proof.
  rewrite get_otp_truncated.
  destruct (truncated_value secret c algorithm) as [v|] eqn:T;
    cbn [rbind]; [|discriminate].
  assert (Hv : 0 <= v < 2 ^ 31 /\ Z.abs c < 2 ^ 64).
  { unfold truncated_value in T.
    destruct (64 <? bit_length c) eqn:G; [discriminate|].
    apply bit_length_fits in G.
    destruct (int_to_bytearray c) as [cb|]; cbn [rbind] in T; [|discriminate].
    destruct (last_byte _) as [l|]; cbn [rbind] in T; [|discriminate].
    apply bytes_to_31_bit_int_range in T. auto. }
  destruct Hv as [Hv Hc].
  destruct (Z_lt_le_dec n_digits 0) as [Hn|Hn].
  - rewrite format_zero_padded_negative_width by assumption. discriminate.
  - rewrite format_zero_padded_nonneg by lia. cbn [rbind].
    intros H. injection H as <-. exists v. auto.
Qed.

(** [_get_otp] returns for a counter of the unsigned 64-bit range, a digit
    count that is not negative and a supported hash. *)
Lemma get_otp_returns (secret : bytes) (c n_digits : Z)
    (algorithm : digestmod) :
  supported algorithm -> 0 <= c < 2 ^ 64 -> 0 <= n_digits ->
  exists code, _get_otp secret c n_digits algorithm = Ok code.
Proof.
  intros Hs Hc Hn. unfold _get_otp.
  assert (G : (64 <? bit_length c) = false) by (apply bit_length_fits; lia).
  rewrite G. unfold int_to_bytearray. rewrite G. cbn [rbind].
  set (hashed := hmac_digest secret (be_bytes 8 c) algorithm).
  assert (Hlen : (20 <= length hashed)%nat) by now apply hmac_digest_length.
  destruct (last_byte_nonempty hashed) as [l ->]; [lia|]. cbn [rbind].
  pose proof (land_mask_range l 4 ltac:(lia)) as Hidx.
  change (Z.ones 4) with 15 in Hidx. change (2 ^ 4) with 16 in Hidx.
  destruct (bytes_to_31_bit_int_four
              (firstn 4 (skipn (Z.to_nat (Z.land l 15)) hashed)))
    as [v Hv].
  { rewrite length_firstn, length_skipn. lia. }
  rewrite Hv. cbn [rbind]. apply bytes_to_31_bit_int_range in Hv.
  rewrite format_zero_padded_nonneg by lia. cbn [rbind]. eauto.
Qed.

(** The shape of a rendering: decimal digits only, never empty, exactly
    [n_digits] characters when [n_digits] is positive; zeros on the left of
    a short value, the last [n_digits] characters of a long one. *)
Lemma rendering_shape (n_digits v : Z) :
  0 <= n_digits -> 0 <= v ->
  let d := py_str v in
  let code := slice_from (repeat zero_char (Z.to_nat n_digits - length d) ++ d)
                         (- n_digits) in
  Forall (fun c => is_digit c = true) code
  /\ code <> []
  /\ (0 < n_digits -> Z.of_nat (length code) = n_digits)
  /\ (0 < n_digits -> (length d <= Z.to_nat n_digits)%nat ->
      code = repeat zero_char (Z.to_nat n_digits - length d) ++ d)
  /\ (0 < n_digits -> (Z.to_nat n_digits <= length d)%nat ->
      code = skipn (length d - Z.to_nat n_digits) d).
Proof.
  intros Hn Hv d code.
  destruct (py_str_digits v Hv) as [Hd Hne]. fold d in Hd, Hne.
  assert (Hlen_d : (0 < length d)%nat).
  { destruct d; [contradiction | simpl; lia]. }
  set (padded := repeat zero_char (Z.to_nat n_digits - length d) ++ d) in *.
  assert (Hpad : Forall (fun c => is_digit c = true) padded).
  { apply Forall_app. split; [now apply Forall_repeat | assumption]. }
  assert (Hlen : length padded = Nat.max (Z.to_nat n_digits) (length d)).
  { unfold padded. rewrite length_app, repeat_length. lia. }
  assert (Hcode : code = if n_digits =? 0 then padded
                         else skipn (length padded - Z.to_nat n_digits) padded).
  { unfold code. now apply slice_from_last. }
  assert (Hcl : length code = if n_digits =? 0 then length padded
                              else Z.to_nat n_digits).
  { rewrite Hcode. destruct (n_digits =? 0) eqn:E; [reflexivity|].
    apply Z.eqb_neq in E. rewrite length_skipn. lia. }
  split; [|split; [|split; [|split]]].
  - rewrite Hcode. destruct (n_digits =? 0); [|apply Forall_skipn]; assumption.
  - intros E. rewrite E in Hcl. simpl in Hcl.
    destruct (n_digits =? 0) eqn:E0; [lia|]. apply Z.eqb_neq in E0. lia.
  - intros Hp. rewrite Hcl. destruct (Z.eqb_spec n_digits 0); lia.
  - intros Hp Hshort. rewrite Hcode. destruct (Z.eqb_spec n_digits 0); [lia|].
    replace (length padded - Z.to_nat n_digits)%nat with 0%nat by lia.
    reflexivity.
  - intros Hp Hlong. rewrite Hcode. destruct (Z.eqb_spec n_digits 0); [lia|].
    unfold padded.
    replace (Z.to_nat n_digits - length d)%nat with 0%nat by lia.
    reflexivity.
Qed.

(** A generated code is a non-empty string of decimal digits. *)
Lemma get_otp_digits (secret : bytes) (c n_digits : Z)
    (algorithm : digestmod) (code : str) :
  _get_otp secret c n_digits algorithm = Ok code ->
  Forall (fun c => is_digit c = true) code /\ code <> [].
Proof.
  intros H. apply get_otp_inversion in H as (v & _ & Hv & Hn & _ & ->).
  destruct (rendering_shape n_digits v Hn ltac:(lia)) as (H1 & H2 & _).
  auto.
Qed.

(** ** The collaborator [hashlib.sha1] is supported *)

Lemma sha1_supported : supported SHA1.sha1.
Proof.
  intros msg. simpl. unfold SHA1.sha1_digest.
  destruct (fold_left _ _ _) as [[[[h0 h1] h2] h3] h4].
  rewrite !length_app. unfold be_bytes. rewrite !length_map, !length_rev.
  simpl. lia.
Qed.

(** ** [int(s, 10)] *)

Ltac by_ascii_cases :=
  intros [[] [] [] [] [] [] [] []]; vm_compute; intros; congruence.

Lemma digit_not_space : forall c, is_digit c = true -> is_space c = false.
Proof. by_ascii_cases. Qed.

Lemma digit_not_plus : forall c, is_digit c = true -> Ascii.eqb c "+" = false.
Proof. by_ascii_cases. Qed.

Lemma digit_not_minus : forall c, is_digit c = true -> Ascii.eqb c "-" = false.
Proof. by_ascii_cases. Qed.

Lemma lstrip_digits (s : str) :
  Forall (fun c => is_digit c = true) s -> lstrip s = s.
Proof.
  intros [|c r Hc _]; [reflexivity|]. simpl.
  now rewrite (digit_not_space c Hc).
Qed.

Lemma strip_digits (s : str) :
  Forall (fun c => is_digit c = true) s -> strip s = s.
Proof.
  intros H. unfold strip. rewrite (lstrip_digits s H).
  rewrite lstrip_digits by now apply Forall_rev.
  apply rev_involutive.
Qed.

Lemma parse_digits_digits (s : str) :
  Forall (fun c => is_digit c = true) s ->
  forall acc after_digit,
    s <> [] \/ after_digit = true ->
    exists z, parse_digits acc after_digit s = Some z.
Proof.
  induction 1 as [|c r Hc _ IH]; intros acc b Hb; simpl.
  - destruct Hb as [Hb| ->]; [contradiction | eauto].
  - rewrite Hc. apply IH. now right.
Qed.

(** A non-empty string of decimal digits is accepted. *)
Lemma py_int10_digits (s : str) :
  Forall (fun c => is_digit c = true) s -> s <> [] ->
  exists z, py_int10 s = Some z.
Proof.
  intros H Hne. unfold py_int10. rewrite (strip_digits s H).
  destruct s as [|c r]; [contradiction|].
  pose proof (Forall_inv H) as Hc. simpl in Hc.
  rewrite (digit_not_plus c Hc), (digit_not_minus c Hc).
  apply parse_digits_digits; [assumption | now left].
Qed.

Lemma lstrip_In (c : ascii) (s : str) :
  is_space c = false -> In c s -> In c (lstrip s).
Proof.
  intros Hc. induction s as [|x r IH]; simpl; [easy|].
  intros [->|Hin].
  - rewrite Hc. now left.
  - destruct (is_space x); [auto | now right].
Qed.

Lemma strip_In (c : ascii) (s : str) :
  is_space c = false -> In c s -> In c (strip s).
Proof.
  intros Hc Hin. unfold strip. apply -> in_rev.
  apply lstrip_In; [assumption|]. apply -> in_rev.
  now apply lstrip_In.
Qed.

Lemma parse_digits_foreign (c : ascii) (s : str) :
  is_digit c = false -> Ascii.eqb c "_" = false -> In c s ->
  forall acc after_digit, parse_digits acc after_digit s = None.
Proof.
  intros Hd Hu. induction s as [|x r IH]; simpl; [easy|].
  intros [->|Hin] acc b.
  - now rewrite Hd, Hu.
  - destruct (is_digit x); [auto|].
    destruct (Ascii.eqb x "_" && b); auto.
Qed.

Lemma foreign_char_spec (c : ascii) :
  foreign_char c = true ->
  is_digit c = false /\ is_space c = false /\ Ascii.eqb c "+" = false
  /\ Ascii.eqb c "-" = false /\ Ascii.eqb c "_" = false.
Proof.
  unfold foreign_char. rewrite negb_true_iff, !orb_false_iff. tauto.
Qed.

(** The empty string, and a string with a character that is no digit, white
    space, sign or underscore, are refused. *)
Lemma py_int10_foreign (s : str) :
  s = [] \/ (exists c, In c s /\ foreign_char c = true) -> unparsable s.
Proof.
  unfold unparsable. intros [->|(c & Hin & Hf)]; [reflexivity|].
  apply foreign_char_spec in Hf as (Hd & Hs & Hp & Hm & Hu).
  apply (strip_In c s Hs) in Hin. unfold py_int10.
  destruct (strip s) as [|x r]; [reflexivity|].
  destruct (Ascii.eqb x "+") eqn:Ex; [|destruct (Ascii.eqb x "-") eqn:Ey].
  - destruct Hin as [->|Hin]; [congruence|].
    now apply parse_digits_foreign with (c := c).
  - destruct Hin as [->|Hin]; [congruence|].
    now rewrite (parse_digits_foreign c r Hd Hu Hin).
  - now apply parse_digits_foreign with (c := c).
Qed.

(** ** [_compare] *)

Lemma compare_parsable (a b : str) :
  (exists z, py_int10 a = Some z) -> (exists z, py_int10 b = Some z) ->
  _compare a b = Ok (constant_time_compare a b).
Proof.
  intros [za Ha] [zb Hb]. unfold _compare, check_code. simpl.
  now rewrite Ha, Hb.
Qed.

Lemma compare_unparsable (a b : str) :
  unparsable a \/ unparsable b ->
  _compare a b = Raise (ValueError InvalidCodeFormat).
Proof.
  unfold unparsable, _compare, check_code. simpl. intros [H|H].
  - now rewrite H.
  - rewrite H. now destruct (py_int10 a).
Qed.

(** [_compare] never raises anything but its own error. *)
Lemma compare_cases (a b : str) :
  _compare a b = Ok (constant_time_compare a b)
  \/ (unparsable a \/ unparsable b)
     /\ _compare a b = Raise (ValueError InvalidCodeFormat).
Proof.
  destruct (py_int10 a) as [za|] eqn:Ha; [destruct (py_int10 b) as [zb|] eqn:Hb|].
  - left. apply compare_parsable; eauto.
  - right. split; [now right | apply compare_unparsable; now right].
  - right. split; [now left | apply compare_unparsable; now left].
Qed.

Lemma result_eq_true_dec (r : result bool) : {r = Ok true} + {r <> Ok true}.
Proof. destruct r as [[|]|e]; (now left) || (right; discriminate). Qed.

(** ** List comprehensions *)

Lemma mapM_lift {S A B} (f : A -> result B) (xs : list A) (s : S) :
  mapM (fun x => lift (f x)) xs s = (rmap f xs, s).
Proof.
  induction xs as [|x r IH]; [reflexivity|].
  simpl. unfold bind, lift at 1. destruct (f x) as [y|e]; [|reflexivity].
  rewrite IH. simpl. now destruct (rmap f r).
Qed.

Lemma rmap_Forall2 {A B} (f : A -> result B) (xs : list A) (ys : list B) :
  rmap f xs = Ok ys <-> Forall2 (fun x y => f x = Ok y) xs ys.
Proof.
  revert ys. induction xs as [|x r IH]; intros ys; simpl.
  - split; intros H; [injection H as <-; constructor | now inversion H].
  - destruct (f x) as [y|e] eqn:E; simpl.
    + destruct (rmap f r) as [zs|e]; simpl.
      * split; intros H.
        -- injection H as <-. constructor; [assumption | now apply IH].
        -- inversion H as [|? y' ? zs' Hy Hr]; subst.
           apply IH in Hr. congruence.
      * split; intros H; [discriminate|].
        inversion H as [|? y' ? zs' Hy Hr]; subst.
        apply IH in Hr. discriminate.
    + split; intros H; [discriminate|]. inversion H; congruence.
Qed.

Lemma rmap_returns {A B} (f : A -> result B) (xs : list A) :
  (forall x, In x xs -> exists y, f x = Ok y) -> exists ys, rmap f xs = Ok ys.
Proof.
  induction xs as [|x r IH]; intros H; simpl; [eauto|].
  destruct (H x (or_introl eq_refl)) as [y ->].
  destruct IH as [ys ->]; [intros; apply H; now right|]. simpl. eauto.
Qed.

Lemma rmap_raises {A B} (f : A -> result B) (xs : list A) (e : exn) :
  rmap f xs = Raise e -> exists x, In x xs /\ f x = Raise e.
Proof.
  induction xs as [|x r IH]; simpl; [discriminate|].
  destruct (f x) as [y|e'] eqn:E; simpl.
  - destruct (rmap f r) as [ys|e'']; simpl; [discriminate|].
    intros H. injection H as ->. destruct IH as (x' & Hin & Hx); eauto.
  - intros H. injection H as ->. eauto.
Qed.

Lemma Forall2_nth_error_l {A B} (R : A -> B -> Prop) xs ys :
  Forall2 R xs ys ->
  forall i x, nth_error xs i = Some x ->
              exists y, nth_error ys i = Some y /\ R x y.
Proof.
  induction 1 as [|x0 y0 xs ys H0 _ IH]; intros [|i] x; simpl; try discriminate.
  - intros H. injection H as <-. eauto.
  - apply IH.
Qed.

Lemma Forall2_nth_error_r {A B} (R : A -> B -> Prop) xs ys :
  Forall2 R xs ys ->
  forall i y, nth_error ys i = Some y ->
              exists x, nth_error xs i = Some x /\ R x y.
Proof.
  induction 1 as [|x0 y0 xs ys H0 _ IH]; intros [|i] y; simpl; try discriminate.
  - intros H. injection H as <-. eauto.
  - apply IH.
Qed.

(** ** [list.index(True)] *)

Lemma index_true_first (l : list bool) :
  forall i,
    nth_error l i = Some true ->
    (forall j, (j < i)%nat -> nth_error l j = Some false) ->
    index_true l = Ok i.
Proof.
  induction l as [|b r IH]; intros [|i] Hi Hbefore; simpl in *;
    try discriminate.
  - now injection Hi as ->.
  - pose proof (Hbefore 0%nat ltac:(lia)) as H0. simpl in H0.
    injection H0 as ->.
    rewrite (IH i Hi); [reflexivity|].
    intros j Hj. apply (Hbefore (S j)). lia.
Qed.

Lemma index_true_found (l : list bool) :
  forall i,
    index_true l = Ok i ->
    nth_error l i = Some true
    /\ forall j, (j < i)%nat -> nth_error l j = Some false.
Proof.
  induction l as [|b r IH]; intros i; simpl; [discriminate|].
  destruct b.
  - intros H. injection H as <-. split; [reflexivity | lia].
  - destruct (index_true r) as [k|e]; simpl; [|discriminate].
    intros H. injection H as <-. destruct (IH k eq_refl) as [H1 H2].
    split; [assumption|]. intros [|j] Hj; simpl; [reflexivity|].
    apply H2. lia.
Qed.

Lemma index_true_absent (l : list bool) (e : exn) :
  index_true l = Raise e -> e = ValueError NotInList.
Proof.
  induction l as [|b r IH]; simpl.
  - now intros H; injection H as <-.
  - destruct b; [discriminate|].
    destruct (index_true r) as [k|e']; simpl; [discriminate|].
    intros H. injection H as ->. now apply IH.
Qed.

Lemma index_true_all_false (l : list bool) :
  Forall (fun b => b = false) l -> index_true l = Raise (ValueError NotInList).
Proof.
  induction 1 as [|b r -> _ IH]; simpl; [reflexivity|]. now rewrite IH.
Qed.

(** ** [range] *)

Lemma nth_error_seq_in (len start i : nat) :
  (i < len)%nat -> nth_error (seq start len) i = Some (start + i)%nat.
Proof.
  revert start i. induction len as [|len IH]; intros start [|i] H; simpl;
    try lia.
  - now rewrite Nat.add_0_r.
  - rewrite IH by lia. f_equal. lia.
Qed.

Lemma nth_error_range (lo hi : Z) (i : nat) :
  lo + Z.of_nat i < hi -> nth_error (range lo hi) i = Some (lo + Z.of_nat i).
Proof.
  intros H. unfold range. rewrite nth_error_map.
  rewrite nth_error_seq_in by lia. reflexivity.
Qed.

Lemma length_range (lo hi : Z) : length (range lo hi) = Z.to_nat (hi - lo).
Proof. unfold range. now rewrite length_map, length_seq. Qed.

Lemma in_range (lo hi x : Z) : In x (range lo hi) <-> lo <= x < hi.
Proof.
  unfold range. rewrite in_map_iff. split.
  - intros (i & <- & Hi). apply in_seq in Hi. lia.
  - intros H. exists (Z.to_nat (x - lo)). split; [lia|].
    apply in_seq. lia.
Qed.

(** ** The HOTP engine *)

Lemma hotp_get_otp_explicit (c : Z) (auto_increment : bool)
    (self : HOTP.engine) :
  HOTP.get_otp (Some c) auto_increment self
  = (code_at (HOTP.base self) c, self).
Proof. reflexivity. Qed.

Lemma hotp_get_otp_current (auto_increment : bool) (self : HOTP.engine) :
  HOTP.get_otp None auto_increment self
  = (code_at (HOTP.base self) (HOTP.counter self),
     if auto_increment then with_counter self (HOTP.counter self + 1)
     else self).
Proof. now destruct auto_increment. Qed.

Lemma hotp_candidates (cs : list Z) (self : HOTP.engine) :
  mapM (fun c => HOTP.get_otp (Some c) true) cs self
  = (rmap (code_at (HOTP.base self)) cs, self).
Proof.
  induction cs as [|c r IH]; [reflexivity|].
  simpl. unfold bind at 1. rewrite hotp_get_otp_explicit.
  destruct (code_at (HOTP.base self) c) as [y|e]; [|reflexivity].
  unfold bind at 1. rewrite IH. simpl.
  now destruct (rmap (code_at (HOTP.base self)) r).
Qed.

(** [HOTP.compare] as a pure function of the engine it is called on. *)
Lemma hotp_compare_unfold (code : str) (look_ahead : Z)
    (self : HOTP.engine) :
  0 <= look_ahead ->
  HOTP.compare code look_ahead self
  = let counters := hotp_window (HOTP.counter self) look_ahead in
    match rmap (code_at (HOTP.base self)) counters with
    | Raise e => (Raise e, self)
    | Ok valid_codes =>
        match rmap (_compare code) valid_codes with
        | Raise e => (if is_ValueError e then Ok false else Raise e, self)
        | Ok is_valid =>
            match index_true is_valid with
            | Raise e => (if is_ValueError e then Ok false else Raise e, self)
            | Ok correct_idx =>
                match item counters correct_idx with
                | Raise e => (Raise e, self)
                | Ok c => (Ok true, with_counter self (c + 1))
                end
            end
        end
    end.
Proof.
  intros Hla. unfold HOTP.compare.
  destruct (Z.ltb_spec look_ahead 0); [lia|].
  unfold bind at 1. unfold get at 1. cbv zeta.
  fold (hotp_window (HOTP.counter self) look_ahead).
  unfold bind at 1. rewrite hotp_candidates.
  destruct (rmap (code_at (HOTP.base self)) _) as [valid_codes|e];
    [|reflexivity].
  unfold try_except_ValueError, bind at 1. rewrite mapM_lift.
  destruct (rmap (_compare code) valid_codes) as [is_valid|e].
  - unfold lift at 1.
    destruct (index_true is_valid) as [i|e].
    + unfold bind at 1, lift at 1.
      destruct (item _ i) as [c|e]; reflexivity.
    + now destruct (is_ValueError e).
  - now destruct (is_ValueError e).
Qed.

Lemma hotp_compare_negative (code : str) (look_ahead : Z)
    (self : HOTP.engine) :
  look_ahead < 0 ->
  HOTP.compare code look_ahead self = (Raise (ValueError InvalidArgument), self).
Proof.
  intros H. unfold HOTP.compare.
  destruct (Z.ltb_spec look_ahead 0); [reflexivity | lia].
Qed.

Lemma nth_error_hotp_window (c look_ahead : Z) (i : nat) :
  Z.of_nat i <= look_ahead ->
  nth_error (hotp_window c look_ahead) i = Some (c + Z.of_nat i).
Proof.
  intros H. unfold hotp_window. rewrite nth_error_map.
  rewrite nth_error_range by lia. reflexivity.
Qed.

Lemma nth_error_hotp_window_inv (c look_ahead : Z) (i : nat) (x : Z) :
  nth_error (hotp_window c look_ahead) i = Some x ->
  Z.of_nat i <= look_ahead /\ x = c + Z.of_nat i.
Proof.
  intros H.
  assert (Hi : (i < length (hotp_window c look_ahead))%nat).
  { apply nth_error_Some. congruence. }
  unfold hotp_window in Hi. rewrite length_map, length_range in Hi.
  assert (Hle : Z.of_nat i <= look_ahead) by lia.
  rewrite nth_error_hotp_window in H by assumption.
  split; [assumption | congruence].
Qed.

Lemma in_hotp_window (c look_ahead x : Z) :
  In x (hotp_window c look_ahead) <->
  exists i, 0 <= i <= look_ahead /\ x = c + i.
Proof.
  unfold hotp_window. rewrite in_map_iff. split.
  - intros (i & <- & Hi). apply in_range in Hi. exists i. lia.
  - intros (i & Hi & ->). exists i. split; [reflexivity|].
    apply in_range. lia.
Qed.

(** All comparisons of a parsable code against generated codes succeed. *)
Lemma compare_against_generated (b : OTPBase) (code : str)
    (cs : list Z) (vs : list str) :
  (exists z, py_int10 code = Some z) ->
  Forall2 (fun c v => code_at b c = Ok v) cs vs ->
  rmap (_compare code) vs = Ok (map (constant_time_compare code) vs).
Proof.
  intros Hcode. induction 1 as [|c v cs vs Hv _ IH]; [reflexivity|].
  simpl. rewrite compare_parsable, IH; [reflexivity | assumption |].
  apply get_otp_digits in Hv as [Hd Hne]. now apply py_int10_digits.
Qed.

(** No comparison of an unparsable code succeeds once a candidate exists. *)
Lemma compare_unparsable_any (code : str) (vs : list str) :
  unparsable code -> vs <> [] ->
  rmap (_compare code) vs = Raise (ValueError InvalidCodeFormat).
Proof.
  intros Hc Hne. destruct vs as [|v r]; [contradiction|].
  simpl. rewrite compare_unparsable by now left. reflexivity.
Qed.

(** A successful comparison means equal strings. *)
Lemma compare_true (a b : str) : _compare a b = Ok true -> a = b.
Proof.
  destruct (compare_cases a b) as [H|[_ H]]; rewrite H; [|discriminate].
  intros E. injection E as E. now apply constant_time_compare_eq.
Qed.

Lemma hotp_window_generated (b : OTPBase) (c look_ahead : Z) :
  (forall i, 0 <= i <= look_ahead -> exists v, code_at b (c + i) = Ok v) ->
  exists vs, rmap (code_at b) (hotp_window c look_ahead) = Ok vs.
Proof.
  intros H. apply rmap_returns. intros x Hx.
  apply in_hotp_window in Hx as (i & Hi & ->). now apply H.
Qed.

(** If [HOTP.compare] returns [True], the code is the candidate of the
    offset it resynchronised to, which lies in the window. *)
Lemma hotp_compare_true_inv (code : str) (look_ahead : Z)
    (self s' : HOTP.engine) :
  HOTP.compare code look_ahead self = (Ok true, s') ->
  exists i, 0 <= i <= look_ahead
    /\ code_at (HOTP.base self) (HOTP.counter self + i) = Ok code
    /\ s' = with_counter self (HOTP.counter self + i + 1).
Proof.
  destruct (Z_lt_le_dec look_ahead 0) as [Hneg|Hla].
  { rewrite hotp_compare_negative by assumption. discriminate. }
  rewrite hotp_compare_unfold by assumption. cbv zeta.
  destruct (rmap (code_at _) _) as [vs|e] eqn:Hvs; [|discriminate].
  apply rmap_Forall2 in Hvs.
  destruct (rmap (_compare code) vs) as [is_valid|e] eqn:Hcmp.
  2:{ destruct (is_ValueError e); discriminate. }
  apply rmap_Forall2 in Hcmp.
  destruct (index_true is_valid) as [k|e] eqn:Hidx.
  2:{ destruct (is_ValueError e); discriminate. }
  apply index_true_found in Hidx as [Hk _].
  destruct (Forall2_nth_error_r _ _ _ Hcmp k true Hk) as (v & Hv & Hcv).
  apply compare_true in Hcv. subst v.
  destruct (Forall2_nth_error_r _ _ _ Hvs k code Hv) as (x & Hx & Hgen).
  unfold item. rewrite Hx.
  apply nth_error_hotp_window_inv in Hx as [Hle ->].
  intros E. injection E as <-.
  exists (Z.of_nat k). split; [lia|]. split; [assumption | reflexivity].
Qed.

(** Whatever [HOTP.compare] does, it leaves the engine as it was unless it
    returns [True]. *)
Lemma hotp_compare_state (code : str) (look_ahead : Z)
    (self : HOTP.engine) :
  fst (HOTP.compare code look_ahead self) = Ok true
  \/ snd (HOTP.compare code look_ahead self) = self.
Proof.
  destruct (Z_lt_le_dec look_ahead 0) as [Hneg|Hla].
  { rewrite hotp_compare_negative by assumption. now right. }
  rewrite hotp_compare_unfold by assumption. cbv zeta.
  destruct (rmap (code_at _) _) as [vs|e]; [|now right].
  destruct (rmap (_compare code) vs) as [is_valid|e]; [|now right].
  destruct (index_true is_valid) as [k|e]; [|now right].
  destruct (item _ k) as [c|e]; [now left | now right].
Qed.

(** With a look-ahead that is not negative and a window whose candidates
    are all generated, [HOTP.compare] returns a boolean. *)
Lemma hotp_compare_returns (code : str) (look_ahead : Z)
    (self : HOTP.engine) :
  0 <= look_ahead ->
  (forall i, 0 <= i <= look_ahead ->
             exists v, code_at (HOTP.base self) (HOTP.counter self + i) = Ok v) ->
  exists b, fst (HOTP.compare code look_ahead self) = Ok b.
Proof.
  intros Hla Hgen. rewrite hotp_compare_unfold by assumption. cbv zeta.
  destruct (hotp_window_generated _ _ _ Hgen) as [vs Hvs]. rewrite Hvs.
  apply rmap_Forall2 in Hvs.
  destruct (rmap (_compare code) vs) as [is_valid|e] eqn:Hcmp.
  - apply rmap_Forall2 in Hcmp.
    destruct (index_true is_valid) as [k|e] eqn:Hidx.
    + apply index_true_found in Hidx as [Hk _].
      destruct (Forall2_nth_error_r _ _ _ Hcmp k true Hk) as (v & Hv & _).
      destruct (Forall2_nth_error_r _ _ _ Hvs k v Hv) as (x & Hx & _).
      unfold item. rewrite Hx. simpl. eauto.
    + apply index_true_absent in Hidx as ->. simpl. eauto.
  - apply rmap_raises in Hcmp as (v & _ & Hv).
    destruct (compare_cases code v) as [H|[_ H]]; rewrite H in Hv;
      [discriminate|].
    injection Hv as <-. simpl. eauto.
Qed.

Lemma hotp_compare_no_match_false (code : str) (look_ahead : Z)
    (self : HOTP.engine) :
  0 <= look_ahead ->
  (forall i, 0 <= i <= look_ahead ->
             exists v, code_at (HOTP.base self) (HOTP.counter self + i) = Ok v) ->
  (forall i, 0 <= i <= look_ahead ->
             code_at (HOTP.base self) (HOTP.counter self + i) <> Ok code) ->
  HOTP.compare code look_ahead self = (Ok false, self).
Proof.
  intros Hla Hgen Hno.
  destruct (hotp_compare_returns code look_ahead self Hla Hgen) as [b Hb].
  pose proof (hotp_compare_state code look_ahead self) as Hst.
  destruct (HOTP.compare code look_ahead self) as [r s'] eqn:E.
  simpl in Hb, Hst. subst r. destruct b.
  - apply hotp_compare_true_inv in E as (i & Hi & Hc & _).
    now destruct (Hno i Hi).
  - destruct Hst as [Hst|Hst]; [discriminate | now subst s'].
Qed.

Lemma hotp_compare_first_match (code : str) (look_ahead i : Z)
    (self : HOTP.engine) :
  0 <= i <= look_ahead ->
  (forall j, 0 <= j <= look_ahead ->
             exists v, code_at (HOTP.base self) (HOTP.counter self + j) = Ok v) ->
  code_at (HOTP.base self) (HOTP.counter self + i) = Ok code ->
  (forall j, 0 <= j < i ->
             code_at (HOTP.base self) (HOTP.counter self + j) <> Ok code) ->
  HOTP.compare code look_ahead self
  = (Ok true, with_counter self (HOTP.counter self + i + 1)).
Proof.
  intros Hi Hgen Hcode Hfirst.
  rewrite hotp_compare_unfold by lia. cbv zeta.
  destruct (hotp_window_generated _ _ _ Hgen) as [vs Hvs]. rewrite Hvs.
  apply rmap_Forall2 in Hvs.
  assert (Hparse : exists z, py_int10 code = Some z).
  { apply get_otp_digits in Hcode as [Hd Hne]. now apply py_int10_digits. }
  rewrite (compare_against_generated _ _ _ _ Hparse Hvs).
  assert (Hnth : forall k, Z.of_nat k <= look_ahead ->
            exists v, nth_error vs k = Some v
              /\ code_at (HOTP.base self) (HOTP.counter self + Z.of_nat k) = Ok v).
  { intros k Hk.
    apply (Forall2_nth_error_l _ _ _ Hvs k).
    now apply nth_error_hotp_window. }
  rewrite (index_true_first _ (Z.to_nat i)).
  - unfold item. rewrite nth_error_hotp_window by lia.
    do 2 f_equal. lia.
  - rewrite nth_error_map.
    destruct (Hnth (Z.to_nat i) ltac:(lia)) as (v & -> & Hv).
    rewrite Z2Nat.id in Hv by lia. rewrite Hcode in Hv. injection Hv as <-.
    simpl. now rewrite constant_time_compare_refl.
  - intros j Hj. rewrite nth_error_map.
    destruct (Hnth j ltac:(lia)) as (v & -> & Hv). simpl. f_equal.
    apply constant_time_compare_neq. intros <-.
    apply (Hfirst (Z.of_nat j)); [lia | assumption].
Qed.

(** [HOTP.compare] generates the whole window first: when a candidate is
    not generated it raises, and leaves the engine as it was. *)
Lemma hotp_compare_not_generated (code : str) (look_ahead : Z)
    (self : HOTP.engine) :
  0 <= look_ahead ->
  (exists j, 0 <= j <= look_ahead
             /\ forall v, code_at (HOTP.base self) (HOTP.counter self + j)
                          <> Ok v) ->
  exists e, HOTP.compare code look_ahead self = (Raise e, self).
Proof.
  intros Hla (j & Hj & Hfail).
  rewrite hotp_compare_unfold by assumption. cbv zeta.
  destruct (rmap (code_at _) _) as [vs|e] eqn:Hvs; [|now exists e].
  exfalso. apply rmap_Forall2 in Hvs.
  destruct (Forall2_nth_error_l _ _ _ Hvs (Z.to_nat j)
              (HOTP.counter self + j)) as (v & _ & Hv).
  { rewrite nth_error_hotp_window by lia. f_equal. lia. }
  now apply (Hfail v).
Qed.

(** C2.  When the submitted code is none of the candidates for counters
    [current .. current + look_ahead], [HOTP.compare] leaves the engine as
    it was and does not return [True]; and it returns [False] whenever it
    gets to compare, that is when the look-ahead is not negative and the
    candidates of the window are generated. *)
Theorem hotp_compare_no_match (self : HOTP.engine) (code : str)
    (look_ahead : Z) :
  (forall i, 0 <= i <= look_ahead ->
             code_at (HOTP.base self) (HOTP.counter self + i) <> Ok code) ->
  snd (HOTP.compare code look_ahead self) = self
  /\ fst (HOTP.compare code look_ahead self) <> Ok true
  /\ (0 <= look_ahead ->
      (forall i, 0 <= i <= look_ahead ->
         exists v, code_at (HOTP.base self) (HOTP.counter self + i) = Ok v) ->
      HOTP.compare code look_ahead self = (Ok false, self)).
Proof.
  intros Hno.
  assert (Hnot : fst (HOTP.compare code look_ahead self) <> Ok true).
  { destruct (HOTP.compare code look_ahead self) as [r s'] eqn:E. simpl.
    intros ->. apply hotp_compare_true_inv in E as (i & Hi & Hc & _).
    now destruct (Hno i Hi). }
  split; [|split; [assumption|]].
  - now destruct (hotp_compare_state code look_ahead self).
  - intros Hla Hgen. now apply hotp_compare_no_match_false.
Qed.

Lemma rfc_window_generated (c look_ahead : Z) :
  0 <= c -> c + look_ahead < 2 ^ 64 ->
  forall i, 0 <= i <= look_ahead ->
            exists v, code_at (rfc_base 6) (c + i) = Ok v.
Proof.
  intros Hc Hb i Hi. unfold code_at.
  apply get_otp_returns; [apply sha1_supported | lia | simpl; lia].
Qed.

Lemma hotp_compare_no_match_witness :
  HOTP.compare (lit "520489") 2 (rfc_hotp 0) = (Ok false, rfc_hotp 0).
Proof.
  apply (hotp_compare_no_match (rfc_hotp 0) (lit "520489") 2).
  - intros i Hi.
    assert (E : i = 0 \/ i = 1 \/ i = 2) by lia.
    destruct E as [->|[->| ->]]; vm_compute; discriminate.
  - lia.
  - apply (rfc_window_generated 0 2); lia.
Defined.

(** C3 (amended).  The look-ahead is not negative and the submitted code
    is the candidate at offset [i] and at no smaller offset.  When the
    candidates of the whole window [current .. current + look_ahead] are
    generated, [HOTP.compare] returns [True] and sets the stored counter to
    [current + i + 1].  When one of them is not generated, [HOTP.compare]
    raises and leaves the engine as it was. *)
Theorem hotp_compare_resync (self : HOTP.engine) (code : str)
    (look_ahead i : Z) :
  0 <= i <= look_ahead ->
  code_at (HOTP.base self) (HOTP.counter self + i) = Ok code ->
  (forall j, 0 <= j < i ->
             code_at (HOTP.base self) (HOTP.counter self + j) <> Ok code) ->
  ((forall j, 0 <= j <= look_ahead ->
      exists v, code_at (HOTP.base self) (HOTP.counter self + j) = Ok v) ->
   HOTP.compare code look_ahead self
   = (Ok true, with_counter self (HOTP.counter self + i + 1))
   /\ HOTP.counter (snd (HOTP.compare code look_ahead self))
      = HOTP.counter self + i + 1)
  /\ ((exists j, 0 <= j <= look_ahead
                 /\ forall v, code_at (HOTP.base self) (HOTP.counter self + j)
                              <> Ok v) ->
      exists e, HOTP.compare code look_ahead self = (Raise e, self)).
Proof.
  intros Hi Hcode Hfirst. split.
  - intros Hgen.
    rewrite (hotp_compare_first_match code look_ahead i self) by assumption.
    split; reflexivity.
  - apply hotp_compare_not_generated. lia.
Qed.

Lemma hotp_compare_resync_witness :
  (HOTP.compare (lit "359152") 2 (rfc_hotp 0) = (Ok true, rfc_hotp 3)
   /\ HOTP.counter (snd (HOTP.compare (lit "359152") 2 (rfc_hotp 0))) = 3)
  /\ exists e, HOTP.compare (lit "094451") 2 (rfc_hotp (2 ^ 64 - 1))
               = (Raise e, rfc_hotp (2 ^ 64 - 1)).
Proof.
  split.
  - apply (hotp_compare_resync (rfc_hotp 0) (lit "359152") 2 2).
    + lia.
    + vm_compute. reflexivity.
    + intros j Hj.
      assert (E : j = 0 \/ j = 1) by lia.
      destruct E as [->| ->]; vm_compute; discriminate.
    + apply (rfc_window_generated 0 2); lia.
  - apply (hotp_compare_resync (rfc_hotp (2 ^ 64 - 1)) (lit "094451") 2 0).
    + lia.
    + vm_compute. reflexivity.
    + intros j Hj. lia.
    + exists 1. split; [lia|]. intros v. vm_compute. discriminate.
Defined.

(** C3 as stated fails at the end of the range of the counter: [compare]
    generates every candidate of the window before it compares.  On an
    engine whose counter is [2^64 - 1] the code ["094451"] is the candidate
    at offset 0, and the candidate at offset 1 is refused by [_get_otp]:
    [compare] raises and leaves the counter where it was. *)
Lemma hotp_compare_resync_window_overflow :
  let self := rfc_hotp (2 ^ 64 - 1) in
  code_at (HOTP.base self) (HOTP.counter self + 0) = Ok (lit "094451")
  /\ fst (HOTP.compare (lit "094451") 2 self)
     = Raise (ValueError InvalidCounter)
  /\ HOTP.counter (snd (HOTP.compare (lit "094451") 2 self)) = 2 ^ 64 - 1
  /\ HOTP.counter (snd (HOTP.compare (lit "094451") 2 self))
     <> HOTP.counter self + 0 + 1.
Proof.
  cbv zeta. split; [|split; [|split]].
  - vm_compute. reflexivity.
  - vm_compute. reflexivity.
  - vm_compute. reflexivity.
  - vm_compute. discriminate.
Qed.

(** C1 (amended).  [get_otp()] returns the code of the stored counter [c]
    and advances the engine to [c + 1].  That code is accepted by [compare]
    on an engine whose stored counter is [c]: the same engine when the code
    was taken with [auto_increment=False], or a verifier built with the same
    parameters; [compare] leaves that counter at [c + 1].  On the same
    engine after the default auto-increment [compare] looks at
    [c + 1 .. c + 3], and can not both return [True] and leave the counter
    at [c + 1]. *)
Theorem hotp_roundtrip (self : HOTP.engine) :
  let c := HOTP.counter self in
  (forall i, 0 <= i <= 2 ->
             exists v, code_at (HOTP.base self) (c + i) = Ok v) ->
  exists code,
    HOTP.get_otp None true self = (Ok code, with_counter self (c + 1))
    /\ HOTP.compare code 2 self = (Ok true, with_counter self (c + 1))
    /\ roundtrip false self = (Ok true, with_counter self (c + 1))
    /\ forall s, roundtrip true self <> (Ok true, s)
                 \/ HOTP.counter s <> c + 1.
Proof.
  intros c Hgen. subst c.
  destruct (Hgen 0 ltac:(lia)) as [code Hcode].
  assert (Hc : code_at (HOTP.base self) (HOTP.counter self) = Ok code).
  { now rewrite Z.add_0_r in Hcode. }
  assert (Hcmp : HOTP.compare code 2 self
                 = (Ok true, with_counter self (HOTP.counter self + 1))).
  { rewrite (hotp_compare_first_match code 2 0 self);
      [now rewrite Z.add_0_r | lia | assumption | | lia].
    now rewrite Z.add_0_r. }
  exists code. split; [|split; [|split]].
  - rewrite hotp_get_otp_current. now rewrite Hc.
  - assumption.
  - unfold roundtrip, bind. rewrite hotp_get_otp_current, Hc. assumption.
  - intros s. unfold roundtrip, bind. rewrite hotp_get_otp_current, Hc.
    destruct (HOTP.compare code 2 (with_counter self (HOTP.counter self + 1)))
      as [r s'] eqn:E.
    destruct (result_eq_true_dec r) as [->|Hr].
    + apply hotp_compare_true_inv in E as (i & Hi & _ & ->).
      destruct (Z.eq_dec (HOTP.counter s) (HOTP.counter self + 1))
        as [Hs|Hs]; [|now right].
      left. intros H. injection H as <-. simpl in Hs. lia.
    + left. congruence.
Qed.

Lemma hotp_roundtrip_witness :
  exists code,
    HOTP.get_otp None true (rfc_hotp 0) = (Ok code, rfc_hotp 1)
    /\ HOTP.compare code 2 (rfc_hotp 0) = (Ok true, rfc_hotp 1)
    /\ roundtrip false (rfc_hotp 0) = (Ok true, rfc_hotp 1)
    /\ forall s, roundtrip true (rfc_hotp 0) <> (Ok true, s)
                 \/ HOTP.counter s <> 0 + 1.
Proof.
  apply (hotp_roundtrip (rfc_hotp 0)).
  apply (rfc_window_generated 0 2); lia.
Defined.

(** C1 as stated fails on the engine of the RFC 4226 vectors:
    [compare(get_otp())] returns [False], the counter being 1. *)
Lemma hotp_roundtrip_auto_increment_fails :
  fst (roundtrip true (rfc_hotp 0)) = Ok false
  /\ HOTP.counter (snd (roundtrip true (rfc_hotp 0))) = 1
  /\ ~ (exists s, roundtrip true (rfc_hotp 0) = (Ok true, s)
                  /\ HOTP.counter s = 0 + 1).
Proof.
  assert (E : fst (roundtrip true (rfc_hotp 0)) = Ok false)
    by (vm_compute; reflexivity).
  split; [exact E|]. split; [vm_compute; reflexivity|].
  intros (s & H & _). rewrite H in E. discriminate E.
Qed.

(** C4 (amended).  [HOTP.compare] that ends with an error, and [get_otp]
    with an explicit counter or with [auto_increment=False] whatever its
    end, leave the engine as it was.  [get_otp()] with no counter and
    [auto_increment=True] increments the stored counter before it generates
    the code: whatever its end, error included, the counter is advanced by
    one. *)
Theorem hotp_error_atomicity (self : HOTP.engine) :
  (forall code look_ahead e s',
      HOTP.compare code look_ahead self = (Raise e, s') -> s' = self)
  /\ (forall c auto_increment r s',
         HOTP.get_otp (Some c) auto_increment self = (r, s') -> s' = self)
  /\ (forall r s', HOTP.get_otp None false self = (r, s') -> s' = self)
  /\ (forall r s',
         HOTP.get_otp None true self = (r, s') ->
         s' = with_counter self (HOTP.counter self + 1)).
Proof.
  split; [|split; [|split]].
  - intros code la e s' H.
    destruct (hotp_compare_state code la self) as [Hs|Hs];
      rewrite H in Hs; simpl in Hs; [discriminate | assumption].
  - intros c ai r s'. rewrite hotp_get_otp_explicit. congruence.
  - intros r s'. rewrite hotp_get_otp_current. congruence.
  - intros r s'. rewrite hotp_get_otp_current. congruence.
Qed.

Lemma hotp_error_atomicity_witness :
  snd (HOTP.compare (lit "755224") (-1) (rfc_hotp 0)) = rfc_hotp 0
  /\ snd (HOTP.get_otp (Some (2 ^ 64)) true (rfc_hotp 0)) = rfc_hotp 0
  /\ snd (HOTP.get_otp None false (rfc_hotp (2 ^ 64))) = rfc_hotp (2 ^ 64)
  /\ snd (HOTP.get_otp None true (rfc_hotp (2 ^ 64)))
     = rfc_hotp (2 ^ 64 + 1).
Proof.
  split; [|split; [|split]].
  - destruct (hotp_error_atomicity (rfc_hotp 0)) as (H & _).
    apply (H (lit "755224") (-1) (ValueError InvalidArgument)).
    reflexivity.
  - destruct (hotp_error_atomicity (rfc_hotp 0)) as (_ & H & _).
    apply (H (2 ^ 64) true (Raise (ValueError InvalidCounter))).
    reflexivity.
  - destruct (hotp_error_atomicity (rfc_hotp (2 ^ 64))) as (_ & _ & H & _).
    apply (H (Raise (ValueError InvalidCounter))). reflexivity.
  - destruct (hotp_error_atomicity (rfc_hotp (2 ^ 64))) as (_ & _ & _ & H).
    apply (H (Raise (ValueError InvalidCounter))). reflexivity.
Defined.

(** C4 as stated fails: an engine built with counter [2^64 - 1] returns a
    code from its first [get_otp()]; the second raises, and has moved the
    stored counter from [2^64] to [2^64 + 1]. *)
Lemma hotp_get_otp_error_advances_counter :
  let s1 := snd (HOTP.get_otp None true (rfc_hotp (2 ^ 64 - 1))) in
  (exists code, fst (HOTP.get_otp None true (rfc_hotp (2 ^ 64 - 1))) = Ok code)
  /\ HOTP.counter s1 = 2 ^ 64
  /\ fst (HOTP.get_otp None true s1) = Raise (ValueError InvalidCounter)
  /\ HOTP.counter (snd (HOTP.get_otp None true s1)) = 2 ^ 64 + 1
  /\ HOTP.counter (snd (HOTP.get_otp None true s1)) <> HOTP.counter s1.
Proof.
  cbv zeta. split; [|split; [|split; [|split]]].
  - eexists. vm_compute. reflexivity.
  - vm_compute. reflexivity.
  - vm_compute. reflexivity.
  - vm_compute. reflexivity.
  - vm_compute. discriminate.
Qed.

(** ** The TOTP engine *)

Lemma Forall2_In_l {A B} (R : A -> B -> Prop) xs ys (x : A) :
  Forall2 R xs ys -> In x xs -> exists y, In y ys /\ R x y.
Proof.
  intros H Hin. apply In_nth_error in Hin as [n Hn].
  destruct (Forall2_nth_error_l R xs ys H n x Hn) as (y & Hy & HR).
  exists y. split; [now apply nth_error_In with n | assumption].
Qed.

Lemma Forall2_In_r {A B} (R : A -> B -> Prop) xs ys (y : B) :
  Forall2 R xs ys -> In y ys -> exists x, In x xs /\ R x y.
Proof.
  intros H Hin. apply In_nth_error in Hin as [n Hn].
  destruct (Forall2_nth_error_r R xs ys H n y Hn) as (x & Hx & HR).
  exists x. split; [now apply nth_error_In with n | assumption].
Qed.

Lemma rmap_ext {A B} (f g : A -> result B) (xs : list A) :
  (forall x, In x xs -> f x = g x) -> rmap f xs = rmap g xs.
Proof.
  induction xs as [|x r IH]; intros H; [reflexivity|]. simpl.
  rewrite (H x (or_introl eq_refl)), IH; [reflexivity|].
  intros; apply H; now right.
Qed.

Lemma rmap_map {A B C} (f : B -> result C) (g : A -> B) (xs : list A) :
  rmap f (map g xs) = rmap (fun x => f (g x)) xs.
Proof.
  induction xs as [|x r IH]; [reflexivity|]. simpl. now rewrite IH.
Qed.

(** [(now + i * period) // period] is the current step plus [i]. *)
Lemma floordiv_shift (now period i : Z) :
  period <> 0 ->
  TOTP.floordiv (now + i * period) period = Ok (now / period + i).
Proof.
  intros Hp. unfold TOTP.floordiv.
  destruct (Z.eqb_spec period 0); [contradiction|].
  now rewrite Z.div_add.
Qed.

(** [get_otp] with a timestamp reads no clock: it is [_get_otp] for the
    counter [int(timestamp) // period]. *)
Lemma totp_get_otp_explicit (self : TOTP.engine) (t : number) (reads : nat) :
  TOTP.get_otp self (Some t) reads
  = (seconds <- py_int t ;;
     step <- TOTP.floordiv seconds (TOTP._period self) ;;
     code_at (TOTP.base self) step,
     reads).
Proof.
  unfold TOTP.get_otp, bind, ret, lift.
  destruct (py_int t) as [seconds|e]; [|reflexivity]. cbn [rbind].
  now destruct (TOTP.floordiv seconds (TOTP._period self)).
Qed.

Lemma candidate_unfold (self : TOTP.engine) (timestamp : number) (i : Z) :
  candidate self timestamp i
  = (t <- add_int timestamp (i * TOTP._period self) ;;
     seconds <- py_int t ;;
     step <- TOTP.floordiv seconds (TOTP._period self) ;;
     code_at (TOTP.base self) step).
Proof.
  unfold candidate, bind, lift.
  destruct (add_int _ _) as [t|e]; [|reflexivity].
  now rewrite totp_get_otp_explicit.
Qed.

Lemma totp_candidate_call (self : TOTP.engine) (timestamp : number) (i : Z)
    (reads : nat) :
  bind (lift (add_int timestamp (i * TOTP._period self)))
       (fun t => TOTP.get_otp self (Some t)) reads
  = (candidate self timestamp i, reads).
Proof.
  unfold candidate, bind, lift.
  destruct (add_int _ _) as [t|e]; [|reflexivity].
  now rewrite !totp_get_otp_explicit.
Qed.

Lemma totp_candidates (self : TOTP.engine) (timestamp : number)
    (offsets : list Z) (reads : nat) :
  mapM (fun i => bind (lift (add_int timestamp (i * TOTP._period self)))
                      (fun t => TOTP.get_otp self (Some t))) offsets reads
  = (rmap (candidate self timestamp) offsets, reads).
Proof.
  induction offsets as [|i r IH]; [reflexivity|].
  cbn [mapM rmap]. unfold bind at 1. rewrite totp_candidate_call.
  destruct (candidate self timestamp i) as [y|e]; [|reflexivity].
  unfold bind at 1. rewrite IH. cbn [rbind].
  now destruct (rmap _ r).
Qed.

(** For an int reading the candidate of offset [i] is the code of the step
    [now // period + i]. *)
Lemma candidate_int (self : TOTP.engine) (now i : Z) :
  TOTP._period self <> 0 ->
  candidate self (Int now) i
  = code_at (TOTP.base self) (now / TOTP._period self + i).
Proof.
  intros Hp. rewrite candidate_unfold. cbn [add_int rbind py_int].
  now rewrite floordiv_shift.
Qed.

(** A candidate is the code of some step. *)
Lemma candidate_inv (self : TOTP.engine) (timestamp : number) (i : Z)
    (code : str) :
  candidate self timestamp i = Ok code ->
  exists step, code_at (TOTP.base self) step = Ok code.
Proof.
  rewrite candidate_unfold.
  destruct (add_int _ _) as [t|e]; [|discriminate]. cbn [rbind].
  destruct (py_int t) as [seconds|e]; [|discriminate]. cbn [rbind].
  destruct (TOTP.floordiv _ _) as [step|e]; [|discriminate]. cbn [rbind].
  eauto.
Qed.

Lemma candidates_generated (self : TOTP.engine) (timestamp : number)
    (offsets : list Z) (vs : list str) :
  Forall2 (fun i v => candidate self timestamp i = Ok v) offsets vs ->
  exists steps,
    Forall2 (fun c v => code_at (TOTP.base self) c = Ok v) steps vs.
Proof.
  induction 1 as [|i v offsets vs Hv _ [steps IH]].
  - exists []. constructor.
  - apply candidate_inv in Hv as [step Hstep].
    exists (step :: steps). now constructor.
Qed.

Lemma totp_compare_negative (self : TOTP.engine) (code : str) (k : Z)
    (reads : nat) :
  k < 0 ->
  TOTP.compare self code k reads = (Raise (ValueError InvalidArgument), reads).
Proof.
  intros H. unfold TOTP.compare.
  destruct (Z.ltb_spec k 0); [reflexivity | lia].
Qed.

(** [TOTP.compare] as a pure function of the one reading of the clock. *)
Lemma totp_compare_pure (self : TOTP.engine) (code : str) (k : Z)
    (reads : nat) :
  0 <= k ->
  TOTP.compare self code k reads
  = (valid_codes <- rmap (candidate self (TOTP._current_timestamp self reads))
                      (range (- k) (k + 1)) ;;
     results <- rmap (_compare code) valid_codes ;;
     Ok (existsb (fun b => b) results),
     S reads).
Proof.
  intros Hk. unfold TOTP.compare. destruct (Z.ltb_spec k 0); [lia|].
  unfold bind at 1, TOTP.read_clock at 1.
  unfold bind at 1. rewrite totp_candidates.
  destruct (rmap _ _) as [vs|e]; [|reflexivity].
  unfold bind at 1. rewrite mapM_lift. cbn [rbind].
  now destruct (rmap (_compare code) vs).
Qed.

(** [TOTP.compare] reads the clock exactly once when the window is not
    negative. *)
Lemma totp_compare_reads (self : TOTP.engine) (code : str) (k : Z)
    (reads : nat) :
  0 <= k -> snd (TOTP.compare self code k reads) = S reads.
Proof.
  intros Hk. now rewrite totp_compare_pure.
Qed.

(** With a window whose candidates are generated, [TOTP.compare] returns
    [True] exactly for the candidates, [False] for other parsable codes, and
    raises for unparsable ones. *)
Lemma totp_compare_result (self : TOTP.engine) (code : str) (k : Z)
    (reads : nat) :
  let timestamp := TOTP._current_timestamp self reads in
  0 <= k ->
  (forall i, - k <= i <= k -> exists v, candidate self timestamp i = Ok v) ->
  (fst (TOTP.compare self code k reads) = Ok true <->
   exists i, - k <= i <= k /\ candidate self timestamp i = Ok code)
  /\ (fst (TOTP.compare self code k reads) = Ok true
      \/ fst (TOTP.compare self code k reads) = Ok false
      \/ unparsable code
         /\ TOTP.compare self code k reads
            = (Raise (ValueError InvalidCodeFormat), S reads)).
Proof.
  intros timestamp Hk Hgen.
  rewrite totp_compare_pure by assumption. fold timestamp. cbn [fst].
  destruct (rmap_returns (candidate self timestamp) (range (- k) (k + 1)))
    as [vs Hvs].
  { intros i Hi. apply in_range in Hi. apply Hgen. lia. }
  rewrite Hvs. cbn [rbind].
  apply rmap_Forall2 in Hvs.
  assert (Hne : vs <> []).
  { intros ->. apply Forall2_length in Hvs.
    rewrite length_range in Hvs. simpl in Hvs. lia. }
  destruct (candidates_generated _ _ _ _ Hvs) as [steps Hsteps].
  destruct (py_int10 code) as [z|] eqn:Hparse.
  - rewrite (compare_against_generated _ _ _ _ (ex_intro _ z Hparse) Hsteps).
    cbn [rbind]. split.
    + split.
      * intros H. injection H as H. apply existsb_exists in H as (b & Hb & ->).
        apply in_map_iff in Hb as (v & Hv & Hin).
        apply constant_time_compare_eq in Hv. subst v.
        destruct (Forall2_In_r _ _ _ _ Hvs Hin) as (i & Hi & Hcode).
        apply in_range in Hi. exists i. split; [lia | assumption].
      * intros (i & Hi & Hcode). f_equal. apply existsb_exists.
        exists true. split; [|reflexivity].
        assert (Hx : In i (range (- k) (k + 1))) by (apply in_range; lia).
        destruct (Forall2_In_l _ _ _ _ Hvs Hx) as (v & Hin & Hv).
        rewrite Hcode in Hv. injection Hv as <-.
        apply in_map_iff. exists code.
        split; [apply constant_time_compare_refl | assumption].
    + destruct (existsb _ _); auto.
  - rewrite compare_unparsable_any by assumption. cbn [rbind]. split.
    + split; [discriminate|]. intros (i & _ & Hcode).
      apply candidate_inv in Hcode as [step Hcode].
      apply get_otp_digits in Hcode as [Hd Hn].
      destruct (py_int10_digits code Hd Hn) as [z Hz]. congruence.
    + right. right. split; [assumption | reflexivity].
Qed.

Lemma totp_compare_unparsable (self : TOTP.engine) (code : str) (k : Z)
    (reads : nat) :
  unparsable code -> 0 <= k ->
  (forall i, - k <= i <= k ->
     exists v, candidate self (TOTP._current_timestamp self reads) i = Ok v) ->
  TOTP.compare self code k reads
  = (Raise (ValueError InvalidCodeFormat), S reads).
Proof.
  intros Hcode Hk Hgen.
  destruct (totp_compare_result self code k reads Hk Hgen)
    as [Hiff [Ht|[Hf|[_ H]]]]; [| |assumption].
  - apply Hiff in Ht as (i & _ & Hc).
    apply candidate_inv in Hc as [step Hc].
    apply get_otp_digits in Hc as [Hd Hn].
    destruct (py_int10_digits code Hd Hn) as [z Hz].
    unfold unparsable in Hcode. congruence.
  - exfalso. rewrite totp_compare_pure in Hf by assumption. cbn [fst] in Hf.
    destruct (rmap (candidate self _) _) as [vs|e] eqn:Hvs; [|discriminate].
    cbn [rbind] in Hf.
    rewrite compare_unparsable_any in Hf; [discriminate | assumption|].
    intros ->. apply rmap_Forall2, Forall2_length in Hvs.
    rewrite length_range in Hvs. simpl in Hvs. lia.
Qed.

(** The candidates of an int reading are generated when the codes of the
    steps of the window are. *)
Lemma int_window_generated (self : TOTP.engine) (now k : Z) :
  TOTP._period self <> 0 ->
  (forall i, - k <= i <= k ->
     exists v, code_at (TOTP.base self) (now / TOTP._period self + i)
               = Ok v) ->
  forall i, - k <= i <= k -> exists v, candidate self (Int now) i = Ok v.
Proof.
  intros Hp Hgen i Hi. rewrite candidate_int by assumption. now apply Hgen.
Qed.

Lemma totp_compare_unparsable_int (self : TOTP.engine) (code : str)
    (k : Z) (reads : nat) (now : Z) :
  TOTP._current_timestamp self reads = Int now ->
  unparsable code -> 0 <= k -> TOTP._period self <> 0 ->
  (forall i, - k <= i <= k ->
     exists v, code_at (TOTP.base self) (now / TOTP._period self + i)
               = Ok v) ->
  TOTP.compare self code k reads
  = (Raise (ValueError InvalidCodeFormat), S reads).
Proof.
  intros Hnow Hcode Hk Hp Hgen.
  apply totp_compare_unparsable; [assumption | assumption|].
  rewrite Hnow. now apply int_window_generated.
Qed.

Lemma rfc_totp_window_generated (now k : Z) :
  0 <= now / 30 - k -> now / 30 + k < 2 ^ 64 ->
  forall i, - k <= i <= k ->
            exists v, code_at (rfc_base 6) (now / 30 + i) = Ok v.
Proof.
  intros Hlo Hhi i Hi. unfold code_at.
  apply get_otp_returns; [apply sha1_supported | lia | simpl; lia].
Qed.

(** C7 (amended).  For a window [k] that is not negative, [TOTP.compare]
    reads the time source once, and when the candidates of the window are
    generated it returns [True] exactly when the submitted code is the
    candidate [self.get_otp(timestamp + i * self._period)] of an offset [i]
    of [-k .. k].  For an int reading and a period that is not 0 these
    candidates are the codes of the steps [step - k .. step + k]; with
    [k = 1] the codes of [now - period] and [now + period] are accepted, and
    the code of [now - 2 * period] is rejected unless it is also the code of
    a step of the window. *)
Theorem totp_compare_symmetric_window (self : TOTP.engine) (reads : nat) :
  let timestamp := TOTP._current_timestamp self reads in
  let period := TOTP._period self in
  (forall code k, 0 <= k -> snd (TOTP.compare self code k reads) = S reads)
  /\ (forall code k,
        0 <= k ->
        (forall i, - k <= i <= k ->
                   exists v, candidate self timestamp i = Ok v) ->
        (fst (TOTP.compare self code k reads) = Ok true <->
         exists i, - k <= i <= k /\ candidate self timestamp i = Ok code))
  /\ (forall now,
        timestamp = Int now -> period <> 0 ->
        let step := now / period in
        (forall i, candidate self timestamp i
                   = code_at (TOTP.base self) (step + i))
        /\ (forall code k,
              0 <= k ->
              (forall i, - k <= i <= k ->
                         exists v, code_at (TOTP.base self) (step + i) = Ok v) ->
              (fst (TOTP.compare self code k reads) = Ok true <->
               exists i, - k <= i <= k
                         /\ code_at (TOTP.base self) (step + i) = Ok code))
        /\ ((forall i, - 1 <= i <= 1 ->
                       exists v, code_at (TOTP.base self) (step + i) = Ok v) ->
            forall code,
              (fst (TOTP.get_otp self (Some (Int (now - period))) reads)
               = Ok code ->
               fst (TOTP.compare self code 1 reads) = Ok true)
              /\ (fst (TOTP.get_otp self (Some (Int (now + period))) reads)
                  = Ok code ->
                  fst (TOTP.compare self code 1 reads) = Ok true)
              /\ (fst (TOTP.get_otp self (Some (Int (now - 2 * period))) reads)
                  = Ok code ->
                  (forall i, - 1 <= i <= 1 ->
                             code_at (TOTP.base self) (step + i) <> Ok code) ->
                  fst (TOTP.compare self code 1 reads) = Ok false))).
Proof.
  intros timestamp period.
  split; [|split].
  - intros code k Hk. now apply totp_compare_reads.
  - intros code k Hk Hgen.
    now apply (totp_compare_result self code k reads Hk Hgen).
  - intros now Hnow Hp step.
    assert (Hcand : forall i, candidate self timestamp i
                              = code_at (TOTP.base self) (step + i)).
    { intros i. rewrite Hnow. now apply candidate_int. }
    assert (Hiff : forall code k,
              0 <= k ->
              (forall i, - k <= i <= k ->
                         exists v, code_at (TOTP.base self) (step + i) = Ok v) ->
              (fst (TOTP.compare self code k reads) = Ok true <->
               exists i, - k <= i <= k
                         /\ code_at (TOTP.base self) (step + i) = Ok code)
              /\ (fst (TOTP.compare self code k reads) = Ok true
                  \/ fst (TOTP.compare self code k reads) = Ok false
                  \/ unparsable code)).
    { intros code k Hk Hgen.
      assert (Hgen' : forall i, - k <= i <= k ->
                exists v, candidate self timestamp i = Ok v).
      { intros i Hi. rewrite Hcand. now apply Hgen. }
      destruct (totp_compare_result self code k reads Hk Hgen')
        as [H Hcases].
      fold timestamp in H. split.
      - rewrite H. split; intros (i & Hi & Hc); exists i;
          (split; [assumption|]); [now rewrite <- Hcand | now rewrite Hcand].
      - destruct Hcases as [Ht|[Hf|[Hu _]]]; auto. }
    assert (Hshift : forall j code,
              fst (TOTP.get_otp self (Some (Int (now + j * period))) reads)
              = Ok code ->
              code_at (TOTP.base self) (step + j) = Ok code).
    { intros j code. rewrite totp_get_otp_explicit. cbn [fst py_int rbind].
      fold period. rewrite floordiv_shift by assumption. auto. }
    split; [assumption|]. split.
    + intros code k Hk Hgen. now apply (Hiff code k Hk Hgen).
    + intros Hgen code.
      destruct (Hiff code 1 ltac:(lia) Hgen) as [H Hcases].
      split; [|split].
      * intros Hc. apply H. exists (-1). split; [lia|].
        apply Hshift.
        now replace (now + -1 * period) with (now - period) by lia.
      * intros Hc. apply H. exists 1. split; [lia|].
        apply Hshift.
        now replace (now + 1 * period) with (now + period) by lia.
      * intros Hc Hno.
        replace (now - 2 * period) with (now + -2 * period) in Hc by lia.
        apply Hshift in Hc.
        destruct Hcases as [Ht|[Hf|Hu]]; [|assumption|].
        -- apply H in Ht as (i & Hi & Hci). now destruct (Hno i Hi).
        -- apply get_otp_digits in Hc as [Hd Hn].
           destruct (py_int10_digits code Hd Hn) as [z Hz].
           unfold unparsable in Hu. congruence.
Qed.

Lemma totp_compare_symmetric_window_witness :
  snd (TOTP.compare (rfc_totp 119) (lit "969429") 1 0%nat) = 1%nat
  /\ fst (TOTP.compare (rfc_totp 119) (lit "969429") 1 0%nat) = Ok true
  /\ fst (TOTP.compare (rfc_totp 119) (lit "359152") 1 0%nat) = Ok true
  /\ fst (TOTP.compare (rfc_totp 119) (lit "338314") 1 0%nat) = Ok true
  /\ fst (TOTP.compare (rfc_totp 119) (lit "287082") 1 0%nat) = Ok false
  /\ fst (TOTP.compare (rfc_totp_with 30 clock_2_60) (lit "977470") 1 0%nat)
     = Ok true.
Proof.
  assert (Hp : TOTP._period (rfc_totp 119) <> 0) by discriminate.
  assert (Hgen : forall i, - 1 <= i <= 1 ->
            exists v, code_at (rfc_base 6) (119 / 30 + i) = Ok v).
  { apply (rfc_totp_window_generated 119 1); vm_compute; easy. }
  destruct (totp_compare_symmetric_window (rfc_totp 119) 0%nat)
    as (Hreads & _ & Hint).
  destruct (Hint 119 eq_refl Hp) as (_ & Hiff & Hone).
  specialize (Hone Hgen).
  split; [|split; [|split; [|split; [|split]]]].
  - apply Hreads. lia.
  - apply (Hiff (lit "969429") 1 ltac:(lia) Hgen).
    exists 0. split; [lia | vm_compute; reflexivity].
  - destruct (Hone (lit "359152")) as (H & _).
    apply H. vm_compute. reflexivity.
  - destruct (Hone (lit "338314")) as (_ & H & _).
    apply H. vm_compute. reflexivity.
  - destruct (Hone (lit "287082")) as (_ & _ & H).
    apply H; [vm_compute; reflexivity|].
    intros i Hi.
    assert (E : i = -1 \/ i = 0 \/ i = 1) by lia.
    destruct E as [->|[->| ->]]; vm_compute; discriminate.
  - destruct (totp_compare_symmetric_window (rfc_totp_with 30 clock_2_60)
                0%nat) as (_ & Hany & _).
    apply (Hany (lit "977470") 1 ltac:(lia)).
    + intros i Hi.
      assert (E : i = -1 \/ i = 0 \/ i = 1) by lia.
      destruct E as [->|[->| ->]]; eexists; vm_compute; reflexivity.
    + exists 0. split; [lia | vm_compute; reflexivity].
Defined.

(** C7 as stated fails.  Two steps can have the same code: on the engine
    of the RFC vectors read at 1771837260, the code of [now - 2 * period] is
    also the code of [now - period], and [compare] accepts it with the
    window 1.  And the window of a float reading is not the steps around
    the current one: read at [2.0**60], where [now + period] and
    [now - period] round to [now], [compare] rejects the code of the next
    step, which is the code generated at [now + period]. *)
Lemma totp_compare_window_not_exact :
  let now := 1771837260 in
  let late := rfc_totp_with 30 clock_2_60 in
  fst (TOTP.get_otp (rfc_totp now) (Some (Int (now - 2 * 30))) 0%nat)
  = Ok (lit "963181")
  /\ fst (TOTP.compare (rfc_totp now) (lit "963181") 1 0%nat) = Ok true
  /\ fst (TOTP.get_otp late None 0%nat) = code_at (rfc_base 6) (2 ^ 60 / 30)
  /\ fst (TOTP.get_otp late (Some (Int (2 ^ 60 + 30))) 0%nat)
     = Ok (lit "640836")
  /\ code_at (rfc_base 6) (2 ^ 60 / 30 + 1) = Ok (lit "640836")
  /\ fst (TOTP.compare late (lit "640836") 1 0%nat) = Ok false.
Proof.
  cbv zeta.
  split; [|split; [|split; [|split; [|split]]]]; vm_compute; reflexivity.
Qed.

(** ** Code format *)

(** C5 (amended).  [_compare] fails with the invalid-code error exactly
    when [int(., 10)] refuses one of its inputs; it refuses the empty string
    and every string with a character other than a decimal digit, white
    space, a sign or an underscore.  Inputs [int] accepts are compared as
    they are.  [TOTP.compare] fails the same way for a submitted code that
    [int] refuses, once its window is not negative and its candidates are
    generated: for an int reading and a period that is not 0 the codes of
    the steps of the window, for any reading the calls
    [self.get_otp(timestamp + i * self._period)]. *)
Theorem compare_rejects_unparsable :
  (forall a b, unparsable a \/ unparsable b ->
               _compare a b = Raise (ValueError InvalidCodeFormat))
  /\ (forall a b, ~ unparsable a -> ~ unparsable b ->
                  _compare a b = Ok (constant_time_compare a b))
  /\ (forall s, s = [] \/ (exists c, In c s /\ foreign_char c = true) ->
                unparsable s)
  /\ (forall self code k reads now,
        TOTP._current_timestamp self reads = Int now ->
        unparsable code -> 0 <= k -> TOTP._period self <> 0 ->
        (forall i, - k <= i <= k ->
           exists v, code_at (TOTP.base self) (now / TOTP._period self + i)
                     = Ok v) ->
        TOTP.compare self code k reads
        = (Raise (ValueError InvalidCodeFormat), S reads))
  /\ (forall self code k reads,
        unparsable code -> 0 <= k ->
        (forall i, - k <= i <= k ->
           exists v, candidate self (TOTP._current_timestamp self reads) i
                     = Ok v) ->
        TOTP.compare self code k reads
        = (Raise (ValueError InvalidCodeFormat), S reads)).
Proof.
  split; [|split; [|split; [|split]]].
  - apply compare_unparsable.
  - intros a b Ha Hb.
    destruct (compare_cases a b) as [H|[[H|H] _]];
      [assumption | contradiction | contradiction].
  - apply py_int10_foreign.
  - intros self code k reads now. apply totp_compare_unparsable_int.
  - apply totp_compare_unparsable.
Qed.

Lemma compare_rejects_unparsable_witness :
  _compare (lit "abc123") (lit "123456") = Raise (ValueError InvalidCodeFormat)
  /\ _compare (lit "123456") (lit "654321") = Ok false
  /\ unparsable (lit "abc123")
  /\ TOTP.compare (rfc_totp 119) (lit "abc123") 1 0%nat
     = (Raise (ValueError InvalidCodeFormat), 1%nat)
  /\ TOTP.compare (rfc_totp_with 30 clock_2_60) (lit "abc123") 1 0%nat
     = (Raise (ValueError InvalidCodeFormat), 1%nat).
Proof.
  destruct compare_rejects_unparsable as (H1 & H2 & H3 & H4 & H5).
  assert (Hu : unparsable (lit "abc123")).
  { apply H3. right. exists "a"%char. split; [now left | reflexivity]. }
  split; [|split; [|split; [|split]]].
  - apply H1. now left.
  - apply (H2 (lit "123456") (lit "654321")); discriminate.
  - exact Hu.
  - apply (H4 (rfc_totp 119) (lit "abc123") 1 0%nat 119 eq_refl Hu).
    + lia.
    + discriminate.
    + apply (rfc_totp_window_generated 119 1); vm_compute; easy.
  - apply (H5 (rfc_totp_with 30 clock_2_60) (lit "abc123") 1 0%nat Hu).
    + lia.
    + intros i Hi.
      assert (E : i = -1 \/ i = 0 \/ i = 1) by lia.
      destruct E as [->|[->| ->]]; eexists; vm_compute; reflexivity.
Defined.

(** C5 as stated fails: ["+1"] is not composed of decimal digits only, and
    [_compare] returns [False] for it; ["abc123"] is not either, and
    [HOTP.compare] returns [False] for it. *)
Lemma compare_accepts_signed_code :
  forallb is_digit (lit "+1") = false
  /\ _compare (lit "+1") (lit "1") = Ok false
  /\ forallb is_digit (lit "abc123") = false
  /\ fst (HOTP.compare (lit "abc123") 2 (rfc_hotp 0)) = Ok false.
Proof. repeat split; vm_compute; reflexivity. Qed.

(** C10.  The empty string has no character that is not a digit, and
    [_compare] raises the invalid-code error when either input is empty.
    For an empty submitted code [TOTP.compare] raises that error and
    [HOTP.compare] returns [False] and leaves the engine as it was, once the
    window is not negative and its candidates are generated: for
    [TOTP.compare] with an int reading and a period that is not 0 the codes
    of the steps of the window, with any reading the calls
    [self.get_otp(timestamp + i * self._period)]. *)
Theorem compare_empty_code :
  forallb is_digit [] = true
  /\ (forall b, _compare [] b = Raise (ValueError InvalidCodeFormat)
                /\ _compare b [] = Raise (ValueError InvalidCodeFormat))
  /\ (forall self k reads now,
        TOTP._current_timestamp self reads = Int now ->
        0 <= k -> TOTP._period self <> 0 ->
        (forall i, - k <= i <= k ->
           exists v, code_at (TOTP.base self) (now / TOTP._period self + i)
                     = Ok v) ->
        TOTP.compare self [] k reads
        = (Raise (ValueError InvalidCodeFormat), S reads))
  /\ (forall self k reads,
        0 <= k ->
        (forall i, - k <= i <= k ->
           exists v, candidate self (TOTP._current_timestamp self reads) i
                     = Ok v) ->
        TOTP.compare self [] k reads
        = (Raise (ValueError InvalidCodeFormat), S reads))
  /\ (forall self look_ahead,
        0 <= look_ahead ->
        (forall i, 0 <= i <= look_ahead ->
           exists v, code_at (HOTP.base self) (HOTP.counter self + i) = Ok v) ->
        HOTP.compare [] look_ahead self = (Ok false, self)).
Proof.
  split; [reflexivity|]. split; [|split; [|split]].
  - intros b. split; apply compare_unparsable; [left | right]; reflexivity.
  - intros self k reads now Hnow.
    now apply (totp_compare_unparsable_int self [] k reads now Hnow).
  - intros self k reads. now apply totp_compare_unparsable.
  - intros self la Hla Hgen.
    apply hotp_compare_no_match_false; [assumption | assumption|].
    intros i Hi Hc. now apply get_otp_digits in Hc as [_ Hne].
Qed.

Lemma compare_empty_code_witness :
  _compare [] (lit "755224") = Raise (ValueError InvalidCodeFormat)
  /\ TOTP.compare (rfc_totp 119) [] 1 0%nat
     = (Raise (ValueError InvalidCodeFormat), 1%nat)
  /\ TOTP.compare (rfc_totp_with 30 clock_2_60) [] 1 0%nat
     = (Raise (ValueError InvalidCodeFormat), 1%nat)
  /\ HOTP.compare [] 2 (rfc_hotp 0) = (Ok false, rfc_hotp 0).
Proof.
  destruct compare_empty_code as (_ & H1 & H2 & H3 & H4).
  split; [|split; [|split]].
  - apply (H1 (lit "755224")).
  - apply (H2 (rfc_totp 119) 1 0%nat 119 eq_refl).
    + lia.
    + discriminate.
    + apply (rfc_totp_window_generated 119 1); vm_compute; easy.
  - apply (H3 (rfc_totp_with 30 clock_2_60) 1 0%nat).
    + lia.
    + intros i Hi.
      assert (E : i = -1 \/ i = 0 \/ i = 1) by lia.
      destruct E as [->|[->| ->]]; eexists; vm_compute; reflexivity.
  - apply (H4 (rfc_hotp 0) 2); [lia|].
    apply (rfc_window_generated 0 2); lia.
Defined.

(** ** Counter bound and code shape *)

(** C6.  The guard of [_get_otp] raises the counter error exactly for
    counters whose absolute value is [2^64] or more: it raises for every
    counter above the unsigned 64-bit range and for none inside it, but it
    does not raise for [-1], whose bit length is 1. *)
Theorem get_otp_counter_guard (secret : bytes) (n_digits : Z)
    (algorithm : digestmod) :
  (forall counter_int,
      _get_otp secret counter_int n_digits algorithm
      = Raise (ValueError InvalidCounter)
      <-> 2 ^ 64 <= Z.abs counter_int)
  /\ bit_length (-1) = 1
  /\ _get_otp secret (-1) n_digits algorithm
     <> Raise (ValueError InvalidCounter).
Proof.
  assert (Hguard : forall counter_int,
      _get_otp secret counter_int n_digits algorithm
      = Raise (ValueError InvalidCounter)
      <-> 2 ^ 64 <= Z.abs counter_int).
  { intros c. rewrite <- bit_length_guard. unfold _get_otp, int_to_bytearray.
    destruct (64 <? bit_length c); [easy|]. cbn [rbind].
    split; [|discriminate].
    destruct (last_byte _) as [l|e] eqn:L; cbn [rbind].
    2:{ unfold last_byte in L.
        destruct (rev _) in L; [injection L as <-|]; discriminate. }
    destruct (bytes_to_31_bit_int _) as [v|] eqn:V; cbn [rbind].
    - unfold format_zero_padded. destruct (n_digits <? 0); discriminate.
    - unfold bytes_to_31_bit_int in V.
      destruct (length _ =? 4)%nat; [discriminate|].
      injection V as <-. discriminate. }
  split; [exact Hguard|]. split; [reflexivity|].
  intros H. apply Hguard in H. simpl in H. lia.
Qed.

(** C9.  For a supported hash, a counter of the unsigned 64-bit range and a
    positive digit count, [_get_otp] returns a string of exactly [n_digits]
    decimal digits: the decimal rendering of the truncated 31-bit value,
    with zeros on its left when it is shorter and cut to its last
    [n_digits] characters when it is longer. *)
Theorem get_otp_code_shape (secret : bytes) (counter_int n_digits : Z)
    (algorithm : digestmod) :
  supported algorithm -> 0 <= counter_int < 2 ^ 64 -> 0 < n_digits ->
  exists code v,
    _get_otp secret counter_int n_digits algorithm = Ok code
    /\ Z.of_nat (length code) = n_digits
    /\ Forall (fun c => is_digit c = true) code
    /\ truncated_value secret counter_int algorithm = Ok v
    /\ 0 <= v < 2 ^ 31
    /\ ((length (py_str v) <= Z.to_nat n_digits)%nat ->
        code = repeat zero_char (Z.to_nat n_digits - length (py_str v))
                 ++ py_str v)
    /\ ((Z.to_nat n_digits <= length (py_str v))%nat ->
        code = skipn (length (py_str v) - Z.to_nat n_digits) (py_str v)).
Proof.
  intros Hs Hc Hn.
  destruct (get_otp_returns secret counter_int n_digits algorithm Hs Hc
              ltac:(lia)) as [code Hcode].
  destruct (get_otp_inversion _ _ _ _ _ Hcode) as (v & Ht & Hv & _ & _ & E).
  destruct (rendering_shape n_digits v ltac:(lia) ltac:(lia))
    as (H1 & _ & H3 & H4 & H5).
  rewrite <- E in H1, H3, H4, H5.
  exists code, v. repeat (split; auto).
Qed.

Lemma get_otp_code_shape_witness :
  exists code v,
    _get_otp rfc_secret 0 6 SHA1.sha1 = Ok code
    /\ Z.of_nat (length code) = 6
    /\ Forall (fun c => is_digit c = true) code
    /\ truncated_value rfc_secret 0 SHA1.sha1 = Ok v
    /\ 0 <= v < 2 ^ 31
    /\ ((length (py_str v) <= Z.to_nat 6)%nat ->
        code = repeat zero_char (Z.to_nat 6 - length (py_str v)) ++ py_str v)
    /\ ((Z.to_nat 6 <= length (py_str v))%nat ->
        code = skipn (length (py_str v) - Z.to_nat 6) (py_str v)).
Proof.
  apply (get_otp_code_shape rfc_secret 0 6 SHA1.sha1).
  - apply sha1_supported.
  - lia.
  - lia.
Defined.

(** The truncated values of RFC 4226, appendix D, for counters 0 and 1, and
    a short value padded on the left. *)
Example rfc4226_truncated :
  truncated_value rfc_secret 0 SHA1.sha1 = Ok 1284755224
  /\ truncated_value rfc_secret 1 SHA1.sha1 = Ok 1094287082
  /\ _get_otp rfc_secret 1 10 SHA1.sha1 = Ok (lit "1094287082")
  /\ _get_otp rfc_secret 1 12 SHA1.sha1 = Ok (lit "001094287082").
Proof. vm_compute. repeat split. Qed.

(** The codes of RFC 4226, appendix D, are reproduced. *)
Example rfc4226_vectors :
  map (fun c => _get_otp rfc_secret c 6 SHA1.sha1) (range 0 10)
  = map (fun s => Ok (lit s))
      ["755224"; "287082"; "359152"; "969429"; "338314";
       "254676"; "287922"; "162583"; "399871"; "520489"]%string.
Proof. vm_compute. reflexivity. Qed.

(** * Further properties *)

(** ** The code as a number *)

Lemma fold_decimal (s : str) (acc : Z) :
  fold_left (fun a c => 10 * a + digit_val c) s acc
  = acc * 10 ^ Z.of_nat (length s) + decimal_value s.
Proof.
  unfold decimal_value. revert acc.
  induction s as [|c r IH]; intros acc.
  - simpl. lia.
  - cbn [fold_left length]. rewrite IH, (IH (10 * 0 + digit_val c)).
    rewrite Nat2Z.inj_succ, Z.pow_succ_r by lia. ring.
Qed.

Lemma decimal_value_app (a b : str) :
  decimal_value (a ++ b)
  = decimal_value a * 10 ^ Z.of_nat (length b) + decimal_value b.
Proof.
  unfold decimal_value at 1. rewrite fold_left_app.
  fold (decimal_value a). apply fold_decimal.
Qed.

Lemma digit_val_range : forall c, is_digit c = true -> 0 <= digit_val c <= 9.
Proof.
  intros [[] [] [] [] [] [] [] []]; vm_compute; intros H;
    try discriminate H; split; discriminate.
Qed.

Lemma decimal_value_range (s : str) :
  Forall (fun c => is_digit c = true) s ->
  0 <= decimal_value s < 10 ^ Z.of_nat (length s).
Proof.
  induction s as [|c r IH] using rev_ind; intros H.
  - vm_compute. split; [discriminate | reflexivity].
  - apply Forall_app in H as [Hr Hc]. apply Forall_inv in Hc.
    specialize (IH Hr). apply digit_val_range in Hc.
    rewrite decimal_value_app, length_app. cbn [length].
    replace (decimal_value [c]) with (digit_val c) by (unfold decimal_value; simpl; lia).
    rewrite Nat2Z.inj_add, Z.pow_add_r by lia. simpl (10 ^ Z.of_nat 1).
    nia.
Qed.

Lemma decimal_value_zeros (k : nat) (s : str) :
  decimal_value (repeat zero_char k ++ s) = decimal_value s.
Proof.
  rewrite decimal_value_app.
  assert (E : decimal_value (repeat zero_char k) = 0).
  { induction k as [|k IH]; [reflexivity|].
    change (repeat zero_char (S k)) with ([zero_char] ++ repeat zero_char k).
    rewrite decimal_value_app, IH. reflexivity. }
  rewrite E. lia.
Qed.

Lemma decimal_value_suffix (s : str) (n : nat) :
  Forall (fun c => is_digit c = true) s -> (n <= length s)%nat ->
  decimal_value (skipn (length s - n) s) = decimal_value s mod 10 ^ Z.of_nat n.
Proof.
  intros Hs Hn.
  pose proof (decimal_value_app (firstn (length s - n) s)
                                (skipn (length s - n) s)) as E.
  rewrite firstn_skipn in E.
  assert (Hlen : length (skipn (length s - n) s) = n)
    by (rewrite length_skipn; lia).
  rewrite Hlen in E.
  pose proof (decimal_value_range _ (Forall_skipn _ (length s - n) s Hs)) as R.
  rewrite Hlen in R.
  rewrite E, Z.add_comm, Z.mod_add by lia.
  symmetry. now apply Z.mod_small.
Qed.

(** [int(s, 10)] of a non-empty string of digits is the number it writes. *)
Lemma parse_digits_value (s : str) :
  Forall (fun c => is_digit c = true) s ->
  forall acc after_digit,
    s <> [] \/ after_digit = true ->
    parse_digits acc after_digit s
    = Some (fold_left (fun a c => 10 * a + digit_val c) s acc).
Proof.
  induction 1 as [|c r Hc _ IH]; intros acc b Hb; simpl.
  - destruct Hb as [Hb| ->]; [contradiction | reflexivity].
  - rewrite Hc. apply IH. now right.
Qed.

Lemma py_int10_value (s : str) :
  Forall (fun c => is_digit c = true) s -> s <> [] ->
  py_int10 s = Some (decimal_value s).
Proof.
  intros H Hne. unfold py_int10. rewrite (strip_digits s H).
  destruct s as [|c r]; [contradiction|].
  pose proof (Forall_inv H) as Hc. simpl in Hc.
  rewrite (digit_not_plus c Hc), (digit_not_minus c Hc).
  apply parse_digits_value; [assumption | now left].
Qed.

(** The digits of a decimal numeral write its value. *)
Lemma uint_value (d : Decimal.uint) (acc : Z) :
  fold_left (fun a c => 10 * a + digit_val c)
            (list_ascii_of_string (NilEmpty.string_of_uint d)) acc
  = acc * 10 ^ Z.of_N (DecimalPos.Unsigned.usize d)
    + Z.of_N (DecimalPos.Unsigned.of_lu (Decimal.rev d)).
Proof.
  revert acc.
  induction d as [|d IH|d IH|d IH|d IH|d IH|d IH|d IH|d IH|d IH|d IH];
    intros acc;
    [simpl; lia | ..].
  all: cbn [NilEmpty.string_of_uint list_ascii_of_string fold_left
            DecimalPos.Unsigned.usize].
  all: rewrite IH.
  all: match goal with
       | |- context [Decimal.rev (?D ?x)] =>
           change (Decimal.rev (D x)) with (Decimal.revapp x (D Decimal.Nil));
           rewrite (DecimalPos.Unsigned.of_lu_revapp x (D Decimal.Nil))
       end.
  all: match goal with
       | |- context [digit_val ?c] =>
           let v := eval vm_compute in (digit_val c) in
           change (digit_val c) with v
       end.
  all: rewrite N2Z.inj_succ, Z.pow_succ_r by apply N2Z.is_nonneg.
  all: rewrite N2Z.inj_add, N2Z.inj_mul, N2Z.inj_pow.
  all: cbn [DecimalPos.Unsigned.of_lu N.mul N.add Z.of_N Pos.mul Pos.add].
  all: ring.
Qed.

Lemma py_str_value (n : Z) : 0 <= n -> decimal_value (py_str n) = n.
Proof.
  intros Hn. unfold py_str.
  rewrite <- (DecimalZ.of_to n) at 2.
  destruct n as [|p|p]; [reflexivity| |lia].
  cbn [Z.to_int Z.of_int]. unfold Z.of_uint.
  rewrite DecimalPos.Unsigned.of_uint_alt.
  unfold NilZero.string_of_int, NilZero.string_of_uint.
  assert (Hnil := DecimalPos.Unsigned.to_uint_nonnil p).
  destruct (Pos.to_uint p) eqn:E; [contradiction|..]; rewrite <- E;
    unfold decimal_value; rewrite uint_value; lia.
Qed.

Lemma truncated_value_range (secret : bytes) (counter_int v : Z)
    (algorithm : digestmod) :
  truncated_value secret counter_int algorithm = Ok v -> 0 <= v < 2 ^ 31.
Proof.
  unfold truncated_value. intros Ht.
  destruct (64 <? bit_length counter_int); [discriminate|].
  destruct (int_to_bytearray counter_int); cbn [rbind] in Ht; [|discriminate].
  destruct (last_byte _); cbn [rbind] in Ht; [|discriminate].
  now apply bytes_to_31_bit_int_range in Ht.
Qed.

(** X1.  The code, read as a decimal number, is the truncated value modulo
    [10 ^ n_digits] (RFC 4226, 5.3 step 3). *)
Theorem get_otp_numeric (secret : bytes) (counter_int n_digits v : Z)
    (algorithm : digestmod) :
  0 < n_digits ->
  truncated_value secret counter_int algorithm = Ok v ->
  exists code,
    _get_otp secret counter_int n_digits algorithm = Ok code
    /\ py_int10 code = Some (v mod 10 ^ n_digits)
    /\ decimal_value code = v mod 10 ^ n_digits.
Proof.
  intros Hn Ht.
  pose proof (truncated_value_range _ _ _ _ Ht) as Hv.
  rewrite get_otp_truncated, Ht. cbn [rbind].
  rewrite format_zero_padded_nonneg by lia. cbn [rbind].
  destruct (rendering_shape n_digits v ltac:(lia) ltac:(lia))
    as (Hd & Hne & _ & Hshort & Hlong).
  destruct (py_str_digits v ltac:(lia)) as [Hdv _].
  pose proof (py_str_value v ltac:(lia)) as Hval.
  pose proof (decimal_value_range _ Hdv) as Hrange. rewrite Hval in Hrange.
  eexists. split; [reflexivity|].
  rewrite (py_int10_value _ Hd Hne).
  assert (E : decimal_value
                (slice_from
                   (repeat zero_char (Z.to_nat n_digits - length (py_str v))
                      ++ py_str v) (- n_digits))
              = v mod 10 ^ n_digits).
  { destruct (Nat.le_ge_cases (length (py_str v)) (Z.to_nat n_digits))
      as [Hle|Hge].
    - rewrite (Hshort Hn Hle), decimal_value_zeros, Hval.
      symmetry. apply Z.mod_small. split; [lia|].
      apply Z.lt_le_trans with (10 ^ Z.of_nat (length (py_str v))); [lia|].
      apply Z.pow_le_mono_r; lia.
    - rewrite (Hlong Hn Hge), decimal_value_suffix, Hval by assumption.
      now rewrite Z2Nat.id by lia. }
  now rewrite E.
Qed.

Lemma get_otp_numeric_witness :
  exists code,
    _get_otp rfc_secret 0 6 SHA1.sha1 = Ok code
    /\ py_int10 code = Some (1284755224 mod 10 ^ 6)
    /\ decimal_value code = 1284755224 mod 10 ^ 6.
Proof.
  apply (get_otp_numeric rfc_secret 0 6 1284755224 SHA1.sha1).
  - lia.
  - vm_compute. reflexivity.
Defined.

Lemma skipn_repeat {A} (x : A) (k n : nat) :
  skipn k (repeat x n) = repeat x (n - k).
Proof.
  revert k. induction n as [|n IH]; intros [|k]; simpl; auto using skipn_nil.
Qed.

(** X2.  A code with fewer digits is the end of the code with more digits
    for the same secret, counter and hash. *)
Theorem get_otp_suffix (secret : bytes) (counter_int n m : Z)
    (algorithm : digestmod) (code_m : str) :
  0 < n <= m ->
  _get_otp secret counter_int m algorithm = Ok code_m ->
  _get_otp secret counter_int n algorithm
  = Ok (skipn (length code_m - Z.to_nat n) code_m).
Proof.
  intros Hnm Hm.
  apply get_otp_inversion in Hm as (v & Ht & Hv & _ & _ & ->).
  rewrite get_otp_truncated, Ht. cbn [rbind].
  rewrite format_zero_padded_nonneg by lia. cbn [rbind]. f_equal.
  rewrite !slice_from_last by lia.
  destruct (Z.eqb_spec n 0); [lia|]. destruct (Z.eqb_spec m 0); [lia|].
  set (d := py_str v).
  rewrite !length_skipn, !length_app, !repeat_length.
  rewrite !skipn_skipn, !skipn_app, !skipn_repeat, !repeat_length.
  f_equal; [f_equal; lia | f_equal; lia].
Qed.

Lemma get_otp_suffix_witness :
  _get_otp rfc_secret 1 6 SHA1.sha1
  = Ok (skipn (length (lit "94287082") - Z.to_nat 6) (lit "94287082")).
Proof.
  apply (get_otp_suffix rfc_secret 1 6 8 SHA1.sha1 (lit "94287082")).
  - lia.
  - vm_compute. reflexivity.
Defined.

(** X3.  The digit count at its edges: with 0 the code is the whole decimal
    rendering of the truncated value, a negative count is refused by the
    formatting, and an error of the truncation comes first whatever the
    count. *)
Theorem get_otp_digit_count_edges (secret : bytes) (counter_int : Z)
    (algorithm : digestmod) :
  (forall v, truncated_value secret counter_int algorithm = Ok v ->
             _get_otp secret counter_int 0 algorithm = Ok (py_str v)
             /\ forall n_digits,
                  n_digits < 0 ->
                  _get_otp secret counter_int n_digits algorithm
                  = Raise (ValueError InvalidFormatSpec))
  /\ (forall e, truncated_value secret counter_int algorithm = Raise e ->
                forall n_digits,
                  _get_otp secret counter_int n_digits algorithm = Raise e).
Proof.
  split.
  - intros v Ht. pose proof (truncated_value_range _ _ _ _ Ht) as Hv. split.
    + rewrite get_otp_truncated, Ht. cbn [rbind].
      rewrite format_zero_padded_nonneg by lia. cbn [rbind].
      now rewrite (slice_from_last _ 0) by lia.
    + intros n Hn. rewrite get_otp_truncated, Ht. cbn [rbind].
      now rewrite format_zero_padded_negative_width.
  - intros e Ht n. now rewrite get_otp_truncated, Ht.
Qed.

Lemma get_otp_digit_count_edges_witness :
  _get_otp rfc_secret 0 0 SHA1.sha1 = Ok (lit "1284755224")
  /\ _get_otp rfc_secret 0 (-1) SHA1.sha1 = Raise (ValueError InvalidFormatSpec)
  /\ _get_otp rfc_secret (2 ^ 64) (-1) SHA1.sha1
     = Raise (ValueError InvalidCounter).
Proof.
  destruct (get_otp_digit_count_edges rfc_secret 0 SHA1.sha1) as [H _].
  destruct (H 1284755224 ltac:(vm_compute; reflexivity)) as [H0 Hneg].
  destruct (get_otp_digit_count_edges rfc_secret (2 ^ 64) SHA1.sha1)
    as [_ He].
  split; [exact H0|]. split; [apply Hneg; lia|].
  apply He. reflexivity.
Defined.

(** ** The HOTP engine, continued *)

Lemma with_counter_same (self : HOTP.engine) :
  with_counter self (HOTP.counter self) = self.
Proof. now destruct self. Qed.

(** The errors [_get_otp] can raise. *)
Lemma get_otp_error_kinds (secret : bytes) (c n_digits : Z)
    (algorithm : digestmod) (e : exn) :
  _get_otp secret c n_digits algorithm = Raise e ->
  e = ValueError InvalidCounter \/ e = IndexError \/ e = StructError
  \/ e = ValueError InvalidFormatSpec.
Proof.
  unfold _get_otp, int_to_bytearray.
  destruct (64 <? bit_length c); [intros H; injection H as <-; auto|].
  cbn [rbind].
  destruct (last_byte _) as [l|e'] eqn:L; cbn [rbind].
  2:{ unfold last_byte in L. destruct (rev _) in L; [|discriminate].
      injection L as <-. intros H. injection H as <-. auto. }
  destruct (bytes_to_31_bit_int _) as [v|e'] eqn:V; cbn [rbind].
  - unfold format_zero_padded. destruct (n_digits <? 0); [|discriminate].
    intros H. injection H as <-. auto.
  - unfold bytes_to_31_bit_int in V.
    destruct (length _ =? 4)%nat; [discriminate|].
    injection V as <-. intros H. injection H as <-. auto.
Qed.

(** The first element a list comprehension fails on. *)
Lemma rmap_raises_first {A B} (f : A -> result B) (xs : list A) (e : exn) :
  rmap f xs = Raise e ->
  exists i x, nth_error xs i = Some x /\ f x = Raise e
    /\ forall j y, (j < i)%nat -> nth_error xs j = Some y ->
                   exists v, f y = Ok v.
Proof.
  induction xs as [|x r IH]; simpl; [discriminate|].
  destruct (f x) as [y|e'] eqn:E; simpl.
  - destruct (rmap f r) as [ys|e'']; simpl; [discriminate|].
    intros H. injection H as ->.
    destruct (IH eq_refl) as (i & x' & Hi & Hx & Hbefore).
    exists (S i), x'. split; [assumption|]. split; [assumption|].
    intros [|j] z Hj Hz; simpl in Hz.
    + injection Hz as <-. eauto.
    + apply (Hbefore j); [lia | assumption].
  - intros H. injection H as ->. exists 0%nat, x.
    split; [reflexivity|]. split; [assumption|]. intros j z Hj. lia.
Qed.

(** If [HOTP.compare] returns [True], the offset it resynchronised to is
    the first whose candidate is the code. *)
Lemma hotp_compare_true_first (code : str) (look_ahead : Z)
    (self s' : HOTP.engine) :
  HOTP.compare code look_ahead self = (Ok true, s') ->
  exists i, 0 <= i <= look_ahead
    /\ code_at (HOTP.base self) (HOTP.counter self + i) = Ok code
    /\ (forall j, 0 <= j < i ->
          exists v, code_at (HOTP.base self) (HOTP.counter self + j) = Ok v
                    /\ v <> code)
    /\ s' = with_counter self (HOTP.counter self + i + 1).
Proof.
  destruct (Z_lt_le_dec look_ahead 0) as [Hneg|Hla].
  { rewrite hotp_compare_negative by assumption. discriminate. }
  rewrite hotp_compare_unfold by assumption. cbv zeta.
  destruct (rmap (code_at _) _) as [vs|e] eqn:Hvs; [|discriminate].
  apply rmap_Forall2 in Hvs.
  destruct (rmap (_compare code) vs) as [is_valid|e] eqn:Hcmp.
  2:{ destruct (is_ValueError e); discriminate. }
  apply rmap_Forall2 in Hcmp.
  destruct (index_true is_valid) as [k|e] eqn:Hidx.
  2:{ destruct (is_ValueError e); discriminate. }
  apply index_true_found in Hidx as [Hk Hbefore].
  destruct (Forall2_nth_error_r _ _ _ Hcmp k true Hk) as (v & Hv & Hcv).
  apply compare_true in Hcv. subst v.
  destruct (Forall2_nth_error_r _ _ _ Hvs k code Hv) as (x & Hx & Hgen).
  unfold item. rewrite Hx.
  apply nth_error_hotp_window_inv in Hx as [Hle ->].
  intros E. injection E as <-.
  exists (Z.of_nat k). split; [lia|]. split; [assumption|].
  split; [|reflexivity].
  intros j Hj.
  specialize (Hbefore (Z.to_nat j) ltac:(lia)).
  destruct (Forall2_nth_error_r _ _ _ Hcmp _ _ Hbefore) as (v & Hvj & Hcj).
  destruct (Forall2_nth_error_r _ _ _ Hvs _ _ Hvj) as (x & Hx & Hgj).
  apply nth_error_hotp_window_inv in Hx as [_ ->].
  rewrite Z2Nat.id in Hgj by lia.
  exists v. split; [assumption|]. intros ->.
  destruct (compare_cases code code) as [H|[_ H]]; rewrite H in Hcj;
    [|discriminate].
  rewrite constant_time_compare_refl in Hcj. discriminate.
Qed.

(** X4.  The stored counter never goes back, and nothing but the counter
    changes: [get_otp] moves it by at most one, [compare] leaves the engine
    as it was unless it returns [True], and then the counter has moved
    forward by at most [look_ahead + 1]. *)
Theorem hotp_counter_monotone (self : HOTP.engine) :
  (forall counter_arg auto_increment,
      let s' := snd (HOTP.get_otp counter_arg auto_increment self) in
      HOTP.base s' = HOTP.base self
      /\ HOTP.counter self <= HOTP.counter s' <= HOTP.counter self + 1)
  /\ (forall code look_ahead,
        let s' := snd (HOTP.compare code look_ahead self) in
        HOTP.base s' = HOTP.base self
        /\ (s' = self
            \/ fst (HOTP.compare code look_ahead self) = Ok true
               /\ HOTP.counter self < HOTP.counter s'
                  <= HOTP.counter self + look_ahead + 1)).
Proof.
  split.
  - intros [c|] ai; cbv zeta.
    + rewrite hotp_get_otp_explicit. simpl. split; [reflexivity | lia].
    + rewrite hotp_get_otp_current. destruct ai; simpl;
        (split; [reflexivity | lia]).
  - intros code la. cbv zeta.
    destruct (hotp_compare_state code la self) as [Ht|Hs].
    + destruct (HOTP.compare code la self) as [r s'] eqn:E. simpl in *.
      subst r.
      apply hotp_compare_true_inv in E as (i & Hi & _ & ->). simpl.
      split; [reflexivity|]. right. split; [reflexivity | lia].
    + rewrite Hs. split; [reflexivity | now left].
Qed.

(** X5.  [HOTP.compare] raises in two ways only: for a negative look-ahead,
    and with the error of the first candidate of the window that is not
    generated.  It never raises the invalid-code error. *)
Theorem hotp_compare_errors (self : HOTP.engine) (code : str)
    (look_ahead : Z) (e : exn) :
  fst (HOTP.compare code look_ahead self) = Raise e ->
  (look_ahead < 0 /\ e = ValueError InvalidArgument
   \/ 0 <= look_ahead
      /\ exists i, 0 <= i <= look_ahead
           /\ code_at (HOTP.base self) (HOTP.counter self + i) = Raise e
           /\ forall j, 0 <= j < i ->
                exists v, code_at (HOTP.base self) (HOTP.counter self + j)
                          = Ok v)
  /\ e <> ValueError InvalidCodeFormat /\ e <> ValueError NotInList.
Proof.
  destruct (Z_lt_le_dec look_ahead 0) as [Hneg|Hla].
  { rewrite hotp_compare_negative by assumption. simpl.
    intros H. injection H as <-.
    split; [now left | split; discriminate]. }
  rewrite hotp_compare_unfold by assumption. cbv zeta.
  destruct (rmap (code_at _) _) as [vs|e'] eqn:Hvs.
  - apply rmap_Forall2 in Hvs.
    destruct (rmap (_compare code) vs) as [is_valid|e'] eqn:Hcmp.
    + apply rmap_Forall2 in Hcmp.
      destruct (index_true is_valid) as [k|e'] eqn:Hidx.
      * apply index_true_found in Hidx as [Hk _].
        destruct (Forall2_nth_error_r _ _ _ Hcmp k true Hk) as (v & Hv & _).
        destruct (Forall2_nth_error_r _ _ _ Hvs k v Hv) as (x & Hx & _).
        unfold item. rewrite Hx. discriminate.
      * apply index_true_absent in Hidx as ->. discriminate.
    + apply rmap_raises in Hcmp as (v & _ & Hv).
      destruct (compare_cases code v) as [H|[_ H]]; rewrite H in Hv;
        [discriminate|].
      injection Hv as <-. discriminate.
  - simpl. intros H. injection H as <-.
    pose proof Hvs as Hfirst.
    apply rmap_raises_first in Hfirst as (i & x & Hi & Hx & Hbefore).
    apply nth_error_hotp_window_inv in Hi as [Hle ->].
    split.
    + right. split; [assumption|]. exists (Z.of_nat i).
      split; [lia|]. split; [assumption|].
      intros j Hj.
      replace j with (Z.of_nat (Z.to_nat j)) by lia.
      apply (Hbefore (Z.to_nat j)); [lia|].
      apply nth_error_hotp_window. lia.
    + apply get_otp_error_kinds in Hx.
      split; intros ->; destruct Hx as [H|[H|[H|H]]]; discriminate.
Qed.

Lemma hotp_compare_errors_witness :
  (2 < 0 /\ ValueError InvalidCounter = ValueError InvalidArgument
   \/ 0 <= 2
      /\ exists i, 0 <= i <= 2
           /\ code_at (rfc_base 6) (2 ^ 64 - 1 + i)
              = Raise (ValueError InvalidCounter)
           /\ forall j, 0 <= j < i ->
                exists v, code_at (rfc_base 6) (2 ^ 64 - 1 + j) = Ok v)
  /\ ValueError InvalidCounter <> ValueError InvalidCodeFormat
  /\ ValueError InvalidCounter <> ValueError NotInList.
Proof.
  apply (hotp_compare_errors (rfc_hotp (2 ^ 64 - 1)) (lit "755224") 2).
  vm_compute. reflexivity.
Defined.

Lemma get_otps_succ (n : nat) (self : HOTP.engine) :
  get_otps (S n) self
  = match code_at (HOTP.base self) (HOTP.counter self) with
    | Raise e => (Raise e, with_counter self (HOTP.counter self + 1))
    | Ok code =>
        match get_otps n (with_counter self (HOTP.counter self + 1)) with
        | (Ok codes, s') => (Ok (code :: codes), s')
        | (Raise e, s') => (Raise e, s')
        end
    end.
Proof.
  unfold get_otps. cbn [repeat mapM]. unfold bind at 1.
  rewrite hotp_get_otp_current.
  destruct (code_at (HOTP.base self) (HOTP.counter self)) as [code|e];
    [|reflexivity].
  unfold bind at 1.
  destruct (mapM _ _ _) as [[codes|e] s']; reflexivity.
Qed.

Lemma hotp_get_otps_codes (n : nat) :
  forall (self : HOTP.engine) (codes : list str),
    rmap (code_at (HOTP.base self))
         (map (fun i => HOTP.counter self + Z.of_nat i) (seq 0 n)) = Ok codes ->
    get_otps n self
    = (Ok codes, with_counter self (HOTP.counter self + Z.of_nat n)).
Proof.
  induction n as [|n IH]; intros self codes H.
  - simpl in H. injection H as <-. unfold get_otps. simpl. unfold ret.
    now rewrite Z.add_0_r, with_counter_same.
  - rewrite get_otps_succ.
    cbn [seq map rmap] in H. rewrite Z.add_0_r in H.
    destruct (code_at (HOTP.base self) (HOTP.counter self)) as [code|e];
      cbn [rbind] in H; [|discriminate].
    rewrite <- seq_shift, map_map in H.
    destruct (rmap _ _) as [rest|e] eqn:Hrest; cbn [rbind] in H;
      [|discriminate].
    injection H as <-.
    rewrite (IH (with_counter self (HOTP.counter self + 1)) rest).
    + unfold with_counter. simpl. do 2 f_equal. lia.
    + simpl. rewrite rmap_map in Hrest. rewrite rmap_map, <- Hrest.
      apply rmap_ext. intros i _. f_equal. lia.
Qed.

(** X6.  [n] successive calls of [get_otp()] return the codes of the
    counters [c, c + 1, ..., c + n - 1] in this order and leave the stored
    counter at [c + n], when these codes are generated. *)
Theorem hotp_successive_codes (self : HOTP.engine) (n : nat)
    (codes : list str) :
  rmap (code_at (HOTP.base self))
       (map (fun i => HOTP.counter self + Z.of_nat i) (seq 0 n)) = Ok codes ->
  get_otps n self
  = (Ok codes, with_counter self (HOTP.counter self + Z.of_nat n))
  /\ length codes = n
  /\ forall i, (i < n)%nat ->
               nth_error (map Ok codes) i
               = Some (code_at (HOTP.base self)
                               (HOTP.counter self + Z.of_nat i)).
Proof.
  intros H. split; [now apply hotp_get_otps_codes|].
  apply rmap_Forall2 in H.
  pose proof (Forall2_length H) as Hlen.
  rewrite length_map, length_seq in Hlen. split; [auto|].
  intros i Hi.
  destruct (Forall2_nth_error_l _ _ _ H i
              (HOTP.counter self + Z.of_nat i)) as (v & Hv & Hc).
  { rewrite nth_error_map, nth_error_seq_in by assumption. reflexivity. }
  rewrite nth_error_map, Hv. simpl. now rewrite Hc.
Qed.

Lemma hotp_successive_codes_witness :
  get_otps 3 (rfc_hotp 0)
  = (Ok [lit "755224"; lit "287082"; lit "359152"], rfc_hotp 3)
  /\ length [lit "755224"; lit "287082"; lit "359152"] = 3%nat
  /\ forall i, (i < 3)%nat ->
               nth_error (map Ok [lit "755224"; lit "287082"; lit "359152"]) i
               = Some (code_at (rfc_base 6) (0 + Z.of_nat i)).
Proof.
  apply (hotp_successive_codes (rfc_hotp 0) 3).
  vm_compute. reflexivity.
Defined.

(** X7.  Generator and verifier in step: two engines with the same
    attributes start at counter [c]; the generator takes [d + 1] codes with
    [get_otp()], [d] being within the verifier's look-ahead.  When the
    candidates of the verifier's whole window [c .. c + look_ahead] are
    generated, and the last code is not the code of an earlier counter of
    the window, the verifier accepts it and both engines end at counter
    [c + d + 1]. *)
Theorem hotp_lookahead_sync (generator verifier : HOTP.engine)
    (d look_ahead : Z) :
  HOTP.base generator = HOTP.base verifier ->
  HOTP.counter generator = HOTP.counter verifier ->
  0 <= d <= look_ahead ->
  (forall j, 0 <= j <= look_ahead ->
     exists v, code_at (HOTP.base verifier) (HOTP.counter verifier + j)
               = Ok v) ->
  (forall j, 0 <= j < d ->
     code_at (HOTP.base verifier) (HOTP.counter verifier + j)
     <> code_at (HOTP.base verifier) (HOTP.counter verifier + d)) ->
  exists codes code generator' verifier',
    get_otps (S (Z.to_nat d)) generator = (Ok codes, generator')
    /\ nth_error codes (Z.to_nat d) = Some code
    /\ HOTP.compare code look_ahead verifier = (Ok true, verifier')
    /\ HOTP.counter verifier' = HOTP.counter generator'
    /\ HOTP.counter verifier' = HOTP.counter verifier + d + 1.
Proof.
  intros Hbase Hcounter Hd Hgen Hfresh.
  destruct (rmap_returns (code_at (HOTP.base generator))
              (map (fun i => HOTP.counter generator + Z.of_nat i)
                   (seq 0 (S (Z.to_nat d))))) as [codes Hcodes].
  { intros x Hx. apply in_map_iff in Hx as (i & <- & Hi).
    apply in_seq in Hi. rewrite Hbase, Hcounter. apply Hgen. lia. }
  pose proof (hotp_get_otps_codes _ generator codes Hcodes) as Hrun.
  apply rmap_Forall2 in Hcodes.
  destruct (Forall2_nth_error_l _ _ _ Hcodes (Z.to_nat d)
              (HOTP.counter generator + Z.of_nat (Z.to_nat d)))
    as (code & Hcode & Hnth).
  { rewrite nth_error_map, nth_error_seq_in by lia. reflexivity. }
  rewrite Z2Nat.id, Hbase, Hcounter in Hnth by lia.
  exists codes, code. eexists. eexists.
  split; [exact Hrun|]. split; [exact Hcode|].
  split.
  - apply (hotp_compare_first_match code look_ahead d verifier);
      [lia | assumption | assumption|].
    intros j Hj. rewrite <- Hnth. now apply Hfresh.
  - simpl. lia.
Qed.

Lemma hotp_lookahead_sync_witness :
  exists codes code generator' verifier',
    get_otps (S (Z.to_nat 2)) (rfc_hotp 0) = (Ok codes, generator')
    /\ nth_error codes (Z.to_nat 2) = Some code
    /\ HOTP.compare code 2 (rfc_hotp 0) = (Ok true, verifier')
    /\ HOTP.counter verifier' = HOTP.counter generator'
    /\ HOTP.counter verifier' = HOTP.counter (rfc_hotp 0) + 2 + 1.
Proof.
  apply (hotp_lookahead_sync (rfc_hotp 0) (rfc_hotp 0) 2 2).
  - reflexivity.
  - reflexivity.
  - lia.
  - apply (rfc_window_generated 0 2); lia.
  - intros j Hj.
    assert (E : j = 0 \/ j = 1) by lia.
    destruct E as [->| ->]; vm_compute; discriminate.
Defined.

(** X8.  A code is accepted once: after [compare] has returned [True] for
    a code, the counter is larger, and the same call on the engine it left
    does not return [True] and changes nothing, when the code is not also
    the code of a counter of the new window.  It returns [False] when the
    candidates of the new window are generated; when one is not, it
    raises. *)
Theorem hotp_no_replay (self s1 : HOTP.engine) (code : str)
    (look_ahead : Z) :
  HOTP.compare code look_ahead self = (Ok true, s1) ->
  (forall j, 0 <= j <= look_ahead ->
     code_at (HOTP.base s1) (HOTP.counter s1 + j) <> Ok code) ->
  HOTP.counter self < HOTP.counter s1
  /\ snd (HOTP.compare code look_ahead s1) = s1
  /\ fst (HOTP.compare code look_ahead s1) <> Ok true
  /\ ((forall j, 0 <= j <= look_ahead ->
         exists v, code_at (HOTP.base s1) (HOTP.counter s1 + j) = Ok v) ->
      HOTP.compare code look_ahead s1 = (Ok false, s1))
  /\ ((exists j, 0 <= j <= look_ahead
                 /\ forall v, code_at (HOTP.base s1) (HOTP.counter s1 + j)
                              <> Ok v) ->
      exists e, HOTP.compare code look_ahead s1 = (Raise e, s1)).
Proof.
  intros Hfirst Hno.
  apply hotp_compare_true_inv in Hfirst as (i & Hi & _ & ->).
  set (s1 := with_counter self (HOTP.counter self + i + 1)) in *.
  assert (Hnot : fst (HOTP.compare code look_ahead s1) <> Ok true).
  { destruct (HOTP.compare code look_ahead s1) as [r s'] eqn:E. simpl.
    intros ->. apply hotp_compare_true_inv in E as (j & Hj & Hc & _).
    now destruct (Hno j Hj). }
  assert (Hsame : snd (HOTP.compare code look_ahead s1) = s1).
  { destruct (hotp_compare_state code look_ahead s1) as [Ht|Hs];
      [contradiction | assumption]. }
  split; [simpl; lia|]. split; [assumption|]. split; [assumption|]. split.
  - intros Hgen.
    apply hotp_compare_no_match_false; [lia | assumption | assumption].
  - apply hotp_compare_not_generated. lia.
Qed.

Lemma hotp_no_replay_witness :
  HOTP.counter (rfc_hotp 0) < HOTP.counter (rfc_hotp 3)
  /\ snd (HOTP.compare (lit "359152") 2 (rfc_hotp 3)) = rfc_hotp 3
  /\ fst (HOTP.compare (lit "359152") 2 (rfc_hotp 3)) <> Ok true
  /\ HOTP.compare (lit "359152") 2 (rfc_hotp 3) = (Ok false, rfc_hotp 3).
Proof.
  destruct (hotp_no_replay (rfc_hotp 0) (rfc_hotp 3) (lit "359152") 2)
    as (H1 & H2 & H3 & H4 & _).
  - apply (hotp_compare_first_match (lit "359152") 2 2 (rfc_hotp 0)).
    + lia.
    + apply (rfc_window_generated 0 2); lia.
    + vm_compute. reflexivity.
    + intros j Hj.
      assert (E : j = 0 \/ j = 1) by lia.
      destruct E as [->| ->]; vm_compute; discriminate.
  - intros j Hj.
    assert (E : j = 0 \/ j = 1 \/ j = 2) by lia.
    destruct E as [->|[->| ->]]; vm_compute; discriminate.
  - split; [exact H1|]. split; [exact H2|]. split; [exact H3|].
    apply H4. apply (rfc_window_generated 3 2); lia.
Defined.

(** X9.  A wider look-ahead accepts what a narrower one accepts, with the
    same resynchronisation, when the candidates of the wider window are
    generated. *)
Theorem hotp_lookahead_monotone (self s' : HOTP.engine) (code : str)
    (look_ahead wider : Z) :
  HOTP.compare code look_ahead self = (Ok true, s') ->
  look_ahead <= wider ->
  (forall j, 0 <= j <= wider ->
     exists v, code_at (HOTP.base self) (HOTP.counter self + j) = Ok v) ->
  HOTP.compare code wider self = (Ok true, s').
Proof.
  intros H Hw Hgen.
  apply hotp_compare_true_first in H as (i & Hi & Hcode & Hfirst & ->).
  apply hotp_compare_first_match; [lia | assumption | assumption|].
  intros j Hj E. destruct (Hfirst j Hj) as (v & Hv & Hne). congruence.
Qed.

Lemma hotp_lookahead_monotone_witness :
  HOTP.compare (lit "287082") 5 (rfc_hotp 0) = (Ok true, rfc_hotp 2).
Proof.
  apply (hotp_lookahead_monotone (rfc_hotp 0) (rfc_hotp 2) (lit "287082") 1 5).
  - apply (hotp_compare_first_match (lit "287082") 1 1 (rfc_hotp 0)).
    + lia.
    + apply (rfc_window_generated 0 1); lia.
    + vm_compute. reflexivity.
    + intros j Hj. assert (E : j = 0) by lia. subst j.
      vm_compute. discriminate.
  - lia.
  - apply (rfc_window_generated 0 5); lia.
Defined.

(** ** The TOTP engine, continued *)

(** *** [int] of a float *)

(** [int(x)] is [x] rounded toward zero: its sign is the sign of [x], and
    its absolute value is the integral part of [m * 2^e]. *)
Lemma int_of_float_trunc (s : bool) (m : positive) (e : Z) :
  exists z,
    int_of_float (SpecFloat.S754_finite s m e) = Ok z
    /\ (if s then z <= 0 else 0 <= z)
    /\ (0 <= e -> Z.abs z = Z.pos m * 2 ^ e)
    /\ (e < 0 ->
        Z.abs z * 2 ^ (- e) <= Z.pos m < (Z.abs z + 1) * 2 ^ (- e)).
Proof.
  set (magnitude := Z.shiftl (Z.pos m) e).
  assert (Hm : 0 <= magnitude) by (apply Z.shiftl_nonneg; lia).
  exists (if s then - magnitude else magnitude).
  split; [reflexivity|]. split; [destruct s; lia|].
  assert (Habs : Z.abs (if s then - magnitude else magnitude) = magnitude)
    by (destruct s; lia).
  rewrite Habs. split.
  - intros He. unfold magnitude. now rewrite Z.shiftl_mul_pow2.
  - intros He. unfold magnitude. rewrite Z.shiftl_div_pow2 by lia.
    assert (Hpow : 0 < 2 ^ (- e)) by (apply Z.pow_pos_nonneg; lia).
    pose proof (Z.div_mod (Z.pos m) (2 ^ (- e)) ltac:(lia)) as Hdm.
    pose proof (Z.mod_pos_bound (Z.pos m) (2 ^ (- e)) Hpow) as Hmod.
    nia.
Qed.

Lemma int_of_float_below_one (x : float) :
  below_one x -> int_of_float x = Ok 0.
Proof.
  destruct x as [s|s| |s m e]; simpl; [reflexivity | easy | easy|].
  intros [Hm He]. rewrite Z.shiftl_div_pow2 by lia.
  rewrite Z.div_small by lia. now destruct s.
Qed.

(** Adding the int 0 changes no integral part. *)
Lemma add_int_zero (t : number) :
  exists t', add_int t 0 = Ok t' /\ py_int t' = py_int t.
Proof.
  destruct t as [z|x].
  - exists (Int (z + 0)). split; [reflexivity|]. simpl. f_equal. lia.
  - exists (Float (float_add x (SpecFloat.S754_zero false))).
    split; [reflexivity|].
    destruct x as [[]|[]| |s m e]; reflexivity.
Qed.

Lemma range_cons (lo hi : Z) :
  lo < hi -> range lo hi = lo :: range (lo + 1) hi.
Proof.
  intros H. unfold range.
  replace (Z.to_nat (hi - lo)) with (S (Z.to_nat (hi - (lo + 1)))) by lia.
  cbn [seq map]. f_equal; [lia|].
  rewrite <- seq_shift, map_map. apply map_ext. intros. lia.
Qed.

(** With the period 0 every candidate fails: with the error of [int] for a
    reading that has no integral part, with the division error otherwise. *)
Lemma candidate_zero_period (self : TOTP.engine) (t : number) (i : Z) :
  TOTP._period self = 0 ->
  candidate self t i = (seconds <- py_int t ;; Raise ZeroDivisionError).
Proof.
  intros Hp. rewrite candidate_unfold, Hp, Z.mul_0_r.
  destruct (add_int_zero t) as (t' & -> & <-). cbn [rbind].
  now destruct (py_int t').
Qed.

Lemma totp_compare_zero_period (self : TOTP.engine) (code : str) (k : Z)
    (reads : nat) :
  0 <= k -> TOTP._period self = 0 ->
  TOTP.compare self code k reads
  = (seconds <- py_int (TOTP._current_timestamp self reads) ;;
     Raise ZeroDivisionError,
     S reads).
Proof.
  intros Hk Hp. rewrite totp_compare_pure by assumption.
  rewrite range_cons by lia. cbn [rmap].
  rewrite candidate_zero_period by assumption.
  now destruct (py_int _).
Qed.

(** X10.  A TOTP code is the HOTP code of the time step.  For a timestamp
    that has an integral part and a period that is not 0, [get_otp(t)] is
    what an HOTP engine with the same attributes returns for the counter
    [int(t) // period], and it reads no clock; when [int(t)] raises, for an
    infinite float or a NaN, [get_otp(t)] raises the same, whatever the
    period.  [get_otp()] reads the clock once and is [get_otp] of that
    reading.  [int] keeps an int and rounds a float toward zero. *)
Theorem totp_is_hotp_of_step (self : TOTP.engine) (reads : nat) :
  (forall t seconds (h : HOTP.engine) auto_increment,
      py_int t = Ok seconds ->
      TOTP._period self <> 0 ->
      HOTP.base h = TOTP.base self ->
      TOTP.get_otp self (Some t) reads
      = (fst (HOTP.get_otp (Some (seconds / TOTP._period self))
                auto_increment h),
         reads))
  /\ (forall t e, py_int t = Raise e ->
                  TOTP.get_otp self (Some t) reads = (Raise e, reads))
  /\ (forall s,
        fst (TOTP.get_otp self (Some (Float (SpecFloat.S754_infinity s)))
               reads) = Raise OverflowError)
  /\ fst (TOTP.get_otp self (Some (Float SpecFloat.S754_nan)) reads)
     = Raise (ValueError NaNToInteger)
  /\ TOTP.get_otp self None reads
     = (fst (TOTP.get_otp self
               (Some (TOTP._current_timestamp self reads)) reads),
        S reads)
  /\ (forall z, py_int (Int z) = Ok z)
  /\ (forall s m e,
        exists z,
          py_int (Float (SpecFloat.S754_finite s m e)) = Ok z
          /\ (if s then z <= 0 else 0 <= z)
          /\ (0 <= e -> Z.abs z = Z.pos m * 2 ^ e)
          /\ (e < 0 ->
              Z.abs z * 2 ^ (- e) <= Z.pos m < (Z.abs z + 1) * 2 ^ (- e))).
Proof.
  split; [|split; [|split; [|split; [|split; [|split]]]]].
  - intros t seconds h ai Ht Hp Hb.
    rewrite totp_get_otp_explicit, hotp_get_otp_explicit, Ht.
    cbn [rbind]. unfold TOTP.floordiv.
    destruct (Z.eqb_spec (TOTP._period self) 0); [contradiction|].
    simpl. now rewrite Hb.
  - intros t e Ht. now rewrite totp_get_otp_explicit, Ht.
  - intros s. now rewrite totp_get_otp_explicit.
  - now rewrite totp_get_otp_explicit.
  - rewrite totp_get_otp_explicit. unfold TOTP.get_otp, bind, lift.
    unfold TOTP.read_clock at 1. cbn [fst].
    destruct (py_int _) as [seconds|e]; [|reflexivity]. cbn [rbind].
    destruct (TOTP.floordiv _ _) as [step|e]; reflexivity.
  - reflexivity.
  - intros s m e. apply int_of_float_trunc.
Qed.

Lemma totp_is_hotp_of_step_witness :
  TOTP.get_otp (rfc_totp 119) (Some (Int 59)) 0%nat
  = (fst (HOTP.get_otp (Some (59 / 30)) true (rfc_hotp 0)), 0%nat)
  /\ TOTP.get_otp (rfc_totp 119) (Some (Float minus_half)) 0%nat
     = (fst (HOTP.get_otp (Some (0 / 30)) true (rfc_hotp 0)), 0%nat)
  /\ TOTP.get_otp (rfc_totp 119)
       (Some (Float (SpecFloat.S754_infinity false))) 0%nat
     = (Raise OverflowError, 0%nat)
  /\ TOTP.get_otp (rfc_totp 119) None 0%nat
     = (fst (TOTP.get_otp (rfc_totp 119) (Some (Int 119)) 0%nat), 1%nat).
Proof.
  destruct (totp_is_hotp_of_step (rfc_totp 119) 0%nat)
    as (H1 & H2 & _ & _ & H3 & _).
  split; [|split; [|split]].
  - apply (H1 (Int 59) 59 (rfc_hotp 0) true);
      [reflexivity | discriminate | reflexivity].
  - apply (H1 (Float minus_half) 0 (rfc_hotp 0) true);
      [reflexivity | discriminate | reflexivity].
  - apply H2. reflexivity.
  - exact H3.
Defined.

(** X11.  With a positive period, every timestamp whose integral part is
    in the [n]-th period, from [n * period] to [(n + 1) * period - 1], gets
    the code of step [n].  The integral part of a float is taken toward
    zero, so every float of absolute value below 1, negative ones included,
    gets the code of step 0. *)
Theorem totp_code_per_period (self : TOTP.engine) (reads : nat) :
  0 < TOTP._period self ->
  (forall t seconds n,
      py_int t = Ok seconds ->
      n * TOTP._period self <= seconds < (n + 1) * TOTP._period self ->
      TOTP.get_otp self (Some t) reads = (code_at (TOTP.base self) n, reads))
  /\ (forall x,
        below_one x ->
        TOTP.get_otp self (Some (Float x)) reads
        = (code_at (TOTP.base self) 0, reads)).
Proof.
  intros Hp.
  assert (H : forall t seconds n,
            py_int t = Ok seconds ->
            n * TOTP._period self <= seconds < (n + 1) * TOTP._period self ->
            TOTP.get_otp self (Some t) reads
            = (code_at (TOTP.base self) n, reads)).
  { intros t seconds n Ht Hn. rewrite totp_get_otp_explicit, Ht.
    cbn [rbind]. unfold TOTP.floordiv.
    destruct (Z.eqb_spec (TOTP._period self) 0); [lia|].
    replace (seconds / TOTP._period self) with n; [reflexivity|].
    apply Z.div_unique with (r := seconds - n * TOTP._period self);
      [left; lia | ring]. }
  split; [exact H|].
  intros x Hx. apply (H (Float x) 0 0); [|lia].
  now apply int_of_float_below_one.
Qed.

Lemma totp_code_per_period_witness :
  TOTP.get_otp (rfc_totp 0) (Some (Int 59)) 0%nat
  = (code_at (rfc_base 6) 1, 0%nat)
  /\ TOTP.get_otp (rfc_totp 0) (Some (Float (float_lit 30))) 0%nat
     = (code_at (rfc_base 6) 1, 0%nat)
  /\ TOTP.get_otp (rfc_totp 0) (Some (Float minus_half)) 0%nat
     = (code_at (rfc_base 6) 0, 0%nat).
Proof.
  destruct (totp_code_per_period (rfc_totp 0) 0%nat) as [H1 H2];
    [simpl; lia|].
  split; [|split].
  - apply (H1 (Int 59) 59 1); [reflexivity | simpl; lia].
  - apply (H1 (Float (float_lit 30)) 30 1); [reflexivity | simpl; lia].
  - apply H2. vm_compute. split; reflexivity.
Defined.

(** X12.  The argument errors of the TOTP engine.  A negative window is
    refused before the clock is read.  A period of 0, which the constructor
    accepts, makes [get_otp] raise [ZeroDivisionError] for every timestamp
    that has an integral part (an int or a finite float), and [compare]
    raise it after its one reading of the clock; for a reading without an
    integral part [compare] raises the error of [int]. *)
Theorem totp_argument_errors (self : TOTP.engine) (code : str)
    (reads : nat) :
  (forall k, k < 0 ->
             TOTP.compare self code k reads
             = (Raise (ValueError InvalidArgument), reads))
  /\ (TOTP._period self = 0 ->
      (forall t seconds,
          py_int match t with
                 | Some timestamp => timestamp
                 | None => TOTP._current_timestamp self reads
                 end = Ok seconds ->
          fst (TOTP.get_otp self t reads) = Raise ZeroDivisionError)
      /\ (forall k seconds,
            0 <= k ->
            py_int (TOTP._current_timestamp self reads) = Ok seconds ->
            TOTP.compare self code k reads
            = (Raise ZeroDivisionError, S reads))
      /\ (forall k e,
            0 <= k ->
            py_int (TOTP._current_timestamp self reads) = Raise e ->
            TOTP.compare self code k reads = (Raise e, S reads))).
Proof.
  split; [intros k Hk; now apply totp_compare_negative|].
  intros Hp. split; [|split].
  - intros [t|] seconds Ht;
      unfold TOTP.get_otp, bind, ret, lift, TOTP.read_clock, TOTP.floordiv;
      rewrite Ht, Hp; reflexivity.
  - intros k seconds Hk Ht.
    now rewrite totp_compare_zero_period, Ht.
  - intros k e Hk Ht.
    now rewrite totp_compare_zero_period, Ht.
Qed.

Lemma totp_argument_errors_witness :
  TOTP.compare (rfc_totp 119) (lit "969429") (-1) 0%nat
  = (Raise (ValueError InvalidArgument), 0%nat)
  /\ fst (TOTP.get_otp (rfc_totp_with 0 (fun _ => Int 119)) None 0%nat)
     = Raise ZeroDivisionError
  /\ TOTP.compare (rfc_totp_with 0 (fun _ => Int 119)) (lit "969429") 1 0%nat
     = (Raise ZeroDivisionError, 1%nat)
  /\ TOTP.compare (rfc_totp_with 0 (fun _ => Float minus_half))
       (lit "969429") 1 0%nat
     = (Raise ZeroDivisionError, 1%nat)
  /\ TOTP.compare (rfc_totp_with 0 (fun _ => Float SpecFloat.S754_nan))
       (lit "969429") 1 0%nat
     = (Raise (ValueError NaNToInteger), 1%nat).
Proof.
  destruct (totp_argument_errors (rfc_totp 119) (lit "969429") 0%nat)
    as [Hneg _].
  destruct (totp_argument_errors (rfc_totp_with 0 (fun _ => Int 119))
              (lit "969429") 0%nat) as [_ Hzero].
  destruct (Hzero eq_refl) as (Hget & Hcmp & _).
  destruct (totp_argument_errors (rfc_totp_with 0 (fun _ => Float minus_half))
              (lit "969429") 0%nat) as [_ Hhalf].
  destruct (Hhalf eq_refl) as (_ & Hcmp_half & _).
  destruct (totp_argument_errors
              (rfc_totp_with 0 (fun _ => Float SpecFloat.S754_nan))
              (lit "969429") 0%nat) as [_ Hnan].
  destruct (Hnan eq_refl) as (_ & _ & Hcmp_nan).
  split; [apply Hneg; lia|].
  split; [apply (Hget None 119); reflexivity|].
  split; [apply (Hcmp 1 119); [lia | reflexivity]|].
  split; [apply (Hcmp_half 1 0); [lia | reflexivity]|].
  apply Hcmp_nan; [lia | reflexivity].
Defined.

(** If [TOTP.compare] returns [True], the code is a candidate of the
    window, all of whose candidates were generated. *)
Lemma totp_compare_true_inv (self : TOTP.engine) (code : str) (k : Z)
    (reads : nat) :
  fst (TOTP.compare self code k reads) = Ok true ->
  0 <= k
  /\ (forall i, - k <= i <= k ->
        exists v, candidate self (TOTP._current_timestamp self reads) i
                  = Ok v)
  /\ exists i, - k <= i <= k
       /\ candidate self (TOTP._current_timestamp self reads) i = Ok code.
Proof.
  destruct (Z_lt_le_dec k 0) as [Hneg|Hk].
  { rewrite totp_compare_negative by assumption. discriminate. }
  intros H.
  assert (Hgen : forall i, - k <= i <= k ->
            exists v, candidate self (TOTP._current_timestamp self reads) i
                      = Ok v).
  { rewrite totp_compare_pure in H by assumption. cbn [fst] in H.
    destruct (rmap (candidate self _) _) as [vs|e] eqn:Hvs; [|discriminate].
    apply rmap_Forall2 in Hvs. intros i Hi.
    destruct (Forall2_In_l _ _ _ i Hvs) as (v & _ & Hv); [|eauto].
    apply in_range. lia. }
  split; [assumption|]. split; [assumption|].
  now apply (totp_compare_result self code k reads Hk Hgen).
Qed.

(** X13.  A wider window accepts what a narrower one accepts, when the
    candidates of the wider window are generated; for an int reading and a
    period that is not 0, that is when the codes of the steps of the wider
    window are generated. *)
Theorem totp_window_monotone (self : TOTP.engine) (code : str)
    (k wider : Z) (reads : nat) :
  fst (TOTP.compare self code k reads) = Ok true ->
  k <= wider ->
  ((forall i, - wider <= i <= wider ->
      exists v, candidate self (TOTP._current_timestamp self reads) i
                = Ok v) ->
   fst (TOTP.compare self code wider reads) = Ok true)
  /\ (forall now,
        TOTP._current_timestamp self reads = Int now ->
        TOTP._period self <> 0 ->
        (forall i, - wider <= i <= wider ->
           exists v, code_at (TOTP.base self) (now / TOTP._period self + i)
                     = Ok v) ->
        fst (TOTP.compare self code wider reads) = Ok true).
Proof.
  intros H Hw.
  apply totp_compare_true_inv in H as (Hk & _ & i & Hi & Hcode).
  assert (Hany : (forall i, - wider <= i <= wider ->
                    exists v,
                      candidate self (TOTP._current_timestamp self reads) i
                      = Ok v) ->
                 fst (TOTP.compare self code wider reads) = Ok true).
  { intros Hgen.
    apply (totp_compare_result self code wider reads ltac:(lia) Hgen).
    exists i. split; [lia | assumption]. }
  split; [assumption|].
  intros now Hnow Hp Hgen. apply Hany. rewrite Hnow.
  now apply int_window_generated.
Qed.

Lemma totp_window_monotone_witness :
  fst (TOTP.compare (rfc_totp 119) (lit "969429") 2 0%nat) = Ok true
  /\ fst (TOTP.compare (rfc_totp_with 30 clock_2_60) (lit "977470") 2 0%nat)
     = Ok true.
Proof.
  split.
  - destruct (totp_window_monotone (rfc_totp 119) (lit "969429") 0 2 0%nat)
      as [_ H]; [vm_compute; reflexivity | lia|].
    apply (H 119); [reflexivity | discriminate|].
    apply (rfc_totp_window_generated 119 2); vm_compute; easy.
  - destruct (totp_window_monotone (rfc_totp_with 30 clock_2_60)
                (lit "977470") 0 2 0%nat)
      as [H _]; [vm_compute; reflexivity | lia|].
    apply H. intros i Hi.
    assert (E : i = -2 \/ i = -1 \/ i = 0 \/ i = 1 \/ i = 2) by lia.
    destruct E as [->|[->|[->|[->| ->]]]]; eexists; vm_compute; reflexivity.
Defined.

(** X14.  [TOTP.compare] keeps no state.  For int readings of the clock
    its answer depends on the clock through the step of the reading only:
    two calls whose int readings fall in the same step give the same answer.
    It is not so for float readings, whose sums with the offsets are
    rounded: with the period 3 the readings [2.0**53 + 4] and [2.0**53 + 6]
    are in the same step, and the code of the step two before is accepted
    at the first and rejected at the second. *)
Theorem totp_same_step_same_answer :
  (forall (self : TOTP.engine) (code : str) (k : Z) (reads reads' : nat)
          (now now' : Z),
      TOTP._current_timestamp self reads = Int now ->
      TOTP._current_timestamp self reads' = Int now' ->
      now / TOTP._period self = now' / TOTP._period self ->
      fst (TOTP.compare self code k reads)
      = fst (TOTP.compare self code k reads'))
  /\ (let self := rfc_totp_with 3 clock_2_53 in
      let step_of t := seconds <- py_int t ;; TOTP.floordiv seconds 3 in
      step_of (TOTP._current_timestamp self 0%nat) = Ok 3002399751580332
      /\ step_of (TOTP._current_timestamp self 1%nat) = Ok 3002399751580332
      /\ code_at (rfc_base 6) 3002399751580330 = Ok (lit "221877")
      /\ fst (TOTP.compare self (lit "221877") 1 0%nat) = Ok true
      /\ fst (TOTP.compare self (lit "221877") 1 1%nat) = Ok false).
Proof.
  split.
  - intros self code k reads reads' now now' Hnow Hnow' Hstep.
    destruct (Z_lt_le_dec k 0) as [Hneg|Hk].
    { now rewrite !totp_compare_negative by assumption. }
    destruct (Z.eq_dec (TOTP._period self) 0) as [Hz|Hp].
    { now rewrite !totp_compare_zero_period, Hnow, Hnow' by assumption. }
    rewrite !totp_compare_pure by assumption. cbn [fst].
    rewrite Hnow, Hnow'.
    rewrite (rmap_ext (candidate self (Int now))
                      (candidate self (Int now'))); [reflexivity|].
    intros i _. rewrite !candidate_int by assumption. now rewrite Hstep.
  - cbv zeta.
    split; [|split; [|split; [|split]]]; vm_compute; reflexivity.
Qed.

Lemma totp_same_step_same_answer_witness :
  fst (TOTP.compare (rfc_totp_ticking 90) (lit "969429") 1 0%nat)
  = fst (TOTP.compare (rfc_totp_ticking 90) (lit "969429") 1 1%nat).
Proof.
  destruct totp_same_step_same_answer as [H _].
  apply (H (rfc_totp_ticking 90) (lit "969429") 1 0%nat 1%nat 90 91);
    [reflexivity | reflexivity | vm_compute; reflexivity].
Defined.

(** ** The provisioning URI *)

Lemma str_eqb_eq (a b : str) : str_eqb a b = true <-> a = b.
Proof.
  unfold str_eqb. destruct (list_eq_dec ascii_dec a b); split; congruence.
Qed.






Lemma chr_ord (c : ascii) : chr (ord c) = c.
Proof. unfold chr, ord. now rewrite Nat2Z.id, ascii_nat_embedding. Qed.

Lemma quote_digit : forall c, is_digit c = true -> quote [c] = [c].
Proof. by_ascii_cases. Qed.

Lemma quote_cons (c : ascii) (s : str) : quote (c :: s) = quote [c] ++ quote s.
Proof.
  unfold quote. cbn [utf8_encode flat_map].
  now rewrite !flat_map_app, app_nil_r.
Qed.

Lemma quote_digits (s : str) :
  Forall (fun c => is_digit c = true) s -> quote s = s.
Proof.
  induction 1 as [|c r Hc _ IH]; [reflexivity|].
  now rewrite quote_cons, quote_digit, IH.
Qed.

(** [quote(str(n))] is [str(n)]: digits and the minus sign are kept. *)
Lemma quote_py_str (n : Z) : quote (py_str n) = py_str n.
Proof.
  destruct n as [|p|p].
  - reflexivity.
  - apply quote_digits. apply py_str_digits. lia.
  - unfold py_str. cbn [Z.to_int NilZero.string_of_int list_ascii_of_string].
    rewrite quote_cons. change (quote ["-"%char]) with ["-"%char].
    cbn [app]. f_equal. apply quote_digits.
    apply (nilzero_digits (Pos.to_uint p)).
Qed.

(** X16.  [get_uri] of an engine never raises: the URI is the stem every
    engine of its class has, followed by its one extra parameter, the
    current counter of an HOTP engine or the period of a TOTP engine,
    written in plain decimal. *)
Theorem engine_uri_returns :
  (forall self : HOTP.engine,
      exists stem,
        uri_stem HOTP.cls (HOTP.base self) = Returned stem
        /\ HOTP.get_uri self
           = Returned (stem ++ lit "&counter=" ++ py_str (HOTP.counter self)))
  /\ (forall self : TOTP.engine,
        exists stem,
          uri_stem TOTP.cls (TOTP.base self) = Returned stem
          /\ TOTP.get_uri self
             = Returned (stem ++ lit "&period=" ++ py_str (TOTP._period self))).
Proof.
  split; intros self; eexists; (split; [reflexivity|]).
  - unfold HOTP.get_uri, _get_uri. cbn [add_params HOTP.cls
      _extra_uri_parameters existsb negb].
    replace (str_eqb (lit "counter") (lit "counter")) with true
      by (symmetry; now apply str_eqb_eq).
    cbn [orb negb]. now rewrite quote_py_str.
  - unfold TOTP.get_uri, _get_uri. cbn [add_params TOTP.cls
      _extra_uri_parameters existsb negb].
    replace (str_eqb (lit "period") (lit "period")) with true
      by (symmetry; now apply str_eqb_eq).
    cbn [orb negb]. now rewrite quote_py_str.
Qed.

(** The URI of the RFC 4226 engine, and how it follows the counter. *)
Example rfc_hotp_uri :
  HOTP.get_uri (rfc_hotp 0)
  = Returned (lit "otpauth://hotp/Example?secret=GEZDGNBVGY3TQOJQGEZDGNBVGY3TQOJQ&issuer=Example&digits=6&algorithm=sha1&counter=0")
  /\ HOTP.get_uri (snd (HOTP.get_otp None true (rfc_hotp 0)))
     = Returned (lit "otpauth://hotp/Example?secret=GEZDGNBVGY3TQOJQGEZDGNBVGY3TQOJQ&issuer=Example&digits=6&algorithm=sha1&counter=1").
Proof. split; vm_compute; reflexivity. Qed.

(** *** No component can write a separator *)

Lemma count_char_app (x : ascii) (a b : str) :
  count_char x (a ++ b) = (count_char x a + count_char x b)%nat.
Proof. apply count_occ_app. Qed.

Lemma count_char_cons (x c : ascii) (s : str) :
  count_char x (c :: s)
  = ((if Ascii.eqb c x then 1 else 0) + count_char x s)%nat.
Proof.
  unfold count_char. simpl. destruct (ascii_dec c x) as [->|Hn].
  - now rewrite Ascii.eqb_refl.
  - apply Ascii.eqb_neq in Hn. now rewrite Hn.
Qed.

Lemma count_char_free (x : ascii) (s : str) :
  is_separator x = true ->
  Forall (fun c => is_separator c = false) s -> count_char x s = 0%nat.
Proof.
  intros Hx Hs. apply count_occ_not_In. intros Hin.
  rewrite Forall_forall in Hs. specialize (Hs x Hin). congruence.
Qed.

Lemma byte_check (P : Z -> bool) :
  forallb (fun n => P (Z.of_nat n)) (seq 0 256) = true ->
  forall b, 0 <= b < 256 -> P b = true.
Proof.
  intros H b Hb. rewrite forallb_forall in H.
  specialize (H (Z.to_nat b)). rewrite Z2Nat.id in H by lia.
  apply H. apply in_seq. lia.
Qed.

Lemma safe_byte_range (b : Z) :
  is_always_safe b || (b =? 47) = true -> 0 <= b < 256.
Proof.
  unfold is_always_safe. rewrite !orb_true_iff, !andb_true_iff.
  rewrite !Z.leb_le, !Z.eqb_eq. lia.
Qed.

Lemma safe_byte_no_separator (b : Z) :
  is_always_safe b || (b =? 47) = true -> is_separator (chr b) = false.
Proof.
  intros H. pose proof (safe_byte_range b H) as Hb.
  assert (E : implb (is_always_safe b || (b =? 47))
                    (negb (is_separator (chr b))) = true).
  { apply (byte_check (fun b => implb (is_always_safe b || (b =? 47))
                                      (negb (is_separator (chr b)))));
      [vm_compute; reflexivity | assumption]. }
  rewrite H in E. simpl in E. now apply negb_true_iff in E.
Qed.

Lemma nth_no_separator (l : str) (d : ascii) (n : nat) :
  Forall (fun c => is_separator c = false) l -> is_separator d = false ->
  is_separator (nth n l d) = false.
Proof.
  intros Hl Hd. destruct (nth_in_or_default n l d) as [Hin| ->];
    [|assumption].
  rewrite Forall_forall in Hl. now apply Hl.
Qed.

Lemma hex_upper_no_separator (n : Z) : is_separator (hex_upper n) = false.
Proof.
  unfold hex_upper. apply nth_no_separator; [|reflexivity].
  repeat constructor.
Qed.

Lemma Forall_flat_map {A B} (P : B -> Prop) (f : A -> list B) (l : list A) :
  (forall a, Forall P (f a)) -> Forall P (flat_map f l).
Proof.
  intros H. induction l as [|a r IH]; simpl; [constructor|].
  apply Forall_app. auto.
Qed.

Lemma quote_no_separator (s : str) :
  Forall (fun c => is_separator c = false) (quote s).
Proof.
  unfold quote. apply Forall_flat_map. intros b. unfold quote_byte.
  destruct (is_always_safe b || (b =? 47)) eqn:E.
  - constructor; [now apply safe_byte_no_separator | constructor].
  - repeat constructor; apply hex_upper_no_separator.
Qed.

Lemma b32tab_no_separator (d : Z) : is_separator (b32tab d) = false.
Proof.
  unfold b32tab. apply nth_no_separator; [|reflexivity].
  repeat constructor.
Qed.

Lemma Forall_firstn {A} (P : A -> Prop) (n : nat) (l : list A) :
  Forall P l -> Forall P (firstn n l).
Proof.
  intros H. rewrite <- (firstn_skipn n l) in H.
  now apply Forall_app in H.
Qed.

Lemma b32encode_no_separator (s : bytes) :
  Forall (fun c => is_separator c = false) (b32encode s).
Proof.
  unfold b32encode.
  set (encoded := flat_map b32encode_quantum _).
  assert (He : Forall (fun c => is_separator c = false) encoded).
  { apply Forall_flat_map. intros five. unfold b32encode_quantum.
    apply Forall_map, Forall_forall. intros i _. apply b32tab_no_separator. }
  assert (Hpad : forall n,
             Forall (fun c => is_separator c = false)
                    (firstn (length encoded - n) encoded
                       ++ repeat pad_char n)).
  { intros n. apply Forall_app. split; [now apply Forall_firstn|].
    now apply Forall_repeat. }
  destruct (length s mod 5)%nat as [|[|[|[|[|?]]]]]; auto.
Qed.

Lemma py_str_no_separator (n : Z) :
  Forall (fun c => is_separator c = false) (py_str n).
Proof.
  rewrite <- quote_py_str. apply quote_no_separator.
Qed.

Lemma uri_separator_count (x : ascii) (cls : otp_class) (b : OTPBase)
    (key : str) (value : Z) (uri : str) :
  is_separator x = true ->
  _get_uri cls (_secret b) (_issuer b) (_account b) (_n_digits b)
           (_algorithm_name b) [(key, value)] = Returned uri ->
  count_char x uri
  = (count_char x (lit "otpauth:///?secret=&issuer=&digits=&algorithm=&=")
     + count_char x key)%nat.
Proof.
  intros Hx. unfold _get_uri. cbn [add_params].
  destruct (negb _); [discriminate|].
  intros H. injection H as <-.
  destruct (_account b) as [a|].
  all: repeat (rewrite count_char_app || rewrite count_char_cons).
  all: repeat match goal with
       | |- context [count_char ?c (quote ?s)] =>
           rewrite (count_char_free c (quote s))
             by (assumption || apply quote_no_separator)
       end.
  all: rewrite (count_char_free x (b32encode _) Hx)
         by apply b32encode_no_separator.
  all: rewrite (count_char_free x (py_str _) Hx) by apply py_str_no_separator.
  all: unfold is_separator in Hx; rewrite !orb_true_iff, !Ascii.eqb_eq in Hx.
  all: unfold lit; cbn [list_ascii_of_string].
  all: repeat rewrite count_char_cons.
  all: change (count_char x []) with 0%nat.
  all: generalize (count_char x key); intros n.
  all: destruct Hx as [[->| ->]| ->]; cbn; lia.
Qed.

(** X17.  No issuer, account or algorithm name can write a separator into
    the URI of an engine: whatever they contain, the URI has exactly four
    [&], one [?] and no [#]. *)
Theorem engine_uri_separators :
  (forall (self : HOTP.engine) uri,
      HOTP.get_uri self = Returned uri ->
      count_char "&" uri = 4%nat /\ count_char "?" uri = 1%nat
      /\ count_char "#" uri = 0%nat)
  /\ (forall (self : TOTP.engine) uri,
        TOTP.get_uri self = Returned uri ->
        count_char "&" uri = 4%nat /\ count_char "?" uri = 1%nat
        /\ count_char "#" uri = 0%nat).
Proof.
  split; intros self uri H.
  - unfold HOTP.get_uri in H.
    rewrite (uri_separator_count "&" _ _ _ _ _ eq_refl H),
            (uri_separator_count "?" _ _ _ _ _ eq_refl H),
            (uri_separator_count "#" _ _ _ _ _ eq_refl H).
    repeat split.
  - unfold TOTP.get_uri in H.
    rewrite (uri_separator_count "&" _ _ _ _ _ eq_refl H),
            (uri_separator_count "?" _ _ _ _ _ eq_refl H),
            (uri_separator_count "#" _ _ _ _ _ eq_refl H).
    repeat split.
Qed.

Lemma engine_uri_separators_witness :
  exists uri,
    HOTP.get_uri tricky_hotp = Returned uri
    /\ count_char "&" uri = 4%nat /\ count_char "?" uri = 1%nat
    /\ count_char "#" uri = 0%nat.
Proof.
  destruct engine_uri_separators as [H _].
  eexists. split; [reflexivity|].
  apply (H tricky_hotp). reflexivity.
Defined.

(** ** The constructors *)

Lemma lower_char_idempotent :
  forall c, lower_char (lower_char c) = lower_char c.
Proof. by_ascii_cases. Qed.

Lemma lower_idempotent (s : str) : lower (lower s) = lower s.
Proof.
  unfold lower. rewrite map_map. apply map_ext.
  apply lower_char_idempotent.
Qed.

Lemma setup_lower (hashlib : hashlib_module) (secret : bytes + str)
    (issuer : str) (account : option str) (n_digits : Z) (algorithm : str) :
  _setup hashlib secret issuer account n_digits (lower algorithm)
  = _setup hashlib secret issuer account n_digits algorithm.
Proof. unfold _setup. now rewrite lower_idempotent. Qed.

(** X18.  Algorithm names are resolved without regard to case: a
    constructor given a name and one given its lower-case form end the same
    way.  The engine built keeps the lower-case name, which is the name the
    registry resolved, and it keeps the counter or the period it was given
    without checking them. *)
Theorem init_algorithm_case (hashlib : hashlib_module)
    (secret : bytes + str) (issuer : str) (account : option str)
    (n_digits : Z) (algorithm : str) :
  (forall counter,
      HOTP.__init__ hashlib secret issuer account n_digits (lower algorithm)
                    counter
      = HOTP.__init__ hashlib secret issuer account n_digits algorithm counter)
  /\ (forall period time_source,
        TOTP.__init__ hashlib secret issuer account n_digits (lower algorithm)
                      period time_source
        = TOTP.__init__ hashlib secret issuer account n_digits algorithm
                        period time_source)
  /\ (forall counter self,
        HOTP.__init__ hashlib secret issuer account n_digits algorithm counter
        = Returned self ->
        _algorithm_name (HOTP.base self) = lower algorithm
        /\ hashlib (lower algorithm) = Some (_algorithm (HOTP.base self))
        /\ HOTP.counter self = counter)
  /\ (forall period time_source self,
        TOTP.__init__ hashlib secret issuer account n_digits algorithm
                      period time_source
        = Returned self ->
        _algorithm_name (TOTP.base self) = lower algorithm
        /\ hashlib (lower algorithm) = Some (_algorithm (TOTP.base self))
        /\ TOTP._period self = period).
Proof.
  split; [|split; [|split]].
  - intros c. unfold HOTP.__init__. now rewrite setup_lower.
  - intros p ts. unfold TOTP.__init__. now rewrite setup_lower.
  - intros c self. unfold HOTP.__init__, _setup, _get_algorithm.
    destruct (match secret with inl raw => _ | inr text => _ end);
      [|discriminate].
    destruct (hashlib (lower algorithm)); [|discriminate].
    intros H. injection H as <-. auto.
  - intros p ts self. unfold TOTP.__init__, _setup, _get_algorithm.
    destruct (match secret with inl raw => _ | inr text => _ end);
      [|discriminate].
    destruct (hashlib (lower algorithm)); [|discriminate].
    intros H. injection H as <-. auto.
Qed.

Lemma init_algorithm_case_witness :
  HOTP.__init__ sha1_only (inl rfc_secret) (lit "Example") None 6
                (lit "SHA1") 0
  = Returned (rfc_hotp 0)
  /\ _algorithm_name (HOTP.base (rfc_hotp 0)) = lower (lit "SHA1")
  /\ sha1_only (lower (lit "SHA1"))
     = Some (_algorithm (HOTP.base (rfc_hotp 0)))
  /\ HOTP.counter (rfc_hotp 0) = 0.
Proof.
  destruct (init_algorithm_case sha1_only (inl rfc_secret) (lit "Example")
              None 6 (lit "SHA1")) as (Heq & _ & Hinv & _).
  assert (E : HOTP.__init__ sha1_only (inl rfc_secret) (lit "Example") None 6
                            (lit "SHA1") 0 = Returned (rfc_hotp 0)).
  { rewrite <- Heq. reflexivity. }
  split; [exact E | exact (Hinv 0 (rfc_hotp 0) E)].
Defined.

(** ** Base32: the secret of the URI read back by the constructor *)

Lemma small_check (n : nat) (P : Z -> bool) :
  forallb (fun i => P (Z.of_nat i)) (seq 0 n) = true ->
  forall b, 0 <= b < Z.of_nat n -> P b = true.
Proof.
  intros H b Hb. rewrite forallb_forall in H.
  specialize (H (Z.to_nat b)). rewrite Z2Nat.id in H by lia.
  apply H. apply in_seq. lia.
Qed.

Lemma b32rev_b32tab (d : Z) : 0 <= d < 32 -> b32rev (b32tab d) = Some d.
Proof.
  intros Hd.
  assert (E : (match b32rev (b32tab d) with
               | Some d' => d' =? d
               | None => false
               end) = true).
  { apply (small_check 32 (fun d => match b32rev (b32tab d) with
                                    | Some d' => d' =? d
                                    | None => false
                                    end));
      [vm_compute; reflexivity | assumption]. }
  destruct (b32rev (b32tab d)) as [d'|]; [|discriminate].
  apply Z.eqb_eq in E. now subst.
Qed.

Lemma b32tab_not_pad (d : Z) : Ascii.eqb (b32tab d) pad_char = false.
Proof.
  unfold b32tab.
  destruct (nth_in_or_default (Z.to_nat d) b32alphabet "A"%char)
    as [Hin| ->]; [|reflexivity].
  revert Hin. generalize (nth (Z.to_nat d) b32alphabet "A"%char).
  intros c Hin. unfold b32alphabet, lit in Hin. cbn [list_ascii_of_string] in Hin.
  repeat (destruct Hin as [<-|Hin]; [reflexivity|]). destruct Hin.
Qed.

(** Appending a byte to a big-endian number. *)
Lemma lor_shiftl_small (a b k : Z) :
  0 <= k -> 0 <= b < 2 ^ k -> Z.lor (Z.shiftl a k) b = a * 2 ^ k + b.
Proof.
  intros Hk Hb. rewrite Z.shiftl_mul_pow2 by assumption.
  assert (Hland : Z.land (a * 2 ^ k) b = 0); 
    [|now rewrite <- Z.lxor_lor, Z.add_nocarry_lxor by assumption].
  apply Z.bits_inj'. intros n Hn. rewrite Z.land_spec, Z.bits_0.
  destruct (Z_lt_le_dec n k) as [Hlt|Hge].
  - now rewrite Z.mul_pow2_bits_low.
  - destruct (Z.eq_dec b 0) as [->|Hb0].
    + now rewrite Z.bits_0, andb_false_r.
    + rewrite (Z.bits_above_log2 b n), andb_false_r; [reflexivity | lia|].
      apply Z.lt_le_trans with k; [|assumption].
      apply Z.log2_lt_pow2; lia.
Qed.

Lemma be_int_snoc (bs : bytes) (b : Z) :
  0 <= b < 256 -> be_int (bs ++ [b]) = be_int bs * 256 + b.
Proof.
  intros Hb. unfold be_int. rewrite fold_left_app. cbn [fold_left].
  now rewrite (lor_shiftl_small _ b 8) by lia.
Qed.

Lemma be_int_range (bs : bytes) :
  Forall is_byte bs -> 0 <= be_int bs < 256 ^ Z.of_nat (length bs).
Proof.
  induction bs as [|b r IH] using rev_ind; intros H.
  - vm_compute. split; [discriminate | reflexivity].
  - apply Forall_app in H as [Hr Hb]. apply Forall_inv in Hb.
    unfold is_byte in Hb. specialize (IH Hr).
    rewrite be_int_snoc, length_app by assumption. cbn [length].
    rewrite Nat2Z.inj_add, Z.pow_add_r by lia.
    change (256 ^ Z.of_nat 1) with 256. nia.
Qed.

(** The big-endian bytes of a big-endian number. *)
Lemma be_bytes_be_int (bs : bytes) :
  Forall is_byte bs -> be_bytes (length bs) (be_int bs) = bs.
Proof.
  induction bs as [|b r IH] using rev_ind; intros H; [reflexivity|].
  apply Forall_app in H as [Hr Hb]. apply Forall_inv in Hb.
  unfold is_byte in Hb. specialize (IH Hr).
  rewrite be_int_snoc, length_app by assumption. cbn [length].
  rewrite Nat.add_1_r. unfold be_bytes. cbn [seq].
  rewrite <- seq_shift. cbn [rev]. rewrite map_app. cbn [map].
  rewrite <- map_rev, map_map. f_equal.
  - unfold be_bytes in IH. rewrite <- IH at 2.
    apply map_ext. intros i. f_equal.
    rewrite Nat2Z.inj_succ.
    replace (8 * Z.succ (Z.of_nat i)) with (8 + 8 * Z.of_nat i) by lia.
    rewrite <- Z.shiftr_shiftr by lia. f_equal.
    rewrite Z.shiftr_div_pow2 by lia. change (2 ^ 8) with 256.
    rewrite Z.add_comm, Z.div_add by lia.
    rewrite Z.div_small by lia. reflexivity.
  - f_equal. change (8 * Z.of_nat 0) with 0. rewrite Z.shiftr_0_r.
    change 255 with (Z.ones 8). rewrite Z.land_ones by lia.
    change (2 ^ 8) with 256.
    rewrite Z.add_comm, Z.mod_add by lia. now apply Z.mod_small.
Qed.

Lemma b32decode_digits (c : Z) (k : nat) :
  forall acc,
    b32decode_quantum acc
      (map (fun i => b32tab (Z.land (Z.shiftr c (5 * Z.of_nat i)) 31))
           (rev (seq 0 k)))
    = Some (acc * 2 ^ (5 * Z.of_nat k) + c mod 2 ^ (5 * Z.of_nat k)).
Proof.
  induction k as [|k IH]; intros acc.
  - cbn [seq rev map b32decode_quantum]. change (2 ^ (5 * Z.of_nat 0)) with 1.
    rewrite Z.mod_1_r. f_equal. lia.
  - rewrite seq_S, rev_app_distr. cbn [rev app map b32decode_quantum Nat.add].
    rewrite b32rev_b32tab by (apply (land_mask_range _ 5); lia).
    rewrite IH. f_equal.
    change 31 with (Z.ones 5). rewrite Z.land_ones by lia.
    rewrite Z.shiftr_div_pow2, Z.shiftl_mul_pow2 by lia.
    replace (5 * Z.of_nat (S k)) with (5 * Z.of_nat k + 5) by lia.
    rewrite Z.pow_add_r by lia.
    rewrite (Z.rem_mul_r c (2 ^ (5 * Z.of_nat k)) (2 ^ 5)) by lia.
    ring.
Qed.

Lemma seq_offset (p m : nat) : seq p m = map (fun i => (p + i)%nat) (seq 0 m).
Proof.
  revert p. induction m as [|m IH]; intros p; [reflexivity|].
  cbn [seq map]. rewrite Nat.add_0_r. f_equal.
  rewrite IH, <- seq_shift, map_map. apply map_ext. intros i. lia.
Qed.

Lemma firstn_high_digits {A} (f : nat -> A) (p m : nat) :
  firstn m (map f (rev (seq 0 (p + m))))
  = map (fun i => f (p + i)%nat) (rev (seq 0 m)).
Proof.
  rewrite seq_app, rev_app_distr, map_app. cbn [Nat.add].
  rewrite firstn_app, length_map, length_rev, length_seq, Nat.sub_diag.
  cbn [firstn]. rewrite app_nil_r.
  rewrite firstn_all2 by (rewrite length_map, length_rev, length_seq; lia).
  rewrite (seq_offset p m), <- map_rev, map_map. reflexivity.
Qed.

Lemma quantum_length (five : bytes) : length (b32encode_quantum five) = 8%nat.
Proof. reflexivity. Qed.

Lemma quantum_no_pad (five : bytes) :
  Forall (fun c => Ascii.eqb c pad_char = false) (b32encode_quantum five).
Proof.
  unfold b32encode_quantum. apply Forall_map, Forall_forall.
  intros i _. apply b32tab_not_pad.
Qed.

(** The characters of a group of five bytes, read back. *)
Lemma quantum_decoded (five : bytes) :
  length five = 5%nat -> Forall is_byte five ->
  b32decode_quantum 0 (b32encode_quantum five) = Some (be_int five).
Proof.
  intros Hlen Hb. unfold b32encode_quantum. cbv zeta.
  rewrite b32decode_digits. f_equal.
  pose proof (be_int_range five Hb) as R. rewrite Hlen in R.
  change (256 ^ Z.of_nat 5) with (2 ^ 40) in R.
  change (2 ^ (5 * Z.of_nat 8)) with (2 ^ 40).
  rewrite Z.mod_small by assumption. lia.
Qed.

(** The first [m] characters of a group, read back: the high bits. *)
Lemma partial_quantum_decoded (five : bytes) (p m : nat) :
  (p + m = 8)%nat -> length five = 5%nat -> Forall is_byte five ->
  b32decode_quantum 0 (firstn m (b32encode_quantum five))
  = Some (Z.shiftr (be_int five) (5 * Z.of_nat p)).
Proof.
  intros Hpm Hlen Hb. unfold b32encode_quantum. cbv zeta.
  rewrite <- Hpm, firstn_high_digits.
  rewrite (map_ext _ (fun i => b32tab (Z.land
             (Z.shiftr (Z.shiftr (be_int five) (5 * Z.of_nat p))
                       (5 * Z.of_nat i)) 31))).
  2:{ intros i. rewrite Z.shiftr_shiftr by lia. do 3 f_equal. lia. }
  rewrite b32decode_digits. f_equal.
  pose proof (be_int_range five Hb) as R. rewrite Hlen in R.
  change (256 ^ Z.of_nat 5) with (2 ^ 40) in R.
  rewrite Z.mod_small; [lia|].
  rewrite Z.shiftr_div_pow2 by lia. split.
  - apply Z.div_pos; lia.
  - apply Z.div_lt_upper_bound; [lia|].
    rewrite <- Z.pow_add_r by lia.
    replace (5 * Z.of_nat p + 5 * Z.of_nat m) with 40 by lia. lia.
Qed.

(** ** Groups *)

Lemma groups_of_blocks {A} (size : nat) (blocks : list (list A)) :
  (0 < size)%nat ->
  Forall (fun b => length b = size) blocks ->
  forall (tail : list A) (fuel : nat),
    (length tail <= size)%nat ->
    (length (concat blocks ++ tail) <= fuel)%nat ->
    groups_of fuel size (concat blocks ++ tail)
    = blocks ++ match tail with [] => [] | _ => [tail] end.
Proof.
  intros Hsize. induction 1 as [|b bs Hb _ IH]; intros tail fuel Ht Hfuel.
  - cbn [concat app] in *. destruct tail as [|x r]; [now destruct fuel|].
    destruct fuel as [|fuel]; [simpl in Hfuel; lia|].
    cbn [groups_of]. rewrite firstn_all2, skipn_all2 by assumption.
    now destruct fuel.
  - cbn [concat] in *. rewrite <- app_assoc in *.
    assert (Hne : b <> []) by (intros ->; simpl in Hb; lia).
    destruct fuel as [|fuel].
    { rewrite length_app in Hfuel. destruct b; [contradiction|].
      simpl in Hfuel. lia. }
    destruct b as [|x b']; [contradiction|].
    change ((x :: b') ++ concat bs ++ tail)
      with (x :: (b' ++ concat bs ++ tail)).
    cbn [groups_of].
    change (x :: (b' ++ concat bs ++ tail))
      with ((x :: b') ++ concat bs ++ tail).
    rewrite firstn_app, skipn_app, Hb, Nat.sub_diag.
    rewrite firstn_all2, skipn_all2 by lia.
    cbn [firstn skipn app]. rewrite app_nil_r.
    rewrite IH; [reflexivity | assumption|].
    rewrite length_app in Hfuel. simpl in Hfuel, Hb. lia.
Qed.

(** Every list is whole blocks of five followed by fewer than five. *)
Lemma blocks_of_five {A} (n : nat) :
  forall s : list A,
    (length s <= n)%nat ->
    exists blocks tail,
      s = concat blocks ++ tail
      /\ Forall (fun b => length b = 5%nat) blocks
      /\ (length tail < 5)%nat.
Proof.
  induction n as [|n IH]; intros s Hn.
  - exists [], s. destruct s; simpl in *; [auto with arith | lia].
  - destruct (Nat.lt_ge_cases (length s) 5) as [Hlt|Hge].
    + exists [], s. auto.
    + destruct (IH (skipn 5 s)) as (blocks & tail & E & Hb & Ht).
      { rewrite length_skipn. lia. }
      exists (firstn 5 s :: blocks), tail.
      split; [|split; [|assumption]].
      * cbn [concat]. rewrite <- app_assoc, <- E. now rewrite firstn_skipn.
      * constructor; [|assumption]. rewrite length_firstn. lia.
Qed.

Lemma length_concat_blocks {A} (size : nat) (blocks : list (list A)) :
  Forall (fun b => length b = size) blocks ->
  length (concat blocks) = (size * length blocks)%nat.
Proof.
  induction 1 as [|b bs Hb _ IH]; simpl; [lia|].
  rewrite length_app, IH, Hb. lia.
Qed.

Lemma Forall_concat_inv {A} (P : A -> Prop) (blocks : list (list A)) :
  Forall P (concat blocks) -> Forall (Forall P) blocks.
Proof.
  induction blocks as [|b bs IH]; simpl; intros H; constructor.
  - now apply Forall_app in H.
  - apply IH. now apply Forall_app in H.
Qed.

(** ** [rstrip] *)

Lemma lstrip_pad_repeat (p : nat) (s : str) :
  lstrip_pad (repeat pad_char p ++ s) = lstrip_pad s.
Proof. induction p as [|p IH]; [reflexivity|]. simpl. exact IH. Qed.

Lemma lstrip_pad_none (s : str) :
  Forall (fun c => Ascii.eqb c pad_char = false) s -> lstrip_pad s = s.
Proof. intros [|c r Hc _]; [reflexivity|]. simpl. now rewrite Hc. Qed.

Lemma rev_repeat {A} (x : A) (n : nat) : rev (repeat x n) = repeat x n.
Proof.
  induction n as [|n IH]; [reflexivity|].
  simpl. rewrite IH. clear IH.
  induction n as [|n IH]; [reflexivity|]. simpl. now rewrite IH.
Qed.

Lemma rstrip_pad_padded (s : str) (p : nat) :
  Forall (fun c => Ascii.eqb c pad_char = false) s ->
  rstrip_pad (s ++ repeat pad_char p) = s.
Proof.
  intros H. unfold rstrip_pad.
  rewrite rev_app_distr, rev_repeat, lstrip_pad_repeat.
  rewrite lstrip_pad_none by now apply Forall_rev.
  apply rev_involutive.
Qed.

(** ** The loop of [b32decode] over whole groups *)

Lemma b32decode_loop_blocks (blocks : list bytes) :
  Forall (fun b => length b = 5%nat) blocks ->
  Forall (Forall is_byte) blocks ->
  forall decoded acc rest,
    exists acc',
      b32decode_loop decoded acc (map b32encode_quantum blocks ++ rest)
      = b32decode_loop (decoded ++ concat blocks) acc' rest.
Proof.
  induction 1 as [|b bs Hb _ IH]; intros Hbytes decoded acc rest.
  - exists acc. cbn [map app concat]. now rewrite app_nil_r.
  - inversion Hbytes as [|? ? Hbb Hbs]; subst.
    cbn [map app b32decode_loop concat].
    rewrite quantum_decoded by assumption.
    destruct (IH Hbs (decoded ++ be_bytes 5 (be_int b)) (be_int b) rest)
      as [acc' E].
    exists acc'. rewrite E. f_equal.
    rewrite <- Hb at 1. rewrite be_bytes_be_int by assumption.
    now rewrite app_assoc.
Qed.

Lemma be_int_zeros (bs : bytes) (k : nat) :
  be_int (bs ++ repeat 0 k) = be_int bs * 256 ^ Z.of_nat k.
Proof.
  induction k as [|k IH].
  - rewrite app_nil_r. change (256 ^ Z.of_nat 0) with 1. lia.
  - change (repeat 0 (S k)) with (0 :: repeat 0 k).
    rewrite repeat_cons, app_assoc, be_int_snoc, IH by lia.
    rewrite Nat2Z.inj_succ, Z.pow_succ_r by lia. ring.
Qed.

Lemma b32encode_whole (blocks : list bytes) :
  Forall (fun b => length b = 5%nat) blocks ->
  b32encode (concat blocks) = flat_map b32encode_quantum blocks.
Proof.
  intros Hb. unfold b32encode.
  rewrite (length_concat_blocks 5 blocks Hb).
  rewrite Nat.mul_comm, Nat.Div0.mod_mul. cbn [Nat.eqb].
  rewrite <- (app_nil_r (concat blocks)) at 2.
  rewrite groups_of_blocks; [now rewrite app_nil_r | lia | assumption | |].
  - simpl. lia.
  - rewrite app_nil_r, (length_concat_blocks 5 blocks Hb). lia.
Qed.

Lemma b32encode_partial (blocks : list bytes) (tail : bytes) (p : nat) :
  Forall (fun b => length b = 5%nat) blocks ->
  In (length tail, p) [(1, 6); (2, 4); (3, 3); (4, 1)]%nat ->
  b32encode (concat blocks ++ tail)
  = flat_map b32encode_quantum blocks
      ++ firstn (8 - p)
           (b32encode_quantum (tail ++ repeat 0 (5 - length tail)))
      ++ repeat pad_char p.
Proof.
  intros Hb Hp.
  assert (Ht : (0 < length tail < 5)%nat).
  { repeat (destruct Hp as [Hp|Hp]; [injection Hp as Hp _; lia|]).
    destruct Hp. }
  unfold b32encode.
  assert (Hmod : (length (concat blocks ++ tail) mod 5 = length tail)%nat).
  { rewrite length_app, (length_concat_blocks 5 blocks Hb).
    rewrite Nat.add_comm, (Nat.mul_comm 5), Nat.Div0.mod_add.
    apply Nat.mod_small. lia. }
  rewrite Hmod.
  destruct (Nat.eqb_spec (length tail) 0); [lia|].
  rewrite <- app_assoc.
  rewrite groups_of_blocks; [|lia | assumption | |].
  2:{ rewrite length_app, repeat_length. lia. }
  2:{ lia. }
  assert (Hnil : tail ++ repeat 0 (5 - length tail) <> []).
  { destruct tail; [simpl in Ht; lia | discriminate]. }
  destruct (tail ++ repeat 0 (5 - length tail)) as [|x r] eqn:E;
    [contradiction|].
  rewrite flat_map_app. cbn [flat_map]. rewrite app_nil_r.
  set (enc := flat_map b32encode_quantum blocks).
  set (q := b32encode_quantum (x :: r)).
  assert (Hpad : forall k, (k <= 8)%nat ->
            firstn (length (enc ++ q) - k) (enc ++ q) ++ repeat pad_char k
            = enc ++ firstn (8 - k) q ++ repeat pad_char k).
  { intros k Hk. rewrite length_app, firstn_app.
    change (length q) with 8%nat.
    rewrite firstn_all2 by lia.
    replace (length enc + 8 - k - length enc)%nat with (8 - k)%nat by lia.
    now rewrite <- app_assoc. }
  repeat (destruct Hp as [Hp|Hp];
          [injection Hp as H1 H2; rewrite <- H1, <- H2; apply Hpad; lia|]).
  destruct Hp.
Qed.

Lemma b32decode_whole (blocks : list bytes) :
  Forall (fun b => length b = 5%nat) blocks ->
  Forall (Forall is_byte) blocks ->
  b32decode (flat_map b32encode_quantum blocks) = Returned (concat blocks).
Proof.
  intros Hlen Hbytes. unfold b32decode.
  set (enc := flat_map b32encode_quantum blocks).
  assert (Hq : Forall (fun q => length q = 8%nat)
                      (map b32encode_quantum blocks)).
  { apply Forall_map, Forall_forall. intros b _. apply quantum_length. }
  assert (Henc : enc = concat (map b32encode_quantum blocks))
    by apply flat_map_concat_map.
  assert (Hl : length enc = (8 * length blocks)%nat).
  { rewrite Henc, (length_concat_blocks 8 _ Hq), length_map. reflexivity. }
  assert (Hnopad : Forall (fun c => Ascii.eqb c pad_char = false) enc).
  { apply Forall_flat_map. intros b. apply quantum_no_pad. }
  assert (Hstrip : rstrip_pad enc = enc).
  { pose proof (rstrip_pad_padded enc 0 Hnopad) as H.
    cbn [repeat] in H. now rewrite app_nil_r in H. }
  rewrite Hstrip, Hl, Nat.mul_comm, Nat.Div0.mod_mul, Nat.sub_diag.
  cbn [Nat.eqb negb existsb orb andb].
  assert (Hgroups : groups_of (length blocks * 8) 8 enc
                    = map b32encode_quantum blocks).
  { rewrite <- (app_nil_r enc), Henc.
    rewrite groups_of_blocks; [apply app_nil_r | lia | assumption
                              | simpl; lia |].
    rewrite app_nil_r, <- Henc, Hl. lia. }
  rewrite Hgroups.
  destruct (b32decode_loop_blocks blocks Hlen Hbytes [] 0 []) as [acc' E].
  rewrite app_nil_r in E. rewrite E. reflexivity.
Qed.

Lemma b32decode_partial (blocks : list bytes) (tail : bytes) (p m : nat) :
  Forall (fun b => length b = 5%nat) blocks ->
  Forall (Forall is_byte) blocks ->
  Forall is_byte tail ->
  (0 < length tail < 5)%nat ->
  (p + m = 8)%nat -> (0 < m)%nat ->
  existsb (Nat.eqb p) [0; 1; 3; 4; 6]%nat = true -> (0 < p)%nat ->
  (5 * p <= 8 * (5 - length tail))%nat ->
  ((43 - 5 * p) / 8 = length tail)%nat ->
  b32decode
    (flat_map b32encode_quantum blocks
       ++ firstn m (b32encode_quantum (tail ++ repeat 0 (5 - length tail)))
       ++ repeat pad_char p)
  = Returned (concat blocks ++ tail).
Proof.
  intros Hlen Hbytes Htb Ht Hpm Hm Hp Hp0 Hlow Hleft. unfold b32decode.
  set (enc := flat_map b32encode_quantum blocks).
  set (five := tail ++ repeat 0 (5 - length tail)).
  set (part := firstn m (b32encode_quantum five)).
  assert (Hfive : length five = 5%nat).
  { unfold five. rewrite length_app, repeat_length. lia. }
  assert (Hfb : Forall is_byte five).
  { apply Forall_app. split; [assumption|].
    apply Forall_repeat. unfold is_byte. lia. }
  assert (Hq : Forall (fun q => length q = 8%nat)
                      (map b32encode_quantum blocks)).
  { apply Forall_map, Forall_forall. intros b _. apply quantum_length. }
  assert (Henc : enc = concat (map b32encode_quantum blocks))
    by apply flat_map_concat_map.
  assert (Hl : length enc = (8 * length blocks)%nat).
  { rewrite Henc, (length_concat_blocks 8 _ Hq), length_map. reflexivity. }
  assert (Hpart : length part = m).
  { unfold part. rewrite length_firstn, quantum_length. lia. }
  assert (Hnopad : Forall (fun c => Ascii.eqb c pad_char = false)
                          (enc ++ part)).
  { apply Forall_app. split.
    - apply Forall_flat_map. intros b. apply quantum_no_pad.
    - apply Forall_firstn, quantum_no_pad. }
  assert (Hne : part <> []).
  { intros E. rewrite E in Hpart. simpl in Hpart. lia. }
  assert (Hgroups : groups_of (length (enc ++ part)) 8 (enc ++ part)
                    = map b32encode_quantum blocks ++ [part]).
  { rewrite Henc.
    rewrite groups_of_blocks; [|lia | assumption | lia | lia].
    now destruct part. }
  assert (Hloop : b32decode_loop [] 0 (map b32encode_quantum blocks ++ [part])
                  = Some (concat blocks
                            ++ be_bytes 5
                                 (Z.shiftr (be_int five) (5 * Z.of_nat p)),
                          Z.shiftr (be_int five) (5 * Z.of_nat p))).
  { destruct (b32decode_loop_blocks blocks Hlen Hbytes [] 0 [part])
      as [acc' E].
    rewrite E. cbn [b32decode_loop app]. unfold part.
    now rewrite (partial_quantum_decoded five p m Hpm Hfive Hfb). }
  assert (Hacc : Z.shiftl (Z.shiftr (be_int five) (5 * Z.of_nat p))
                          (5 * Z.of_nat p) = be_int five).
  { unfold five. rewrite be_int_zeros.
    rewrite Z.shiftl_mul_pow2, Z.shiftr_div_pow2 by lia.
    change 256 with (2 ^ 8). rewrite <- Z.pow_mul_r by lia.
    replace (8 * Z.of_nat (5 - length tail))
      with ((8 * Z.of_nat (5 - length tail) - 5 * Z.of_nat p)
            + 5 * Z.of_nat p) by lia.
    rewrite Z.pow_add_r by lia.
    rewrite Z.mul_assoc, Z.div_mul; [reflexivity|].
    apply Z.pow_nonzero; lia. }
  rewrite app_assoc.
  rewrite (rstrip_pad_padded (enc ++ part) p Hnopad).
  rewrite Hgroups, Hloop.
  rewrite (length_app (enc ++ part)), repeat_length.
  replace (length (enc ++ part) + p)%nat with ((length blocks + 1) * 8)%nat
    by (rewrite length_app, Hl, Hpart; lia).
  rewrite Nat.Div0.mod_mul. cbn [Nat.eqb negb].
  replace ((length blocks + 1) * 8 - length (enc ++ part))%nat with p
    by (rewrite length_app, Hl, Hpart; lia).
  rewrite Hp. cbn [negb].
  destruct (Nat.eqb_spec p 0); [lia|]. cbn [negb andb].
  rewrite length_app.
  change (length (be_bytes 5 _)) with 5%nat.
  destruct (Nat.eqb_spec (length (concat blocks) + 5) 0); [lia|].
  cbn [negb]. f_equal.
  rewrite firstn_app.
  replace (length (concat blocks) + 5 - 5)%nat with (length (concat blocks))
    by lia.
  rewrite firstn_all, Nat.sub_diag. cbn [firstn]. rewrite app_nil_r.
  f_equal.
  rewrite Hacc, Hleft.
  rewrite <- Hfive at 1. rewrite (be_bytes_be_int five Hfb).
  unfold five. rewrite firstn_app, firstn_all, Nat.sub_diag.
  cbn [firstn]. now rewrite app_nil_r.
Qed.

(** What [b32encode] writes, [b32decode] reads back: for every sequence of
    bytes, decoding its base32 text returns the bytes. *)
Lemma b32_roundtrip (s : bytes) :
  Forall is_byte s -> b32decode (b32encode s) = Returned s.
Proof.
  intros Hs.
  destruct (blocks_of_five (length s) s (le_n _))
    as (blocks & tail & -> & Hlen & Ht).
  apply Forall_app in Hs as [Hbs Htb].
  apply Forall_concat_inv in Hbs.
  assert (Hcases : length tail = 0%nat
                   \/ (length tail = 1 /\ 6 = 6)%nat
                   \/ (length tail = 2 /\ 4 = 4)%nat
                   \/ (length tail = 3 /\ 3 = 3)%nat
                   \/ (length tail = 4 /\ 1 = 1)%nat) by lia.
  destruct Hcases as [E|[[E _]|[[E _]|[[E _]|[E _]]]]].
  - destruct tail; [|discriminate]. rewrite app_nil_r.
    rewrite b32encode_whole by assumption.
    now apply b32decode_whole.
  - rewrite (b32encode_partial blocks tail 6 Hlen)
      by (rewrite E; simpl; auto).
    apply (b32decode_partial blocks tail 6 2); try assumption;
      try reflexivity; rewrite ?E; try lia; reflexivity.
  - rewrite (b32encode_partial blocks tail 4 Hlen)
      by (rewrite E; simpl; auto).
    apply (b32decode_partial blocks tail 4 4); try assumption;
      try reflexivity; rewrite ?E; try lia; reflexivity.
  - rewrite (b32encode_partial blocks tail 3 Hlen)
      by (rewrite E; simpl; auto).
    apply (b32decode_partial blocks tail 3 5); try assumption;
      try reflexivity; rewrite ?E; try lia; reflexivity.
  - rewrite (b32encode_partial blocks tail 1 Hlen)
      by (rewrite E; simpl; auto).
    apply (b32decode_partial blocks tail 1 7); try assumption;
      try reflexivity; rewrite ?E; try lia; reflexivity.
Qed.

(** The vectors of RFC 4648, section 10. *)
Example rfc4648_vectors :
  map (fun s => b32encode (ascii_bytes s))
      [""; "f"; "fo"; "foo"; "foob"; "fooba"; "foobar"]%string
  = map lit [""; "MY======"; "MZXQ===="; "MZXW6==="; "MZXW6YQ=";
             "MZXW6YTB"; "MZXW6YTBOI======"]%string.
Proof. vm_compute. reflexivity. Qed.

Lemma engine_uri_shape_hotp (self : HOTP.engine) :
  exists head rest,
    HOTP.get_uri self
    = Returned (head ++ lit "?secret=" ++ b32encode (_secret (HOTP.base self))
                     ++ lit "&issuer=" ++ rest).
Proof.
  unfold HOTP.get_uri, _get_uri. cbn [add_params HOTP.cls
    _extra_uri_parameters existsb negb].
  replace (str_eqb (lit "counter") (lit "counter")) with true
    by (symmetry; now apply str_eqb_eq).
  cbn [orb negb].
  exists (lit "otpauth://" ++ quote (_otp_type HOTP.cls) ++ lit "/"
            ++ match _account (HOTP.base self) with
               | Some a => quote (_issuer (HOTP.base self)) ++ lit ":"
                             ++ quote a
               | None => quote (_issuer (HOTP.base self))
               end).
  exists (quote (_issuer (HOTP.base self))
            ++ lit "&digits=" ++ py_str (_n_digits (HOTP.base self))
            ++ lit "&algorithm=" ++ quote (_algorithm_name (HOTP.base self))
            ++ lit "&" ++ lit "counter" ++ lit "="
            ++ quote (py_str (HOTP.counter self))).
  f_equal. repeat rewrite <- app_assoc. reflexivity.
Qed.

(** X19.  The secret of the URI builds the same engine: the text
    [get_uri] writes after [secret=] is the base32 of the secret, and a
    constructor given that text, with the other attributes of the engine,
    returns the engine itself, provided the registry resolves its
    (lower-case) algorithm name to its hash. *)
Theorem provisioning_secret_roundtrip (hashlib : hashlib_module)
    (self : HOTP.engine) :
  let b := HOTP.base self in
  Forall is_byte (_secret b) ->
  lower (_algorithm_name b) = _algorithm_name b ->
  hashlib (_algorithm_name b) = Some (_algorithm b) ->
  (exists head rest,
      HOTP.get_uri self
      = Returned (head ++ lit "?secret=" ++ b32encode (_secret b)
                       ++ lit "&issuer=" ++ rest))
  /\ HOTP.__init__ hashlib (inr (b32encode (_secret b))) (_issuer b)
                   (_account b) (_n_digits b) (_algorithm_name b)
                   (HOTP.counter self)
     = Returned self.
Proof.
  intros b Hbytes Hlower Hreg. split.
  - destruct engine_uri_shape_hotp with (self := self) as (head & rest & E).
    eauto.
  - unfold HOTP.__init__, _setup, _get_algorithm.
    rewrite (b32_roundtrip _ Hbytes), Hlower. fold b. rewrite Hreg.
    subst b. destruct self as [[sec iss acc nd name alg] c]. reflexivity.
Qed.

Lemma provisioning_secret_roundtrip_witness :
  (exists head rest,
      HOTP.get_uri (rfc_hotp 0)
      = Returned (head ++ lit "?secret=" ++ b32encode rfc_secret
                       ++ lit "&issuer=" ++ rest))
  /\ HOTP.__init__ sha1_only (inr (b32encode rfc_secret)) (lit "Example")
                   None 6 (lit "sha1") 0
     = Returned (rfc_hotp 0).
Proof.
  apply (provisioning_secret_roundtrip sha1_only (rfc_hotp 0)).
  - unfold is_byte. repeat constructor; discriminate.
  - reflexivity.
  - reflexivity.
Defined.

(** ** [_compare], continued *)

(** X20.  [_compare] accepts exactly equal strings that [int] parses: it
    compares the characters, not the numbers, so ["007"] and ["7"] differ;
    and it does not depend on the order of its arguments. *)
Theorem compare_accepts (a b : str) :
  (_compare a b = Ok true <-> a = b /\ exists z, py_int10 a = Some z)
  /\ _compare a b = _compare b a.
Proof.
  split.
  - split.
    + intros H. pose proof (compare_true a b H) as ->. split; [reflexivity|].
      destruct (compare_cases b b) as [_|[[Hu|Hu] E]];
        try (rewrite E in H; discriminate).
      destruct (py_int10 b) as [z|] eqn:Hz; [eauto|].
      rewrite compare_unparsable in H by now left. discriminate.
    + intros [-> Hz]. rewrite compare_parsable by assumption.
      now rewrite constant_time_compare_refl.
  - destruct (py_int10 a) as [za|] eqn:Ha;
      [destruct (py_int10 b) as [zb|] eqn:Hb|].
    + rewrite !compare_parsable by eauto. f_equal.
      destruct (constant_time_compare a b) eqn:E.
      * apply constant_time_compare_eq in E. subst.
        now rewrite constant_time_compare_refl.
      * symmetry. apply constant_time_compare_neq. intros ->.
        now rewrite constant_time_compare_refl in E.
    + now rewrite !compare_unparsable by (unfold unparsable; auto).
    + now rewrite !compare_unparsable by (unfold unparsable; auto).
Qed.

Lemma compare_accepts_witness :
  _compare (lit "007") (lit "007") = Ok true
  /\ _compare (lit "007") (lit "7") = Ok false
  /\ _compare (lit "7") (lit "007") = Ok false.
Proof.
  destruct (compare_accepts (lit "007") (lit "007")) as [[_ H] _].
  destruct (compare_accepts (lit "007") (lit "7")) as [_ Hsym].
  split; [apply H; split; [reflexivity | now exists 7]|].
  split; [reflexivity|]. rewrite <- Hsym. reflexivity.
Defined.
